(** * In-game lineup state machine of the Sports-Management-App

    A shallow embedding of the game/lineup part of the React context
    provider (the [TeamProvider] component: [startGameTimer],
    [stopGameTimer], [markGameAsFinished], [startPlayerTimerInGame],
    [resetGameLineup], [movePlayerInGame], the lineup part of
    [loadFromLocalStorage]) and of the handlers of [GamePage.tsx] that
    drive it ([handleDropInGame], [handlePlanDrop], [handleConfirmPlan],
    [handleCancelPlan], [handleTogglePlanningMode]).

    Conventions of the embedding.
    - React state is passed explicitly: a setter called with a functional
      update [setGamesState(prev => f prev)] is the function [f] on the
      list of games; several such calls in one handler compose in order.
    - [Date.now()] is an argument [now : Z] (integer milliseconds).
    - [playtimeSeconds], the timer fields and the substitution counters are
      integers: the program only ever writes [0], a [Math.round] result, a
      [Date.now()] value or a counter [++] into them. On such values the
      double arithmetic of the source is exact.
    - An optional field ([isStarter?], [timerStatus?], ...) is an [option];
      [undefined] and [null] are both [None].
    - Field coordinates are percentages; they are rationals here. *)

From Stdlib Require Import ZArith QArith Qround Lia DecimalString.
From stdpp Require Import base option list strings.

Open Scope Z_scope.

(** ** Data model *)

Module Position.
Record t := mk { x : Q; y : Q }.
End Position.

Inductive Location := Field | Bench | Inactive.

#[global] Instance Location_eq_dec : EqDecision Location.
Proof. solve_decision. Defined.

Inductive TimerStatus := Stopped | Running.

#[global] Instance TimerStatus_eq_dec : EqDecision TimerStatus.
Proof. solve_decision. Defined.

Inductive Venue := Home | Away.

(** [interface Player] (the roster). *)
Record Player := mkPlayer {
  player_id : string;
  firstName : string;
  lastName : string;
  number : string;
  player_location : Location;
  player_position : option Position.t }.

(** [interface PlayerLineupState]. *)
Record PlayerLineupState := mkPlayerLineupState {
  id : string;
  location : Location;
  position : option Position.t;
  playtimeSeconds : Z;
  playtimerStartTime : option Z;
  isStarter : option bool;
  subbedOnCount : Z;
  subbedOffCount : Z }.

(** [interface Game]. *)
Record Game := mkGame {
  game_id : string;
  opponent : string;
  date : string;
  time : string;
  game_location : Venue;
  homeScore : option Z;
  awayScore : option Z;
  timerStatus : option TimerStatus;
  timerStartTime : option Z;
  timerElapsedSeconds : option Z;
  isExplicitlyFinished : option bool;
  lineup : option (list PlayerLineupState) }.

(** ** JavaScript operators used by the source *)

(** Truthiness of a [number | null]: [null] and [0] are falsy. The value
    is returned when truthy, so that the guarded branch can use it. *)
Definition truthy (o : option Z) : option Z :=
  match o with
  | Some t => if decide (t = 0) then None else Some t
  | None => None
  end.

(** [b ?? false] and plain truthiness of an optional boolean coincide. *)
Definition flag (o : option bool) : bool := default false o.

(** [Math.round]: the nearest integer, ties towards plus infinity. *)
Definition Math_round (q : Q) : Z := Qfloor (q + (1 # 2)).

(** [Math.round(playtime + (now - start) / 1000)]. *)
Definition bank (playtime now start : Z) : Z :=
  Math_round (inject_Z playtime + inject_Z (now - start) / inject_Z 1000).

(** ** The context provider *)

(** [createDefaultLineup]. *)
Definition createDefaultLineup (players : list Player) : list PlayerLineupState :=
  (fun p => {| id := player_id p; location := Bench; position := None;
               playtimeSeconds := 0; playtimerStartTime := None;
               isStarter := Some false;
               subbedOnCount := 0; subbedOffCount := 0 |}) <$> players.

(** [g.lineup?.map(f) ?? null]. *)
Definition mapLineup (f : PlayerLineupState → PlayerLineupState)
    (l : option (list PlayerLineupState)) : option (list PlayerLineupState) :=
  match l with
  | Some ps => Some (f <$> ps)
  | None => None
  end.

(** The per-entry function mapped over the lineup by [startGameTimer]. *)
Definition startEntry (now : Z) (isStartingFresh : bool)
    (p : PlayerLineupState) : PlayerLineupState :=
  let isFieldPlayer := bool_decide (location p = Field) in
  {| id := id p; location := location p; position := position p;
     playtimeSeconds := playtimeSeconds p;
     playtimerStartTime := if isFieldPlayer then Some now else playtimerStartTime p;
     isStarter := Some (if isStartingFresh then isFieldPlayer else flag (isStarter p));
     subbedOnCount := subbedOnCount p; subbedOffCount := subbedOffCount p |}.

Definition startGame (now : Z) (currentDate currentTime : string) (g : Game) : Game :=
  let isStartingFresh := bool_decide (default 0 (timerElapsedSeconds g) = 0) in
  {| game_id := game_id g; opponent := opponent g;
     date := if decide (date g = currentDate) then date g else currentDate;
     time := if decide (time g = currentTime) then time g else currentTime;
     game_location := game_location g;
     homeScore := homeScore g; awayScore := awayScore g;
     timerStatus := Some Running; timerStartTime := Some now;
     timerElapsedSeconds := timerElapsedSeconds g;
     isExplicitlyFinished := Some false;
     lineup := mapLineup (startEntry now isStartingFresh) (lineup g) |}.

(** [startGameTimer]. *)
Definition startGameTimer (now : Z) (currentDate currentTime : string)
    (gameId : string) (prev : list Game) : list Game :=
  (fun g => if bool_decide (game_id g = gameId) && negb (flag (isExplicitlyFinished g))
            then startGame now currentDate currentTime g else g) <$> prev.

(** Replace the banked playtime and clear the running timer. *)
Definition banked (p : PlayerLineupState) (newPlaytime : Z) : PlayerLineupState :=
  {| id := id p; location := location p; position := position p;
     playtimeSeconds := newPlaytime; playtimerStartTime := None;
     isStarter := isStarter p;
     subbedOnCount := subbedOnCount p; subbedOffCount := subbedOffCount p |}.

(** The per-entry function mapped over the lineup by [stopGameTimer]. *)
Definition stopEntry (now : Z) (p : PlayerLineupState) : PlayerLineupState :=
  match location p, truthy (playtimerStartTime p) with
  | Field, Some start => banked p (bank (playtimeSeconds p) now start)
  | Inactive, Some start => banked p (bank (playtimeSeconds p) now start)
  | _, _ => p
  end.

Definition withTimer (g : Game) (status : TimerStatus) (elapsed : Z)
    (finished : option bool) (l : option (list PlayerLineupState)) : Game :=
  {| game_id := game_id g; opponent := opponent g; date := date g; time := time g;
     game_location := game_location g;
     homeScore := homeScore g; awayScore := awayScore g;
     timerStatus := Some status; timerStartTime := None;
     timerElapsedSeconds := Some elapsed;
     isExplicitlyFinished := finished; lineup := l |}.

(** [stopGameTimer]. *)
Definition stopGameTimer (now : Z) (gameId : string) (prev : list Game) : list Game :=
  (fun g =>
     if bool_decide (game_id g = gameId) && bool_decide (timerStatus g = Some Running)
     then match truthy (timerStartTime g) with
          | Some start =>
              withTimer g Stopped (bank (default 0 (timerElapsedSeconds g)) now start)
                (isExplicitlyFinished g) (mapLineup (stopEntry now) (lineup g))
          | None => g
          end
     else g) <$> prev.

(** The per-entry function of [markGameAsFinished]. *)
Definition finishEntry (now : Z) (p : PlayerLineupState) : PlayerLineupState :=
  match truthy (playtimerStartTime p) with
  | Some start =>
      if bool_decide (location p = Field) || bool_decide (location p = Inactive)
      then banked p (bank (playtimeSeconds p) now start) else p
  | None => p
  end.

(** [markGameAsFinished]. *)
Definition markGameAsFinished (now : Z) (gameId : string) (prev : list Game) : list Game :=
  (fun g =>
     if bool_decide (game_id g = gameId) then
       match (if bool_decide (timerStatus g = Some Running)
              then truthy (timerStartTime g) else None) with
       | Some start =>
           withTimer g Stopped (bank (default 0 (timerElapsedSeconds g)) now start)
             (Some true) (mapLineup (finishEntry now) (lineup g))
       | None =>
           withTimer g Stopped (default 0 (timerElapsedSeconds g)) (Some true) (lineup g)
       end
     else g) <$> prev.

(** [{ ...game, lineup: l }]. *)
Definition withLineup (game : Game) (l : option (list PlayerLineupState)) : Game :=
  {| game_id := game_id game; opponent := opponent game;
     date := date game; time := time game; game_location := game_location game;
     homeScore := homeScore game; awayScore := awayScore game;
     timerStatus := timerStatus game; timerStartTime := timerStartTime game;
     timerElapsedSeconds := timerElapsedSeconds game;
     isExplicitlyFinished := isExplicitlyFinished game;
     lineup := l |}.

(** The per-entry function of [startPlayerTimerInGame]: start the timer of
    player [playerId] if on the field and not already running. *)
Definition startPlayerEntry (now : Z) (playerId : string)
    (p : PlayerLineupState) : PlayerLineupState :=
  if bool_decide (id p = playerId) && bool_decide (location p = Field)
     && bool_decide (truthy (playtimerStartTime p) = None)
  then {| id := id p; location := location p; position := position p;
          playtimeSeconds := playtimeSeconds p;
          playtimerStartTime := Some now;
          isStarter := isStarter p;
          subbedOnCount := subbedOnCount p;
          subbedOffCount := subbedOffCount p |}
  else p.

(** [startPlayerTimerInGame]. *)
Definition startPlayerTimerInGame (now : Z) (gameId playerId : string)
    (prevGames : list Game) : list Game :=
  (fun game =>
     match lineup game with
     | Some l =>
         if bool_decide (game_id game = gameId) then
           if bool_decide (timerStatus game ≠ Some Running) then game
           else withLineup game (Some (startPlayerEntry now playerId <$> l))
         else game
     | None => game
     end) <$> prevGames.

(** [resetGameLineup]; [currentPlayers] is the roster read back from local
    storage. The function also returns the default lineup. *)
Definition resetGameLineup (currentPlayers : list Player) (gameId : string)
    (prevGames : list Game) : list Game * list PlayerLineupState :=
  let defaultLineup := createDefaultLineup currentPlayers in
  ((fun game => if bool_decide (game_id game = gameId)
                then withLineup game (Some defaultLineup) else game) <$> prevGames,
   defaultLineup).

(** The guard of the timer-stopping step of [movePlayerInGame]: the move
    comes from the field or from inactive and the entry's timer is set. The
    start time is returned when the guard holds. *)
Definition leavingWithTimer (sourceLocation : Location)
    (playerState : PlayerLineupState) : option Z :=
  if bool_decide (sourceLocation = Field) || bool_decide (sourceLocation = Inactive)
  then truthy (playtimerStartTime playerState)
  else None.

(** The body of [movePlayerInGame] between the copy of the player state
    ([const playerState = { ...newLineup[playerIndex] }]) and its write-back:
    timer logic, substitution counters and structural update. *)
Definition movePlayerState (now : Z) (isGameRunning : bool)
    (sourceLocation targetLocation : Location) (newPosition : option Position.t)
    (playerState : PlayerLineupState) : PlayerLineupState :=
  (* 1. stop the timer when moving from field or inactive with a running timer *)
  let updatedPlaytime :=
    match leavingWithTimer sourceLocation playerState with
    | Some start => bank (playtimeSeconds playerState) now start
    | None => playtimeSeconds playerState
    end in
  let updatedStartTime :=
    match leavingWithTimer sourceLocation playerState with
    | Some _ => None
    | None => playtimerStartTime playerState
    end in
  (* 2. start the timer when moving to the field of a running game *)
  let updatedStartTime :=
    if bool_decide (targetLocation = Field) && isGameRunning then
      match updatedStartTime with
      | None => Some now
      | Some t => Some t
      end
    else if bool_decide (targetLocation ≠ Field) then None
    else updatedStartTime in
  (* substitution counters *)
  let updatedSubbedOnCount :=
    if bool_decide (sourceLocation = Bench) && bool_decide (targetLocation = Field)
    then subbedOnCount playerState + 1
    else subbedOnCount playerState in
  let updatedSubbedOffCount :=
    if bool_decide (sourceLocation = Bench) && bool_decide (targetLocation = Field)
    then subbedOffCount playerState
    else if bool_decide (sourceLocation = Field) && bool_decide (targetLocation = Bench)
    then subbedOffCount playerState + 1
    else subbedOffCount playerState in
  (* structural update *)
  {| id := id playerState;
     location := targetLocation;
     position := if bool_decide (targetLocation = Field) then newPosition else None;
     playtimeSeconds := updatedPlaytime;
     playtimerStartTime := updatedStartTime;
     isStarter := isStarter playerState;
     subbedOnCount := updatedSubbedOnCount;
     subbedOffCount := updatedSubbedOffCount |}.

(** [games.findIndex(g => g.id === gameId)], with the game found. *)
Definition findGame (gameId : string) (games : list Game) : option (nat * Game) :=
  list_find (fun g => game_id g = gameId) games.

(** [lineup.findIndex(p => p.id === playerId)], with the entry found. *)
Definition findPlayer (playerId : string) (l : list PlayerLineupState)
    : option (nat * PlayerLineupState) :=
  list_find (fun p => id p = playerId) l.

(** [movePlayerInGame]: the single funnel of every placement change. *)
Definition movePlayerInGame (now : Z) (gameId playerId : string)
    (sourceLocation targetLocation : Location) (newPosition : option Position.t)
    (prevGames : list Game) : list Game :=
  match findGame gameId prevGames with
  | None => prevGames
  | Some (gameIndex, game) =>
      match lineup game with
      | None => prevGames
      | Some l =>
          let isGameRunning := bool_decide (timerStatus game = Some Running) in
          match findPlayer playerId l with
          | None => prevGames
          | Some (playerIndex, p) =>
              let playerState :=
                movePlayerState now isGameRunning sourceLocation targetLocation
                  newPosition p in
              let newLineup := <[playerIndex := playerState]> l in
              <[gameIndex := withLineup game (Some newLineup)]> prevGames
          end
      end
  end.

(** ** Deserialization of a persisted lineup ([loadFromLocalStorage], key
    ['games'], the [validLineup] part)

    A stored lineup record after [JSON.parse]: each property is either
    absent or of another type than the one the loader tests for ([None]), or
    present with that type. [location] is kept as the raw string, since the
    loader checks it against the three known names. *)
Record StoredEntry := mkStoredEntry {
  stored_id : option string;
  stored_location : option string;
  stored_position : option Position.t;
  stored_playtimeSeconds : option Z;
  stored_playtimerStartTime : option Z;
  stored_isStarter : option bool;
  stored_subbedOnCount : option Z;
  stored_subbedOffCount : option Z }.

(** [['field', 'bench', 'inactive'].includes(p.location) ? p.location : 'bench']. *)
Definition loadLocation (s : option string) : Location :=
  match s with
  | Some "field"%string => Field
  | Some "inactive"%string => Inactive
  | _ => Bench
  end.

(** One element of the stored array; [None] is an element that is not an
    object. The result [None] is the [null] that the loader filters out. *)
Definition loadEntry (p : option StoredEntry) : option PlayerLineupState :=
  match p with
  | None => None
  | Some p =>
      match stored_id p with
      | None => None
      | Some i =>
          if decide (i = ""%string) then None
          else Some {| id := i;
                       location := loadLocation (stored_location p);
                       position := stored_position p;
                       playtimeSeconds := default 0 (stored_playtimeSeconds p);
                       playtimerStartTime := stored_playtimerStartTime p;
                       isStarter := Some (default false (stored_isStarter p));
                       subbedOnCount := default 0 (stored_subbedOnCount p);
                       subbedOffCount := default 0 (stored_subbedOffCount p) |}
      end
  end.

(** [validLineup]; the argument is [None] when [g.lineup] is not an array. *)
Definition validLineup (stored : option (list (option StoredEntry)))
    : option (list PlayerLineupState) :=
  match stored with
  | Some ps => Some (omap loadEntry ps)
  | None => None
  end.

(** ** The game page ([GamePage.tsx]) *)

(** A staged swap: the value type of the [plannedSwaps] map. *)
Record PlannedSwap := mkPlannedSwap {
  targetFieldPlayerId : string;
  targetPosition : option Position.t }.

(** The [plannedSwaps] map, keyed by bench player id. A JavaScript [Map]
    iterates in insertion order and [handleConfirmPlan] executes the swaps
    in that order, so the map is the list of its entries in that order. *)
Definition mapDelete {V} (k : string) (m : list (string * V)) : list (string * V) :=
  filter (fun kv => kv.1 ≠ k) m.

Fixpoint mapSet {V} (k : string) (v : V) (m : list (string * V)) : list (string * V) :=
  match m with
  | [] => [(k, v)]
  | (k', v') :: m' => if decide (k' = k) then (k, v) :: m' else (k', v') :: mapSet k v m'
  end.

Fixpoint mapGet {V} (k : string) (m : list (string * V)) : option V :=
  match m with
  | [] => None
  | (k', v) :: m' => if decide (k' = k) then Some v else mapGet k m'
  end.

(** The state the handlers of the page read and write: the games of the
    context, the [gameId] prop and the planning-mode state. *)
Record Page := mkPage {
  games : list Game;
  gameId : option string;
  isPlanningSubs : bool;
  plannedSwaps : list (string * PlannedSwap) }.

(** The memoized [game]: [games.find(g => g.id === gameId)]. *)
Definition pageGame (s : Page) : option Game :=
  match gameId s with
  | Some gid => snd <$> findGame gid (games s)
  | None => None
  end.

Definition isFinished (s : Page) : bool :=
  match pageGame s with
  | Some g => bool_decide (isExplicitlyFinished g = Some true)
  | None => false
  end.

(** [handleTogglePlanningMode]. *)
Definition handleTogglePlanningMode (s : Page) : Page :=
  if isFinished s then s
  else {| games := games s; gameId := gameId s;
          isPlanningSubs := negb (isPlanningSubs s); plannedSwaps := [] |}.

(** The first step of the functional update of [handlePlanDrop]: the plan
    found to target field player [targetPlayerId] already, if any, is
    deleted. *)
Definition withoutTarget (targetPlayerId : string)
    (newMap : list (string * PlannedSwap)) : list (string * PlannedSwap) :=
  let existingTarget :=
    list_find (fun kv => targetFieldPlayerId kv.2 = targetPlayerId) newMap in
  match existingTarget with
  | Some (_, (k, _)) => mapDelete k newMap
  | None => newMap
  end.

(** The functional update of [handlePlanDrop] on the map. *)
Definition planDrop (draggedPlayerId targetPlayerId : string)
    (targetPosition : option Position.t)
    (prev : list (string * PlannedSwap)) : list (string * PlannedSwap) :=
  let newMap := prev in
  let newMap := withoutTarget targetPlayerId newMap in
  let newMap := mapDelete draggedPlayerId newMap in
  mapSet draggedPlayerId
    {| targetFieldPlayerId := targetPlayerId; targetPosition := targetPosition |} newMap.

(** [handlePlanDrop]. *)
Definition handlePlanDrop (draggedPlayerId targetPlayerId : string)
    (targetPosition : option Position.t) (s : Page) : Page :=
  {| games := games s; gameId := gameId s; isPlanningSubs := isPlanningSubs s;
     plannedSwaps := planDrop draggedPlayerId targetPlayerId targetPosition
                       (plannedSwaps s) |}.

(** [handleCancelPlan]. *)
Definition handleCancelPlan (s : Page) : Page :=
  {| games := games s; gameId := gameId s; isPlanningSubs := false; plannedSwaps := [] |}.

(** The [plannedSwaps.forEach] loop of [handleConfirmPlan]. Every
    [movePlayerInGame] call reads [Date.now()] itself: [now k] is the clock
    at the [k]-th call. *)
Fixpoint executeSwaps (now : nat → Z) (k : nat) (gid : string)
    (plan : list (string * PlannedSwap)) (gs : list Game) : list Game :=
  match plan with
  | [] => gs
  | (benchPlayerId, sw) :: rest =>
      (* 1. move the field player to the bench *)
      let gs := movePlayerInGame (now k) gid (targetFieldPlayerId sw)
                  Field Bench None gs in
      (* 2. move the bench player to the field player's original spot *)
      let gs := movePlayerInGame (now (S k)) gid benchPlayerId
                  Bench Field (targetPosition sw) gs in
      executeSwaps now (S (S k)) gid rest gs
  end.

(** [handleConfirmPlan]. *)
Definition handleConfirmPlan (now : nat → Z) (s : Page) : Page :=
  match pageGame s with
  | None => s
  | Some game =>
      {| games := executeSwaps now 0 (game_id game) (plannedSwaps s) (games s);
         gameId := gameId s; isPlanningSubs := false; plannedSwaps := [] |}
  end.

(** The item of a regular drag: id, location and position of the dragged
    entry as they were when the drag began. *)
Record DragItem := mkDragItem {
  item_id : string;
  item_location : Location;
  item_position : option Position.t }.

Definition ICON_WIDTH_APPROX : Q := 40.
Definition ICON_HEIGHT_APPROX : Q := 58.

Definition Qltb (a b : Q) : bool := negb (Qle_bool b a).

(** The predicate of the [find] that looks for an occupant under the drop
    point: the point lies strictly inside the occupant's icon box. *)
Definition underDrop (iconWPercent iconHPercent xPercent yPercent : Q)
    (fp : PlayerLineupState) : bool :=
  match position fp with
  | None => false
  | Some pos =>
      let pL := (Position.x pos - iconWPercent / 2)%Q in
      let pR := (Position.x pos + iconWPercent / 2)%Q in
      let pT := (Position.y pos - iconHPercent / 2)%Q in
      let pB := (Position.y pos + iconHPercent / 2)%Q in
      Qltb pL xPercent && Qltb xPercent pR && Qltb pT yPercent && Qltb yPercent pB
  end.

(** [handleDropInGame]. [currentGameLineup] and [fieldDimensions] are the
    page's local copies of the lineup and of the field size; [now1] and
    [now2] are the clock at the first and second [movePlayerInGame] call. *)
Definition handleDropInGame (now1 now2 : Z)
    (currentGameLineup : list PlayerLineupState) (fieldDimensions : Q * Q)
    (item : DragItem) (targetLocation : Location) (xPercent yPercent : option Q)
    (s : Page) : Page :=
  let withGames gs :=
    {| games := gs; gameId := gameId s; isPlanningSubs := isPlanningSubs s;
       plannedSwaps := plannedSwaps s |} in
  match pageGame s with
  | None => s
  | Some game =>
      if isPlanningSubs s then s
      else
        let droppedPlayerId := item_id item in
        let sourceLocation := item_location item in
        match findPlayer droppedPlayerId currentGameLineup with
        | None => s
        | Some (_, playerBeingMoved) =>
            match targetLocation, xPercent, yPercent with
            | Field, Some xPercent, Some yPercent =>
                let currentFieldPlayers :=
                  filter (fun fp => location fp = Field ∧ id fp ≠ droppedPlayerId)
                    currentGameLineup in
                let iconWPercent :=
                  if Qltb 0 fieldDimensions.1
                  then (ICON_WIDTH_APPROX / fieldDimensions.1 * 100)%Q else 5%Q in
                let iconHPercent :=
                  if Qltb 0 fieldDimensions.2
                  then (ICON_HEIGHT_APPROX / fieldDimensions.2 * 100)%Q else 5%Q in
                match List.find (underDrop iconWPercent iconHPercent xPercent yPercent)
                        currentFieldPlayers with
                | Some targetPlayer =>
                    match findPlayer (id targetPlayer) currentGameLineup with
                    | None => s
                    | Some (_, playerBeingReplaced) =>
                        let gs :=
                          movePlayerInGame now1 (game_id game) (id playerBeingReplaced)
                            Field sourceLocation
                            (if bool_decide (sourceLocation = Field)
                             then position playerBeingMoved else None) (games s) in
                        withGames
                          (movePlayerInGame now2 (game_id game) droppedPlayerId
                             sourceLocation Field (position playerBeingReplaced) gs)
                    end
                | None =>
                    withGames
                      (movePlayerInGame now1 (game_id game) droppedPlayerId
                         sourceLocation Field
                         (Some (Position.mk xPercent yPercent)) (games s))
                end
            | Field, _, _ => s
            | _, _, _ =>
                if bool_decide (sourceLocation ≠ targetLocation)
                then withGames
                       (movePlayerInGame now1 (game_id game) droppedPlayerId
                          sourceLocation targetLocation None (games s))
                else s
            end
        end
  end.

(** ** Observing one entry, and sequences of operations *)

(** The lineup entry of player [pid] in a game: the first entry with that
    id, as [lineup.findIndex(p => p.id === playerId)] finds it. *)
Definition entryIn (pid : string) (g : Game) : option PlayerLineupState :=
  match lineup g with
  | Some l => snd <$> findPlayer pid l
  | None => None
  end.

(** The lineup entry of player [pid] in game [gid], as every function of
    the provider finds it: first game with that id, first entry with that
    id. *)
Definition entryAt (gid pid : string) (gs : list Game) : option PlayerLineupState :=
  match findGame gid gs with
  | Some (_, g) => entryIn pid g
  | None => None
  end.

(** [isGameRunning] as [movePlayerInGame] computes it for game [gid]. *)
Definition gameRunning (gid : string) (gs : list Game) : bool :=
  match findGame gid gs with
  | Some (_, g) => bool_decide (timerStatus g = Some Running)
  | None => false
  end.

(** The calls that move players and drive the clock. *)
Inductive Op :=
| Move (gameId playerId : string) (sourceLocation targetLocation : Location)
       (newPosition : option Position.t)
| StartClock (currentDate currentTime gameId : string)
| StopClock (gameId : string)
| Finish (gameId : string)
| StartPlayer (gameId playerId : string).

Definition apply (now : Z) (op : Op) (gs : list Game) : list Game :=
  match op with
  | Move g p s t pos => movePlayerInGame now g p s t pos gs
  | StartClock d t g => startGameTimer now d t g gs
  | StopClock g => stopGameTimer now g gs
  | Finish g => markGameAsFinished now g gs
  | StartPlayer g p => startPlayerTimerInGame now g p gs
  end.

(** A sequence of calls, each with the value of [Date.now()] it reads. *)
Fixpoint run (ops : list (Z * Op)) (gs : list Game) : list Game :=
  match ops with
  | [] => gs
  | (now, op) :: rest => run rest (apply now op gs)
  end.

(** What one call can do to the observed entry [(gid, pid)]: a move that
    addresses it applies [movePlayerState]; a clock call applies its
    per-entry function or skips the game; everything else leaves the entry
    as it is. *)
Inductive entryStep (now : Z) (gid pid : string) (gs : list Game)
    : Op → PlayerLineupState → PlayerLineupState → Prop :=
| ES_move s t pos e :
    entryStep now gid pid gs (Move gid pid s t pos) e
      (movePlayerState now (gameRunning gid gs) s t pos e)
| ES_other_move g p s t pos e :
    ¬ (g = gid ∧ p = pid) → entryStep now gid pid gs (Move g p s t pos) e e
| ES_start d t g fresh e :
    entryStep now gid pid gs (StartClock d t g) e (startEntry now fresh e)
| ES_start_skip d t g e : entryStep now gid pid gs (StartClock d t g) e e
| ES_stop g e : entryStep now gid pid gs (StopClock g) e (stopEntry now e)
| ES_stop_skip g e : entryStep now gid pid gs (StopClock g) e e
| ES_finish g e : entryStep now gid pid gs (Finish g) e (finishEntry now e)
| ES_finish_skip g e : entryStep now gid pid gs (Finish g) e e
| ES_startPlayer g p e :
    entryStep now gid pid gs (StartPlayer g p) e (startPlayerEntry now p e)
| ES_startPlayer_skip g p e : entryStep now gid pid gs (StartPlayer g p) e e.

Create HintDb lineup.
#[local] Hint Constructors entryStep : lineup.

(** ** Sample data: one game, four players *)

Definition at_ (a b : Z) : Position.t := Position.mk (inject_Z a) (inject_Z b).

Definition benchEntry (i : string) : PlayerLineupState :=
  mkPlayerLineupState i Bench None 0 None (Some false) 0 0.

Definition fieldEntry (i : string) (pos : Position.t) (start : option Z)
  : PlayerLineupState :=
  mkPlayerLineupState i Field (Some pos) 0 start (Some false) 0 0.

Definition sampleGame (status : TimerStatus) (start : option Z) (elapsed : Z)
    (l : list PlayerLineupState) : Game :=
  mkGame "g1" "Rovers" "2025-03-01" "10:00" Home (Some 0) (Some 0)
    (Some status) start (Some elapsed) (Some false) (Some l).

(** A game whose clock has run since [t = 1000]: [x] and [y] on the field
    with running timers, [a] and [b] on the bench. *)
Definition runningGames : list Game :=
  [sampleGame Running (Some 1000) 0
     [fieldEntry "x" (at_ 20 30) (Some 1000); fieldEntry "y" (at_ 60 70) (Some 1000);
      benchEntry "a"; benchEntry "b"]].

(** The same lineup before the clock was ever started. *)
Definition freshGame : Game :=
  sampleGame Stopped None 0
    [fieldEntry "x" (at_ 20 30) None; fieldEntry "y" (at_ 60 70) None;
     benchEntry "a"; benchEntry "b"].

Definition freshGames : list Game := [freshGame].

(** ** Notions used to state the properties of call sequences *)

(** A move call is truthful when the [sourceLocation] it passes is the
    stored location of the entry it addresses (a call that addresses no
    entry changes nothing and is truthful). *)
Definition truthfulOp (op : Op) (gs : list Game) : bool :=
  match op with
  | Move g p s _ _ =>
      match entryAt g p gs with
      | Some e => bool_decide (location e = s)
      | None => true
      end
  | _ => true
  end.

Fixpoint truthful (ops : list (Z * Op)) (gs : list Game) : bool :=
  match ops with
  | [] => true
  | (now, op) :: rest => truthfulOp op gs && truthful rest (apply now op gs)
  end.

(** The number of calls of the sequence across which the observed entry
    goes from location [from] to location [to]. *)
Fixpoint transitions (from to : Location) (gid pid : string)
    (ops : list (Z * Op)) (gs : list Game) : Z :=
  match ops with
  | [] => 0
  | (now, op) :: rest =>
      let gs' := apply now op gs in
      (if bool_decide (location <$> entryAt gid pid gs = Some from
                       ∧ location <$> entryAt gid pid gs' = Some to)
       then 1 else 0)
      + transitions from to gid pid rest gs'
  end.

(** A match fragment: the clock starts at [t = 1000]; at [t = 31000]
    ["a"] comes on for ["x"]; ["a"] is later taken out injured (inactive),
    comes back, and goes to the bench after the clock was stopped. *)
Definition sampleOps : list (Z * Op) :=
  [(1000, StartClock "2025-03-01" "10:00" "g1");
   (31000, Move "g1" "x" Field Bench None);
   (31000, Move "g1" "a" Bench Field (Some (at_ 20 30)));
   (40000, Move "g1" "a" Field Inactive None);
   (50000, Move "g1" "a" Inactive Field (Some (at_ 40 40)));
   (61000, StopClock "g1");
   (62000, Move "g1" "a" Field Bench None)].

(** The call times of a sequence never go back, and none is before [t0]. *)
Fixpoint timesFrom (t0 : Z) (ops : list (Z * Op)) : bool :=
  match ops with
  | [] => true
  | (now, _) :: rest => bool_decide (t0 ≤ now) && timesFrom now rest
  end.

(** The entry's timer, when set, was started at or before [t]. *)
Definition startedBy (t : Z) (e : PlayerLineupState) : bool :=
  match playtimerStartTime e with
  | Some start => bool_decide (start ≤ t)
  | None => true
  end.

(** The elapsed interval [(now - start) / 1000] seconds, rounded. *)
Definition roundedInterval (now start : Z) : Z :=
  Math_round (inject_Z (now - start) / inject_Z 1000).

(** The time of the last call of a sequence ([t0] for the empty one). *)
Fixpoint lastTime (t0 : Z) (ops : list (Z * Op)) : Z :=
  match ops with
  | [] => t0
  | (now, _) :: rest => lastTime now rest
  end.

(** The position invariant of one entry: [position] is defined exactly
    when the entry is on the field. *)
Definition positionOk (e : PlayerLineupState) : bool :=
  bool_decide (is_Some (position e) ↔ location e = Field).

(** ... of every entry of every lineup of the state. *)
Definition gamesOk (gs : list Game) : bool :=
  forallb (fun g => match lineup g with
                    | Some l => forallb positionOk l
                    | None => true
                    end) gs.

(** The same for the lineup of one game, as a proposition. *)
Definition LineupOk (g : Game) : Prop :=
  ∀ l, lineup g = Some l → Forall (fun e => positionOk e = true) l.

(** The calls that write lineups: the timed calls and the lineup reset. *)
Inductive Action :=
| Call (now : Z) (op : Op)
| Reset (currentPlayers : list Player) (gameId : string).

Definition perform (a : Action) (gs : list Game) : list Game :=
  match a with
  | Call now op => apply now op gs
  | Reset currentPlayers g => (resetGameLineup currentPlayers g gs).1
  end.

Definition performAll (acts : list Action) (gs : list Game) : list Game :=
  fold_left (fun gs a => perform a gs) acts gs.

(** A move to the field comes with a position (as every move issued by the
    page does when the dragged and the replaced entries have one). *)
Definition suppliesPosition (a : Action) : bool :=
  match a with
  | Call _ (Move _ _ _ Field None) => false
  | _ => true
  end.

(** A stored lineup as the page can leave it, and one that was edited by
    hand: the entry on the bench still carries a position. *)
Definition storedOnField : StoredEntry :=
  mkStoredEntry (Some "x") (Some "field") (Some (at_ 20 30)) (Some 0) None
    (Some false) (Some 0) (Some 0).

Definition storedBenchWithPosition : StoredEntry :=
  mkStoredEntry (Some "a") (Some "bench") (Some (at_ 20 30)) (Some 0) None
    (Some false) (Some 0) (Some 0).

(** A page in planning mode on the fresh game. *)
Definition planningPage (plan : list (string * PlannedSwap)) : Page :=
  mkPage freshGames (Some "g1") true plan.

(** The plan staged by dropping ["a"] on ["x"] and then ["b"] on ["y"]. *)
Definition stagedPage : Page :=
  handlePlanDrop "b" "y" (Some (at_ 60 70))
    (handlePlanDrop "a" "x" (Some (at_ 20 30)) (planningPage [])).

(** A clock that advances by a millisecond from one call to the next. *)
Definition sampleClock (k : nat) : Z := 62000 + Z.of_nat k.

(** The sample sequence as actions, followed by a lineup reset. *)
Definition sampleActions : list Action :=
  ((fun c => Call c.1 c.2) <$> sampleOps)
  ++ [Reset [mkPlayer "x" "Xavi" "X" "6" Bench None;
             mkPlayer "a" "Ana" "A" "9" Bench None] "g1"].

(** The bench players and the field players of a plan, in staging order. *)
Definition planKeys (m : list (string * PlannedSwap)) : list string := fst <$> m.

Definition planTargets (m : list (string * PlannedSwap)) : list string :=
  (fun kv => targetFieldPlayerId kv.2) <$> m.

(** A series of planning drops [(dragged, target, position)]. *)
Definition stageAll (drops : list (string * string * option Position.t))
    (m : list (string * PlannedSwap)) : list (string * PlannedSwap) :=
  fold_left (fun m d => planDrop d.1.1 d.1.2 d.2 m) drops m.

(** The timer discipline of an entry in its game: a running clock has a
    start time, and the entry's timer is set only while the entry is on the
    field and the clock of the game runs. *)
Definition timerOk (g : Game) (e : PlayerLineupState) : Prop :=
  (timerStatus g = Some Running → truthy (timerStartTime g) ≠ None)
  ∧ ∀ t, playtimerStartTime e = Some t →
         t ≠ 0 ∧ location e = Field ∧ timerStatus g = Some Running.

(** [Date.now()] is positive at every call. *)
Definition positiveTimes (ops : list (Z * Op)) : bool :=
  forallb (fun c => bool_decide (0 < c.1)) ops.

(** ** The rest of the context provider *)

(** The per-entry function of [stopPlayerTimerInGame]: bank the timer of
    every entry with id [playerId] whose timer is set. *)
Definition stopPlayerEntry (now : Z) (playerId : string)
    (p : PlayerLineupState) : PlayerLineupState :=
  if bool_decide (id p = playerId) then
    match truthy (playtimerStartTime p) with
    | Some start => banked p (bank (playtimeSeconds p) now start)
    | None => p
    end
  else p.

(** [stopPlayerTimerInGame]. [playerUpdated] is the flag the [map] callback
    sets when it banks a timer. *)
Definition stopPlayerTimerInGame (now : Z) (gameId playerId : string)
    (prevGames : list Game) : list Game :=
  match findGame gameId prevGames with
  | None => prevGames
  | Some (gameIndex, game) =>
      match lineup game with
      | None => prevGames
      | Some l =>
          let newLineup := stopPlayerEntry now playerId <$> l in
          let playerUpdated :=
            existsb (fun p => bool_decide (id p = playerId)
                              && bool_decide (truthy (playtimerStartTime p) ≠ None)) l in
          if playerUpdated
          then <[gameIndex := withLineup game (Some newLineup)]> prevGames
          else prevGames
      end
  end.

(** [Pick<PlayerLineupState, 'id' | 'location' | 'position'>]. *)
Record LineupStructure := mkLineupStructure {
  structure_id : string;
  structure_location : Location;
  structure_position : option Position.t }.

(** [interface SavedLineup]. *)
Record SavedLineup := mkSavedLineup {
  saved_name : string;
  saved_players : list LineupStructure }.

(** The three pieces of provider state the roster functions write. *)
Record Team := mkTeam {
  roster : list Player;
  teamGames : list Game;
  savedLineups : list SavedLineup }.

(** The lineup entry [addPlayer] appends for the new player (the same
    record as an element of [createDefaultLineup]). *)
Definition newLineupEntry (i : string) : PlayerLineupState :=
  {| id := i; location := Bench; position := None;
     playtimeSeconds := 0; playtimerStartTime := None; isStarter := Some false;
     subbedOnCount := 0; subbedOffCount := 0 |}.

(** [addPlayer]. [newId] is the value of [uuidv4()], [currentPlayers] the
    roster read back from local storage. *)
Definition addPlayer (newId firstName lastName number : string)
    (currentPlayers : list Player) (s : Team) : Team :=
  let newPlayer := mkPlayer newId firstName lastName number Bench None in
  {| roster := currentPlayers ++ [newPlayer];
     teamGames :=
       (fun game =>
          withLineup game
            (match lineup game with
             | Some l => Some (l ++ [newLineupEntry newId])
             | None => Some (createDefaultLineup (currentPlayers ++ [newPlayer]))
             end)) <$> teamGames s;
     savedLineups := savedLineups s |}.

(** [Partial<Pick<Player, 'firstName' | 'lastName' | 'number'>>]. *)
Record PlayerUpdates := mkPlayerUpdates {
  update_firstName : option string;
  update_lastName : option string;
  update_number : option string }.

(** [{ ...p, ...updates }]. *)
Definition applyUpdates (p : Player) (u : PlayerUpdates) : Player :=
  {| player_id := player_id p;
     firstName := default (firstName p) (update_firstName u);
     lastName := default (lastName p) (update_lastName u);
     number := default (number p) (update_number u);
     player_location := player_location p;
     player_position := player_position p |}.

(** [updatePlayer], on the roster. *)
Definition updatePlayer (i : string) (updates : PlayerUpdates)
    (prev : list Player) : list Player :=
  (fun p => if bool_decide (player_id p = i) then applyUpdates p updates else p) <$> prev.

(** [deletePlayer]. *)
Definition deletePlayer (i : string) (s : Team) : Team :=
  {| roster := filter (fun p => player_id p ≠ i) (roster s);
     teamGames :=
       (fun game =>
          withLineup game
            (match lineup game with
             | Some l => Some (filter (fun p => id p ≠ i) l)
             | None => None
             end)) <$> teamGames s;
     savedLineups :=
       (fun sl => {| saved_name := saved_name sl;
                     saved_players :=
                       filter (fun p => structure_id p ≠ i) (saved_players sl) |})
         <$> savedLineups s |}.

(** [deleteGame]. *)
Definition deleteGame (i : string) (prev : list Game) : list Game :=
  filter (fun g => game_id g ≠ i) prev.

(** [updateGameScore]: [{ ...g, homeScore, awayScore }] for the games with
    that id. *)
Definition updateGameScore (gameId : string) (home away : Z)
    (prev : list Game) : list Game :=
  (fun g =>
     if bool_decide (game_id g = gameId) then
       {| game_id := game_id g; opponent := opponent g; date := date g; time := time g;
          game_location := game_location g;
          homeScore := Some home; awayScore := Some away;
          timerStatus := timerStatus g; timerStartTime := timerStartTime g;
          timerElapsedSeconds := timerElapsedSeconds g;
          isExplicitlyFinished := isExplicitlyFinished g; lineup := lineup g |}
     else g) <$> prev.

(** A team with the sample games and two saved lineups. *)
Definition sampleRoster : list Player :=
  [mkPlayer "x" "Xavi" "X" "6" Field (Some (at_ 20 30));
   mkPlayer "y" "Yara" "Y" "8" Field (Some (at_ 60 70));
   mkPlayer "a" "Ana" "A" "9" Bench None;
   mkPlayer "b" "Ben" "B" "4" Bench None].

Definition sampleTeam : Team :=
  mkTeam sampleRoster freshGames
    [mkSavedLineup "ab" [mkLineupStructure "a" Field (Some (at_ 20 30));
                         mkLineupStructure "b" Field (Some (at_ 60 70))]].

(** ** The global lineup (the roster's own placement) *)

(** [{ ...p, location, position }]. *)
Definition placed (p : Player) (l : Location) (pos : option Position.t) : Player :=
  {| player_id := player_id p; firstName := firstName p; lastName := lastName p;
     number := number p; player_location := l; player_position := pos |}.

(** [prev.find(p => p.id === i)]. *)
Definition findInRoster (i : string) (prev : list Player) : option Player :=
  snd <$> list_find (fun p => player_id p = i) prev.

(** [movePlayer]. *)
Definition movePlayer (playerId : string) (targetLocation : Location)
    (position : option Position.t) (prev : list Player) : list Player :=
  (fun p => if bool_decide (player_id p = playerId)
            then placed p targetLocation
                   (if bool_decide (targetLocation = Field) then position else None)
            else p) <$> prev.

(** [swapPlayers]. *)
Definition swapPlayers (player1Id player2Id : string) (prev : list Player)
    : list Player :=
  match findInRoster player1Id prev, findInRoster player2Id prev with
  | Some p1, Some p2 =>
      if bool_decide (player_location p1 = Field)
         && bool_decide (player_location p2 = Field) then
        let p1Pos := player_position p1 in
        let p2Pos := player_position p2 in
        (fun p => if bool_decide (player_id p = player1Id)
                  then placed p (player_location p) p2Pos
                  else if bool_decide (player_id p = player2Id)
                  then placed p (player_location p) p1Pos
                  else p) <$> prev
      else if bool_decide (player_location p1 ≠ player_location p2) then
        let p1NewLocation := player_location p2 in
        let p1NewPosition := player_position p2 in
        let p2NewLocation := player_location p1 in
        let p2NewPosition := player_position p1 in
        (fun p => if bool_decide (player_id p = player1Id)
                  then placed p p1NewLocation p1NewPosition
                  else if bool_decide (player_id p = player2Id)
                  then placed p p2NewLocation p2NewPosition
                  else p) <$> prev
      else prev
  | _, _ => prev
  end.

(** [resetLineup]. *)
Definition resetLineup (prev : list Player) : list Player :=
  (fun p => placed p Bench None) <$> prev.

(** [new Map(pairs)] followed by lookups: a later pair with the same key
    replaces the value of an earlier one. *)
Definition newMap {V} (pairs : list (string * V)) : list (string * V) :=
  fold_left (fun m kv => mapSet kv.1 kv.2 m) pairs [].

(** [({ id, location, position }) => ({ id, location, position })]. *)
Definition structureOf (p : Player) : LineupStructure :=
  {| structure_id := player_id p; structure_location := player_location p;
     structure_position := player_position p |}.

Section saved_lineups.
(** [String.prototype.trim]. *)
Variable trim : string → string.

(** [saveLineup]: [players] is the roster the provider rendered with. An
    empty trimmed name is refused (with an alert). *)
Definition saveLineup (name : string) (players : list Player)
    (prev : list SavedLineup) : list SavedLineup :=
  if decide (trim name = ""%string) then prev
  else
    let lineupToSave :=
      {| saved_name := trim name; saved_players := structureOf <$> players |} in
    let filtered := filter (fun l => saved_name l ≠ saved_name lineupToSave) prev in
    filtered ++ [lineupToSave].
End saved_lineups.

(** [loadLineup]: the returned boolean and the new roster. *)
Definition loadLineup (name : string) (savedLineups : list SavedLineup)
    (currentPlayers : list Player) : bool * list Player :=
  match snd <$> list_find (fun l => saved_name l = name) savedLineups with
  | None => (false, currentPlayers)
  | Some lineupToLoad =>
      let savedPlayerStates :=
        newMap ((fun p => (structure_id p, (structure_location p, structure_position p)))
                  <$> saved_players lineupToLoad) in
      (true,
       (fun player =>
          match mapGet (player_id player) savedPlayerStates with
          | Some savedState => placed player savedState.1 savedState.2
          | None => placed player Bench None
          end) <$> currentPlayers)
  end.

(** [deleteLineup]. *)
Definition deleteLineup (name : string) (prev : list SavedLineup) : list SavedLineup :=
  filter (fun l => saved_name l ≠ name) prev.

(** Two rosters of the same players, the second being the first one placed
    differently: [cur] and [ps] agree position by position on everything
    but [location] and [position]. *)
Definition samePlayers (cur ps : list Player) : Prop :=
  Forall2 (fun c p => placed c (player_location p) (player_position p) = p) cur ps.

(** The saved lineups are a store keyed by name: names are pairwise distinct
    and none is empty. *)
Definition savedOk (l : list SavedLineup) : Prop :=
  NoDup (saved_name <$> l) ∧ Forall (fun s => saved_name s ≠ ""%string) l.

(** ** The drop zones of the game page *)

(** [Math.min] and [Math.max] on two numbers. *)
Definition Math_min (a b : Q) : Q := if Qle_bool a b then a else b.
Definition Math_max (a b : Q) : Q := if Qle_bool a b then b else a.

(** [getBoundingClientRect()] of the field, as far as the drop reads it. *)
Record Rect := mkRect { rect_left : Q; rect_top : Q; rect_width : Q; rect_height : Q }.

(** [Math.max(0, Math.min((rel / size) * 100, 100))]. *)
Definition dropPercent (rel size : Q) : Q :=
  Math_max 0 (Math_min (rel / size * 100) 100)%Q.

(** The [drop] callback of a [DropZone]: the call of [onDropPlayer] it makes,
    if it makes one. [fieldRect] is [None] when the zone has no mounted
    [fieldRef]; [dropPos] is [monitor.getClientOffset()]. *)
Definition dropZoneDrop (location : Location) (fieldRect : option Rect)
    (dropPos : option Position.t) (item : DragItem)
    : option (DragItem * option Q * option Q) :=
  match location, fieldRect with
  | Field, Some fieldRect =>
      match dropPos with
      | Some dropPos =>
          if Qltb 0 (rect_width fieldRect) && Qltb 0 (rect_height fieldRect) then
            let relX := (Position.x dropPos - rect_left fieldRect)%Q in
            let relY := (Position.y dropPos - rect_top fieldRect)%Q in
            let pctX := dropPercent relX (rect_width fieldRect) in
            let pctY := dropPercent relY (rect_height fieldRect) in
            Some (item, Some pctX, Some pctY)
          else None
      | None => None
      end
  | Field, None => None
  | _, _ => Some (item, None, None)
  end.

(** A drop on one of the page's three zones: each zone passes its own
    location to [handleDropInGame] as the target. *)
Definition dropOnZone (now1 now2 : Z) (currentGameLineup : list PlayerLineupState)
    (fieldDimensions : Q * Q) (location : Location) (fieldRect : option Rect)
    (dropPos : option Position.t) (item : DragItem) (s : Page) : Page :=
  match dropZoneDrop location fieldRect dropPos item with
  | Some (item, xPct, yPct) =>
      handleDropInGame now1 now2 currentGameLineup fieldDimensions item location
        xPct yPct s
  | None => s
  end.

(** A position in percent of the field: both coordinates in [0, 100]. *)
Definition inRange (pos : option Position.t) : Prop :=
  match pos with
  | Some p => (0 <= Position.x p <= 100)%Q ∧ (0 <= Position.y p <= 100)%Q
  | None => True
  end.

Definition RangeOk (gs : list Game) : Prop :=
  Forall (fun g => ∀ l, lineup g = Some l → Forall (fun e => inRange (position e)) l) gs.

(** The page showing the sample game outside planning mode, and its copy of
    the lineup. *)
Definition samplePage : Page := mkPage freshGames (Some "g1"%string) false [].

Definition sampleCopy : list PlayerLineupState := default [] (lineup freshGame).

(** ** The provider as a whole *)

(** The calls of the provider that write the roster or the games. The
    roster that [addPlayer] and [resetGameLineup] read back from storage is
    an argument of the call. *)
Inductive TeamAction :=
| AddPlayer (newId firstName lastName number : string) (currentPlayers : list Player)
| DeletePlayer (i : string)
| UpdatePlayer (i : string) (updates : PlayerUpdates)
| MovePlayer (playerId : string) (targetLocation : Location)
             (position : option Position.t)
| SwapPlayers (player1Id player2Id : string)
| ResetLineup
| LoadLineup (name : string)
| StopPlayer (now : Z) (gameId playerId : string)
| DeleteGame (gameId : string)
| UpdateScore (gameId : string) (home away : Z)
| OnGames (a : Action).

Definition onRoster (f : list Player → list Player) (s : Team) : Team :=
  {| roster := f (roster s); teamGames := teamGames s; savedLineups := savedLineups s |}.

Definition onGames (f : list Game → list Game) (s : Team) : Team :=
  {| roster := roster s; teamGames := f (teamGames s); savedLineups := savedLineups s |}.

Definition act (a : TeamAction) (s : Team) : Team :=
  match a with
  | AddPlayer newId firstName lastName number currentPlayers =>
      addPlayer newId firstName lastName number currentPlayers s
  | DeletePlayer i => deletePlayer i s
  | UpdatePlayer i updates => onRoster (updatePlayer i updates) s
  | MovePlayer p t pos => onRoster (movePlayer p t pos) s
  | SwapPlayers a b => onRoster (swapPlayers a b) s
  | ResetLineup => onRoster resetLineup s
  | LoadLineup name => onRoster (fun ps => (loadLineup name (savedLineups s) ps).2) s
  | StopPlayer now g p => onGames (stopPlayerTimerInGame now g p) s
  | DeleteGame g => onGames (deleteGame g) s
  | UpdateScore g home away => onGames (updateGameScore g home away) s
  | OnGames a => onGames (perform a) s
  end.

Fixpoint actAll (acts : list TeamAction) (s : Team) : Team :=
  match acts with
  | [] => s
  | a :: rest => actAll rest (act a s)
  end.

(** The roster a call reads back from storage has the ids of the roster in
    the provider's state (the save effect has run). *)
Definition readsRoster (a : TeamAction) (s : Team) : Prop :=
  match a with
  | AddPlayer _ _ _ _ currentPlayers
  | OnGames (Reset currentPlayers _) =>
      player_id <$> currentPlayers = player_id <$> roster s
  | _ => True
  end.

Fixpoint readAll (acts : list TeamAction) (s : Team) : Prop :=
  match acts with
  | [] => True
  | a :: rest => readsRoster a s ∧ readAll rest (act a s)
  end.

(** The ids of a game's lineup, in order. *)
Definition lineupIds (g : Game) : option (list string) :=
  match lineup g with
  | Some l => Some (id <$> l)
  | None => None
  end.

(** Every lineup lists the players of the roster, in the roster's order. *)
Definition FollowsRoster (s : Team) : Prop :=
  Forall (fun g => ∀ ids, lineupIds g = Some ids → ids = player_id <$> roster s)
         (teamGames s).

(** ** The page's local copy of the lineup *)

(** The validation pass of the init/sync effect. The location test is the
    identity on a typed location, and the counters are numbers already. *)
Definition validated (p : PlayerLineupState) : PlayerLineupState :=
  {| id := id p; location := location p; position := position p;
     playtimeSeconds := playtimeSeconds p;
     playtimerStartTime := playtimerStartTime p;
     isStarter := Some (flag (isStarter p));
     subbedOnCount := subbedOnCount p; subbedOffCount := subbedOffCount p |}.

(** [validatedLineup] of the init/sync effect, from the roster and the
    lineup of the page's game. *)
Definition syncLineup (players : list Player)
    (gameLineup : option (list PlayerLineupState)) : list PlayerLineupState :=
  let initialLineup :=
    match gameLineup with
    | Some l => l
    | None => createDefaultLineup players
    end in
  let playerIdsInRoster := player_id <$> players in
  let lineupPlayerIds := id <$> initialLineup in
  let fullLineup :=
    filter (fun p => id p ∈ playerIdsInRoster) initialLineup
    ++ ((fun p => newLineupEntry (player_id p))
          <$> filter (fun p => player_id p ∉ lineupPlayerIds) players) in
  validated <$> fullLineup.

(** The init/sync effect: the new value of [currentGameLineup]. *)
Definition initSyncEffect (game : option Game) (players : list Player)
    (currentGameLineup : list PlayerLineupState) : list PlayerLineupState :=
  match game with
  | Some g =>
      if bool_decide (length currentGameLineup = 0%nat)
         || bool_decide (length currentGameLineup ≠ length players)
      then syncLineup players (lineup g)
      else currentGameLineup
  | None => []
  end.

(** A season in short: a player joins, the clock starts, a player is moved
    and another deleted, the lineup is reset from the stored roster. *)
Definition sampleTeamActions : list TeamAction :=
  [AddPlayer "c" "Cy" "C" "3" sampleRoster;
   OnGames (Call 1000 (StartClock "2025-03-01" "10:00" "g1"));
   OnGames (Call 61000 (Move "g1" "a" Bench Field (Some (at_ 40 50))));
   SwapPlayers "x" "a";
   DeletePlayer "y";
   StopPlayer 90000 "g1" "x";
   OnGames (Reset [mkPlayer "x" "Xavi" "X" "6" Bench None;
                   mkPlayer "a" "Ana" "A" "9" Bench None;
                   mkPlayer "b" "Ben" "B" "4" Bench None;
                   mkPlayer "c" "Cy" "C" "3" Bench None] "g1")]%string.

(** ** The markers of planning mode *)

(** [fieldPlayerIdToIncomingBenchPlayerId]: for each field player, the bench
    player planned to come on in that spot. *)
Definition fieldPlayerIdToIncomingBenchPlayerId
    (plannedSwaps : list (string * PlannedSwap)) : list (string * string) :=
  fold_left (fun map kv => mapSet (targetFieldPlayerId kv.2) kv.1 map) plannedSwaps [].

(** ** The clock button of the game page *)

Definition pageWithGames (s : Page) (gs : list Game) : Page :=
  {| games := gs; gameId := gameId s; isPlanningSubs := isPlanningSubs s;
     plannedSwaps := plannedSwaps s |}.

(** [isRunning]. *)
Definition isRunning (s : Page) : bool :=
  match pageGame s with
  | Some g => bool_decide (timerStatus g = Some Running)
  | None => false
  end.

(** [handleTimerClick]. [isFut] is the comparison of the game's date and
    time with the current date; [confirmed] is the answer to the prompt
    that asks whether to start a future game now. *)
Definition handleTimerClick (now : Z) (currentDate currentTime : string)
    (isFut confirmed : bool) (s : Page) : Page :=
  match pageGame s with
  | None => s
  | Some game =>
      if isFinished s then s
      else if isRunning s then
        pageWithGames s (stopGameTimer now (game_id game) (games s))
      else
        let hasNR :=
          bool_decide (default 0 (timerElapsedSeconds game) = 0)
          && bool_decide (truthy (timerStartTime game) = None) in
        let shouldStart := negb isFut || negb hasNR || confirmed in
        if shouldStart
        then pageWithGames s
               (startGameTimer now currentDate currentTime (game_id game) (games s))
        else s
  end.

(** [handleEndGame]. *)
Definition handleEndGame (now : Z) (s : Page) : Page :=
  match pageGame s with
  | Some game => pageWithGames s (markGameAsFinished now (game_id game) (games s))
  | None => s
  end.

(** ** Display helpers *)

(** [Math.trunc], and [a % b] on numbers: the remainder has the sign of the
    dividend. *)
Definition Math_trunc (q : Q) : Z := if Qle_bool 0 q then Qfloor q else Qceiling q.

Definition JS_rem (a b : Q) : Q := (a - b * inject_Z (Math_trunc (a / b)))%Q.

(** [String(n)] for an integer. *)
Definition String_of (n : Z) : string := NilZero.string_of_int (Z.to_int n).

(** [s.padStart(2, '0')]. *)
Definition padStart2 (s : string) : string :=
  match String.length s with
  | 0%nat => "00" +:+ s
  | 1%nat => "0" +:+ s
  | _ => s
  end.

(** The two numbers [formatTimer] prints. *)
Definition timerMinutes (totalSeconds : Q) : Z := Qfloor (totalSeconds / 60).

Definition timerSeconds (totalSeconds : Q) : Z := Math_round (JS_rem totalSeconds 60).

(** [formatTimer] (the page and the player icon each have a copy). *)
Definition formatTimer (totalSeconds : Q) : string :=
  let minutes := timerMinutes totalSeconds in
  let seconds := timerSeconds totalSeconds in
  padStart2 (String_of minutes) +:+ ":" +:+ padStart2 (String_of seconds).

(** ** Editing the score of a game *)

Inductive Side := HomeSide | AwaySide.

(** The page with the state of the dialog that guards edits of a finished
    game. A pending action is the closure the page stored: here, the update
    of the games it will make. *)
Record GuardedPage := mkGuardedPage {
  guarded_page : Page;
  pendingAction : option (list Game → list Game);
  isConfirmEditFinishedOpen : bool }.

(** [confirmAction]. *)
Definition confirmAction (action : list Game → list Game) (s : GuardedPage)
    : GuardedPage :=
  if isFinished (guarded_page s) then
    {| guarded_page := guarded_page s; pendingAction := Some action;
       isConfirmEditFinishedOpen := true |}
  else
    {| guarded_page := pageWithGames (guarded_page s) (action (games (guarded_page s)));
       pendingAction := pendingAction s;
       isConfirmEditFinishedOpen := isConfirmEditFinishedOpen s |}.

(** [handleConfirmEditFinished]. *)
Definition handleConfirmEditFinished (s : GuardedPage) : GuardedPage :=
  {| guarded_page :=
       match pendingAction s with
       | Some action => pageWithGames (guarded_page s) (action (games (guarded_page s)))
       | None => guarded_page s
       end;
     pendingAction := None; isConfirmEditFinishedOpen := false |}.

(** [handleCancelEditFinished]. *)
Definition handleCancelEditFinished (s : GuardedPage) : GuardedPage :=
  {| guarded_page := guarded_page s; pendingAction := None;
     isConfirmEditFinishedOpen := false |}.

(** [handleIncrementScore]: the action captures the scores of the game as
    the page rendered it. *)
Definition handleIncrementScore (team : Side) (s : GuardedPage) : GuardedPage :=
  match pageGame (guarded_page s) with
  | None => s
  | Some game =>
      let action := fun gs =>
        let cH := default 0 (homeScore game) in
        let cA := default 0 (awayScore game) in
        match team with
        | HomeSide => updateGameScore (game_id game) (cH + 1) cA gs
        | AwaySide => updateGameScore (game_id game) cH (cA + 1) gs
        end in
      confirmAction action s
  end.

(** The score of the page's game, absent scores read as 0. *)
Definition pageScore (s : Page) : option (Z * Z) :=
  (fun g => (default 0 (homeScore g), default 0 (awayScore g))) <$> pageGame s.

Definition bump (team : Side) (score : Z * Z) : Z * Z :=
  match team with
  | HomeSide => (score.1 + 1, score.2)
  | AwaySide => (score.1, score.2 + 1)
  end.

(** The sample game after the final whistle, on the page with no dialog
    open. *)
Definition finishedPage : GuardedPage :=
  mkGuardedPage
    (mkPage (markGameAsFinished 5400000 "g1" runningGames) (Some "g1"%string) false [])
    None false.

(** ** Editing a player *)

Module EditPlayerModal.
Section handleSubmit.
Variable trim : string → string.

(** [handleSubmit] of the edit dialog, with [onUpdatePlayer] bound to the
    provider's [updatePlayer] as the team page does: the new roster, and
    whether the dialog closes. *)
Definition handleSubmit (player : option Player) (firstName lastName number : string)
    (prev : list Player) : list Player * bool :=
  match player with
  | Some player =>
      if bool_decide (trim firstName ≠ ""%string)
         || bool_decide (trim lastName ≠ ""%string)
      then (updatePlayer (player_id player)
              {| update_firstName := Some (trim firstName);
                 update_lastName := Some (trim lastName);
                 update_number := Some (trim number) |} prev,
            true)
      else (prev, false)
  | None => (prev, false)
  end.
End handleSubmit.
End EditPlayerModal.

(** ** The times the page shows *)

(** The display time the player-timer effect computes for one entry. *)
Definition playerDisplayTime (now : Z) (isRunning : bool)
    (playerState : PlayerLineupState) : Q :=
  let storedPlaytime := inject_Z (playtimeSeconds playerState) in
  match (if bool_decide (location playerState = Field) && isRunning
         then truthy (playtimerStartTime playerState) else None) with
  | Some start =>
      let elapsedSinceStart := (inject_Z (now - start) / 1000)%Q in
      (storedPlaytime + elapsedSinceStart)%Q
  | None => storedPlaytime
  end.

(** [updateDisplay] of the main clock effect: the value of
    [gameDisplaySeconds]. *)
Definition gameDisplaySeconds (now : Z) (game : Game) : Q :=
  let elapsed := inject_Z (default 0 (timerElapsedSeconds game)) in
  match (if bool_decide (timerStatus game = Some Running)
         then truthy (timerStartTime game) else None) with
  | Some start => (elapsed + inject_Z (now - start) / 1000)%Q
  | None => elapsed
  end.


(** ** Notions used to state what a call credits *)

(** The calls that bank a set timer of the entry [(gid, pid)]: a move of
    that entry declared to come from the field or from inactive, a stop of
    the clock of its game, and the end of its game. *)
Definition banksTimer (gid pid : string) (op : Op) : bool :=
  match op with
  | Move g p s _ _ => bool_decide (g = gid ∧ p = pid ∧ s ≠ Bench)
  | StopClock g => bool_decide (g = gid)
  | Finish g => bool_decide (g = gid)
  | _ => false
  end.

(** The seconds such a call credits to an entry: the rounded interval since
    the entry's timer was set, and nothing when no timer is set. *)
Definition credited (now : Z) (gid pid : string) (op : Op)
    (e : PlayerLineupState) : Z :=
  match playtimerStartTime e with
  | Some start => if banksTimer gid pid op then roundedInterval now start else 0
  | None => 0
  end.


(** * Lemmas *)

(** ** List lemmas *)

Section list_find_update.
Context {A : Type} (P : A → Prop) `{!∀ x, Decision (P x)}.

Lemma list_find_insert_equiv (l : list A) (i : nat) (x y : A) :
  l !! i = Some x → (P x ↔ P y) →
  list_find P (<[i:=y]> l)
  = (fun jz => (jz.1, if decide (jz.1 = i) then y else jz.2)) <$> list_find P l.
Proof.
  revert i. induction l as [|z l IH]; intros i Hi Hxy; [done|].
  destruct i as [|i]; simpl in *.
  - simplify_eq. destruct (decide (P y)), (decide (P x)); try tauto.
    by destruct (list_find P l) as [[j w]|].
  - destruct (decide (P z)); [done|].
    rewrite (IH i Hi Hxy).
    destruct (list_find P l) as [[j w]|]; simpl; [|done].
    destruct (decide (j = i)), (decide (S j = S i)); (done || lia).
Qed.

Lemma list_find_fmap_equiv (f : A → A) (l : list A) :
  (∀ x, P (f x) ↔ P x) →
  list_find P (f <$> l) = prod_map (fun j => j) f <$> list_find P l.
Proof.
  intros Hf. rewrite list_find_fmap.
  by rewrite (list_find_ext (P ∘ f) P) by (intros x; apply Hf).
Qed.
End list_find_update.

(** ** How each call acts on one observed entry *)

Lemma findGame_lookup gid gs i g :
  findGame gid gs = Some (i, g) → gs !! i = Some g ∧ game_id g = gid.
Proof. intros H. apply list_find_Some in H. tauto. Qed.

Lemma findPlayer_lookup pid l i p :
  findPlayer pid l = Some (i, p) → l !! i = Some p ∧ id p = pid.
Proof. intros H. apply list_find_Some in H. tauto. Qed.

Lemma movePlayerState_id now r s t pos p :
  id (movePlayerState now r s t pos p) = id p.
Proof.
  reflexivity.
Qed.

Lemma findPlayer_insert pid l i p p' q :
  findPlayer pid l = Some (i, p) → id p' = id p →
  snd <$> findPlayer q (<[i:=p']> l)
  = if decide (pid = q) then Some p' else snd <$> findPlayer q l.
Proof.
  intros Hf Hid. destruct (findPlayer_lookup _ _ _ _ Hf) as [Hl Hp].
  unfold findPlayer in *.
  rewrite (list_find_insert_equiv _ l i p p') by (done || by rewrite Hid).
  destruct (decide (pid = q)) as [<-|Hq].
  - rewrite Hf; simpl. by rewrite decide_True.
  - destruct (list_find (fun p0 => id p0 = q) l) as [[j w]|] eqn:Hj; [simpl|done].
    apply list_find_Some in Hj as (Hlj & Hw & _).
    destruct (decide (j = i)); [|done]. simplify_eq; congruence.
Qed.

Lemma entryAt_move now gid' pid s t pos gid q gs :
  entryAt gid q (movePlayerInGame now gid' pid s t pos gs)
  = if decide (gid' = gid ∧ pid = q)
    then movePlayerState now (gameRunning gid gs) s t pos <$> entryAt gid q gs
    else entryAt gid q gs.
Proof.
  unfold movePlayerInGame, entryAt, entryIn, gameRunning.
  destruct (findGame gid' gs) as [[gi g]|] eqn:Hg.
  2:{ case_decide as Hd; [|done]. destruct Hd as [-> ->]. by rewrite Hg. }
  destruct (findGame_lookup _ _ _ _ Hg) as [Hgl Hgid].
  destruct (lineup g) as [l|] eqn:Hl.
  2:{ case_decide as Hd; [|done]. destruct Hd as [-> ->]. by rewrite Hg, Hl. }
  destruct (findPlayer pid l) as [[pi p]|] eqn:Hp.
  2:{ case_decide as Hd; [|done]. destruct Hd as [-> ->]. by rewrite Hg, Hl, Hp. }
  unfold findGame in *.
  rewrite (list_find_insert_equiv _ gs gi g) by (done || by simpl).
  destruct (list_find (fun g0 => game_id g0 = gid) gs) as [[j h]|] eqn:Hj; simpl.
  2:{ case_decide as Hd; [|done]. destruct Hd as [-> ->]. congruence. }
  apply list_find_Some in Hj as Hj'. destruct Hj' as (Hjl & Hh & _).
  destruct (decide (j = gi)) as [->|Hne]; simpl.
  - assert (h = g) by congruence. subst h.
    rewrite Hl.
    rewrite (findPlayer_insert pid l pi p _ q Hp) by apply movePlayerState_id.
    destruct (decide (pid = q)) as [->|Hq].
    + rewrite decide_True by (split; congruence). by rewrite Hp.
    + rewrite decide_False by tauto. done.
  - rewrite decide_False; [done|]. intros [-> _]. congruence.
Qed.

Lemma entryAt_fmap (F : Game → Game)
    (fe : Game → PlayerLineupState → PlayerLineupState) gid pid gs :
  (∀ g, game_id (F g) = game_id g) →
  (∀ g p, id (fe g p) = id p) →
  (∀ g, lineup (F g) = mapLineup (fe g) (lineup g)) →
  entryAt gid pid (F <$> gs)
  = match findGame gid gs with
    | Some (_, g) => fe g <$> entryAt gid pid gs
    | None => None
    end.
Proof.
  intros HF Hfe Hl. unfold entryAt, entryIn, findGame.
  rewrite (list_find_fmap_equiv _ F) by (intros g; by rewrite HF).
  destruct (list_find _ gs) as [[i g]|]; simpl; [|done].
  rewrite Hl. destruct (lineup g) as [l|]; simpl; [|done].
  unfold findPlayer.
  rewrite (list_find_fmap_equiv _ (fe g)) by (intros p; by rewrite Hfe).
  by destruct (list_find _ l) as [[j p]|].
Qed.

Lemma mapLineup_id l : mapLineup (fun p => p) l = l.
Proof. destruct l as [l|]; simpl; [|done]. by rewrite list_fmap_id. Qed.

Lemma stopEntry_id now p : id (stopEntry now p) = id p.
Proof. unfold stopEntry. by repeat case_match. Qed.

Lemma finishEntry_id now p : id (finishEntry now p) = id p.
Proof. unfold finishEntry. by repeat case_match. Qed.

Lemma startPlayerEntry_id now q p : id (startPlayerEntry now q p) = id p.
Proof. unfold startPlayerEntry. by case_match. Qed.

Lemma entryAt_apply now op gid pid gs e :
  entryAt gid pid gs = Some e →
  ∃ e', entryAt gid pid (apply now op gs) = Some e'
        ∧ entryStep now gid pid gs op e e'.
Proof.
  intros He. destruct op as [g p s t pos|d t g|g|g|g p]; simpl.
  - rewrite entryAt_move, He. case_decide as Hd; simpl.
    + destruct Hd as [-> ->]. eauto with lineup.
    + eauto with lineup.
  - unfold startGameTimer.
    rewrite (entryAt_fmap _
      (fun g0 => if bool_decide (game_id g0 = g) && negb (flag (isExplicitlyFinished g0))
                 then startEntry now (bool_decide (default 0 (timerElapsedSeconds g0) = 0))
                 else fun p => p)).
    + rewrite He. destruct (findGame gid gs) as [[i g0]|] eqn:Hg.
      * simpl. case_match; eauto with lineup.
      * unfold entryAt in He. by rewrite Hg in He.
    + intros g0. by case_match.
    + intros g0 p. by case_match.
    + intros g0. case_match; simpl; [done|]. by rewrite mapLineup_id.
  - unfold stopGameTimer.
    rewrite (entryAt_fmap _
      (fun g0 => if bool_decide (game_id g0 = g) && bool_decide (timerStatus g0 = Some Running)
                 then match truthy (timerStartTime g0) with
                      | Some _ => stopEntry now
                      | None => fun p => p
                      end
                 else fun p => p)).
    + rewrite He. destruct (findGame gid gs) as [[i g0]|] eqn:Hg.
      * simpl. repeat case_match; eauto with lineup.
      * unfold entryAt in He. by rewrite Hg in He.
    + intros g0. by repeat case_match.
    + intros g0 p. repeat case_match; auto using stopEntry_id.
    + intros g0. repeat case_match; simpl; by rewrite ?mapLineup_id.
  - unfold markGameAsFinished.
    rewrite (entryAt_fmap _
      (fun g0 => if bool_decide (game_id g0 = g)
                 then match (if bool_decide (timerStatus g0 = Some Running)
                             then truthy (timerStartTime g0) else None) with
                      | Some _ => finishEntry now
                      | None => fun p => p
                      end
                 else fun p => p)).
    + rewrite He. destruct (findGame gid gs) as [[i g0]|] eqn:Hg.
      * simpl. repeat case_match; eauto with lineup.
      * unfold entryAt in He. by rewrite Hg in He.
    + intros g0. by repeat case_match.
    + intros g0 p. repeat case_match; auto using finishEntry_id.
    + intros g0. repeat case_match; simpl; by rewrite ?mapLineup_id.
  - unfold startPlayerTimerInGame.
    rewrite (entryAt_fmap _
      (fun g0 => if bool_decide (game_id g0 = g)
                 then if bool_decide (timerStatus g0 ≠ Some Running)
                      then fun p => p else startPlayerEntry now p
                 else fun p => p)).
    + rewrite He. destruct (findGame gid gs) as [[i g0]|] eqn:Hg.
      * simpl. repeat case_match; eauto with lineup.
      * unfold entryAt in He. by rewrite Hg in He.
    + intros g0. by repeat case_match.
    + intros g0 p0. repeat case_match; auto using startPlayerEntry_id.
    + intros g0. destruct (lineup g0) eqn:Hl; repeat case_match; simpl;
        rewrite ?Hl; simpl; by rewrite ?list_fmap_id.
Qed.

(** ** Rounding and banking *)

Lemma bank_eq playtime now start :
  bank playtime now start = playtime + (now - start + 500) / 1000.
Proof.
  unfold bank, Math_round.
  set (d := now - start).
  assert (H : (inject_Z playtime + inject_Z d / inject_Z 1000 + (1 # 2)
               == (1000 * playtime + d + 500) # 1000)%Q).
  { unfold Qeq, Qdiv, Qmult, Qplus, Qinv, inject_Z; simpl. lia. }
  rewrite (Qfloor_comp _ _ H). simpl.
  replace (1000 * playtime + d + 500) with (playtime * 1000 + (d + 500)) by lia.
  by rewrite Z.div_add_l by lia.
Qed.

Lemma bank_ge playtime now start :
  start ≤ now → playtime ≤ bank playtime now start.
Proof.
  intros H. rewrite bank_eq.
  assert (0 ≤ (now - start + 500) / 1000) by (apply Z.div_pos; lia). lia.
Qed.

(** The amount a banking step adds is the rounded elapsed interval. *)
Lemma bank_interval playtime now start :
  bank playtime now start = playtime + bank 0 now start.
Proof. rewrite !bank_eq. lia. Qed.

Example entryAt_runningGames_x :
  entryAt "g1" "x" runningGames = Some (fieldEntry "x" (at_ 20 30) (Some 1000)).
Proof. reflexivity. Qed.

Example bank_example : bank 0 31499 1000 = 30 ∧ bank 0 31500 1000 = 31.
Proof. split; reflexivity. Qed.

(** The scenario of the specification, with the clock first started at
    [t = 1000] ms: 30 seconds of play, a stop, a substitution while the clock
    is stopped, and 30 more seconds. *)
Example scenario :
  let stopped1 := run [(1000, StartClock "2025-03-01" "10:00" "g1");
                       (31000, StopClock "g1")] freshGames in
  let subbed := movePlayerInGame 32000 "g1" "a" Bench Field (Some (at_ 40 40)) stopped1 in
  let restarted := startGameTimer 32000 "2025-03-01" "10:00" "g1" subbed in
  let stopped2 := stopGameTimer 62000 "g1" restarted in
  entryAt "g1" "x" stopped1
  = Some (mkPlayerLineupState "x" Field (Some (at_ 20 30)) 30 None (Some true) 0 0)
  ∧ entryAt "g1" "a" subbed
    = Some (mkPlayerLineupState "a" Field (Some (at_ 40 40)) 0 None (Some false) 1 0)
  ∧ playtimerStartTime <$> entryAt "g1" "x" restarted = Some (Some 32000)
  ∧ playtimerStartTime <$> entryAt "g1" "a" restarted = Some (Some 32000)
  ∧ entryAt "g1" "x" stopped2
    = Some (mkPlayerLineupState "x" Field (Some (at_ 20 30)) 60 None (Some true) 0 0)
  ∧ entryAt "g1" "a" stopped2
    = Some (mkPlayerLineupState "a" Field (Some (at_ 40 40)) 30 None (Some false) 1 0).
Proof. split_and!; reflexivity. Qed.

(** ** Single moves *)

Lemma movePlayerState_bench_field now r pos e :
  subbedOnCount (movePlayerState now r Bench Field pos e) = subbedOnCount e + 1.
Proof. reflexivity. Qed.

Lemma movePlayerState_from_bench_playtime now r t pos e :
  playtimeSeconds (movePlayerState now r Bench t pos e) = playtimeSeconds e.
Proof. reflexivity. Qed.

(** ** What a call keeps *)

(** A call that is not a move of the observed entry keeps its location
    and both counters. *)
Lemma clock_entry_functions_keep now b p e :
  ∀ e', e' = startEntry now b e ∨ e' = stopEntry now e ∨ e' = finishEntry now e
        ∨ e' = startPlayerEntry now p e ∨ e' = e →
  location e' = location e ∧ position e' = position e
  ∧ subbedOnCount e' = subbedOnCount e ∧ subbedOffCount e' = subbedOffCount e.
Proof.
  intros e' [->|[->|[->|[->| ->]]]]; [done| | | |done].
  - unfold stopEntry. by repeat case_match.
  - unfold finishEntry. by repeat case_match.
  - unfold startPlayerEntry. by repeat case_match.
Qed.

Lemma entryStep_cases now gid pid gs op e e' :
  entryStep now gid pid gs op e e' →
  (∃ s t pos, op = Move gid pid s t pos
              ∧ e' = movePlayerState now (gameRunning gid gs) s t pos e)
  ∨ (∃ b p, e' = startEntry now b e ∨ e' = stopEntry now e ∨ e' = finishEntry now e
            ∨ e' = startPlayerEntry now p e ∨ e' = e).
Proof.
  destruct 1; [left; eauto|right; exists true, ""%string; tauto|
    right; eexists _, ""%string; eauto|right; exists true, ""%string; tauto..|
    right; eexists true, _; eauto 6|right; exists true, ""%string; tauto].
Qed.

Lemma entryStep_counters now gid pid gs op e e' :
  entryStep now gid pid gs op e e' →
  entryAt gid pid gs = Some e →
  truthfulOp op gs = true →
  subbedOnCount e' = subbedOnCount e
    + (if bool_decide (location e = Bench ∧ location e' = Field) then 1 else 0)
  ∧ subbedOffCount e' = subbedOffCount e
    + (if bool_decide (location e = Field ∧ location e' = Bench) then 1 else 0).
Proof.
  intros Hstep He Ht.
  destruct (entryStep_cases _ _ _ _ _ _ _ Hstep) as [(s & t & pos & -> & ->)|(b & p & H)].
  - simpl in Ht. rewrite He in Ht. apply bool_decide_eq_true in Ht. subst s.
    destruct (location e), t; simpl; split; lia.
  - destruct (clock_entry_functions_keep now b p e e' H) as (-> & _ & -> & ->).
    destruct (location e); simpl; split; lia.
Qed.

(** ** Playtime along a sequence of calls *)

Lemma roundedInterval_eq now start :
  roundedInterval now start = (now - start + 500) / 1000.
Proof.
  unfold roundedInterval, Math_round.
  set (d := now - start).
  assert (H : (inject_Z d / inject_Z 1000 + (1 # 2) == (d + 500) # 1000)%Q).
  { unfold Qeq, Qdiv, Qmult, Qplus, Qinv, inject_Z; simpl. lia. }
  by rewrite (Qfloor_comp _ _ H).
Qed.

Lemma bank_roundedInterval playtime now start :
  bank playtime now start = playtime + roundedInterval now start.
Proof. by rewrite bank_eq, roundedInterval_eq. Qed.

Lemma roundedInterval_nonneg now start : start ≤ now → 0 ≤ roundedInterval now start.
Proof. intros H. rewrite roundedInterval_eq. apply Z.div_pos; lia. Qed.

Lemma truthy_Some o t : truthy o = Some t → o = Some t.
Proof. destruct o; simpl; [|done]. by case_decide. Qed.

Lemma leavingWithTimer_Some s e t :
  leavingWithTimer s e = Some t → playtimerStartTime e = Some t.
Proof. unfold leavingWithTimer. case_match; [apply truthy_Some|done]. Qed.

(** One call: the playtime of the observed entry stays, or grows by the
    rounded interval since the timer was set; a timer left set was set at or
    before the time of the call. *)
Lemma entryStep_playtime now gid pid gs op e e' t0 :
  entryStep now gid pid gs op e e' →
  t0 ≤ now → startedBy t0 e = true →
  startedBy now e' = true
  ∧ (playtimeSeconds e' = playtimeSeconds e
     ∨ ∃ start, playtimerStartTime e = Some start ∧ start ≤ now
                ∧ playtimeSeconds e' = playtimeSeconds e + roundedInterval now start).
Proof.
  intros Hstep Hnow Hs.
  assert (Hle : ∀ start, playtimerStartTime e = Some start → start ≤ now).
  { intros start H. unfold startedBy in Hs. rewrite H in Hs.
    apply bool_decide_eq_true in Hs. lia. }
  assert (Hkeep : startedBy now e = true).
  { unfold startedBy. destruct (playtimerStartTime e) as [start|] eqn:H; [|done].
    apply bool_decide_eq_true. auto. }
  assert (Hnow' : bool_decide (now ≤ now) = true) by (apply bool_decide_eq_true; lia).
  destruct Hstep; auto.
  - unfold movePlayerState, startedBy. simpl.
    destruct (leavingWithTimer s e) as [start|] eqn:Hl; split.
    + repeat case_match; simplify_eq; done.
    + right. exists start. apply leavingWithTimer_Some in Hl.
      rewrite bank_roundedInterval. auto.
    + unfold startedBy in Hkeep. repeat case_match; simplify_eq; done.
    + by left.
  - unfold startEntry, startedBy. simpl. split; [|by left].
    unfold startedBy in Hkeep. by destruct (bool_decide (location e = Field)).
  - unfold stopEntry.
    destruct (truthy (playtimerStartTime e)) as [start|] eqn:Ht;
      [apply truthy_Some in Ht|by destruct (location e); auto].
    destruct (location e); auto; (split; [done|]); right; exists start;
      simpl; rewrite bank_roundedInterval; auto.
  - unfold finishEntry.
    destruct (truthy (playtimerStartTime e)) as [start|] eqn:Ht;
      [apply truthy_Some in Ht|by auto].
    case_match; auto. split; [done|]. right. exists start.
    simpl. rewrite bank_roundedInterval. auto.
  - unfold startPlayerEntry. case_match; auto.
Qed.

Lemma run_app before after gs : run (before ++ after) gs = run after (run before gs).
Proof.
  revert gs. induction before as [|[now op] before IH]; intros gs; [done|].
  simpl. apply IH.
Qed.

Lemma timesFrom_app t0 before after :
  timesFrom t0 (before ++ after)
  = timesFrom t0 before && timesFrom (lastTime t0 before) after.
Proof.
  revert t0. induction before as [|[now op] before IH]; intros t0; [done|].
  simpl. by rewrite IH, andb_assoc.
Qed.

Lemma run_playtime gid pid ops :
  ∀ gs e t0,
    entryAt gid pid gs = Some e → startedBy t0 e = true → timesFrom t0 ops = true →
    ∃ e', entryAt gid pid (run ops gs) = Some e'
          ∧ playtimeSeconds e ≤ playtimeSeconds e'
          ∧ startedBy (lastTime t0 ops) e' = true.
Proof.
  induction ops as [|[now op] ops IH]; intros gs e t0 He Hs Ht; simpl in *.
  - exists e. split_and!; [done|lia|done].
  - apply andb_prop in Ht as [Hnow Hrest]. apply bool_decide_eq_true in Hnow.
    destruct (entryAt_apply now op gid pid gs e He) as (e1 & He1 & Hstep).
    destruct (entryStep_playtime _ _ _ _ _ _ _ _ Hstep Hnow Hs) as [Hs1 Hp].
    destruct (IH _ _ _ He1 Hs1 Hrest) as (e' & He' & Hle & Hs').
    exists e'. split_and!; [done| |done].
    destruct Hp as [Heq|(start & _ & Hstart & Heq)]; [lia|].
    pose proof (roundedInterval_nonneg _ _ Hstart). lia.
Qed.

(** ** The position invariant *)

Lemma gamesOk_Forall gs : gamesOk gs = true ↔ Forall LineupOk gs.
Proof.
  unfold gamesOk, LineupOk. induction gs as [|g gs IH]; simpl.
  - split; [constructor|done].
  - rewrite andb_true_iff, Forall_cons, IH. apply and_iff_compat_r.
    destruct (lineup g) as [l|]; [|by split; [intros _ ? [=]|]].
    rewrite <-Is_true_true, forallb_True. split.
    + intros H ? [= <-]. eapply Forall_impl; [exact H|]. intros e. apply Is_true_true.
    + intros H. eapply Forall_impl; [exact (H _ eq_refl)|]. intros e. apply Is_true_true.
Qed.

Lemma positionOk_eq e e' :
  location e' = location e → position e' = position e → positionOk e' = positionOk e.
Proof. unfold positionOk. by intros -> ->. Qed.

Lemma LineupOk_mapLineup (F : Game → Game) f g :
  lineup (F g) = mapLineup f (lineup g) →
  (∀ e, location (f e) = location e ∧ position (f e) = position e) →
  LineupOk g → LineupOk (F g).
Proof.
  intros HF Hf Hg l Hl. rewrite HF in Hl.
  destruct (lineup g) as [l0|] eqn:Hl0; [|done]. injection Hl as <-.
  apply Forall_fmap. eapply Forall_impl; [exact (Hg _ Hl0)|].
  intros e He. simpl. destruct (Hf e). by rewrite (positionOk_eq e (f e)).
Qed.

Lemma createDefaultLineup_ok players :
  Forall (fun e => positionOk e = true) (createDefaultLineup players).
Proof. unfold createDefaultLineup. apply Forall_fmap, Forall_true. done. Qed.

Lemma movePlayerState_ok now r s t pos e :
  suppliesPosition (Call now (Move "" "" s t pos)) = true →
  positionOk (movePlayerState now r s t pos e) = true.
Proof. destruct t, pos; done. Qed.

Lemma perform_ok a gs :
  suppliesPosition a = true → Forall LineupOk gs → Forall LineupOk (perform a gs).
Proof.
  intros Ha Hgs. destruct a as [now [g p s t pos|d t g|g|g|g p]|players g]; simpl.
  - unfold movePlayerInGame.
    destruct (findGame g gs) as [[gi game]|] eqn:Hg; [|done].
    destruct (lineup game) as [l|] eqn:Hl; [|done].
    destruct (findPlayer p l) as [[pi e]|]; [|done].
    apply Forall_insert; [done|]. intros l' [= <-].
    apply findGame_lookup in Hg as [Hg _].
    apply Forall_insert; [exact (Forall_lookup_1 _ _ _ _ Hgs Hg l Hl)|].
    apply movePlayerState_ok. by destruct t, pos.
  - apply Forall_fmap. eapply Forall_impl; [exact Hgs|]. intros g0 H0. simpl.
    case_match; [|done].
    eapply (LineupOk_mapLineup (startGame now d t)); [reflexivity| |done]. done.
  - apply Forall_fmap. eapply Forall_impl; [exact Hgs|]. intros g0 H0. simpl.
    repeat case_match; try done.
    eapply (LineupOk_mapLineup (fun g1 => withTimer g1 _ _ _ _)); [reflexivity| |done].
    intros e.
    destruct (clock_entry_functions_keep now true "" e (stopEntry now e)) as (?&?&_);
      auto.
  - apply Forall_fmap. eapply Forall_impl; [exact Hgs|]. intros g0 H0. simpl.
    repeat case_match; try done.
    eapply (LineupOk_mapLineup (fun g1 => withTimer g1 _ _ _ _)); [reflexivity| |done].
    intros e.
    destruct (clock_entry_functions_keep now true "" e (finishEntry now e)) as (?&?&_);
      auto.
  - apply Forall_fmap. eapply Forall_impl; [exact Hgs|]. intros g0 H0. simpl.
    destruct (lineup g0) as [l|] eqn:Hl; [|done]. repeat case_match; try done.
    eapply (LineupOk_mapLineup (fun g1 => withLineup g1 _) (startPlayerEntry now p));
      [by simpl; rewrite Hl| |done].
    intros e.
    destruct (clock_entry_functions_keep now true p e (startPlayerEntry now p e))
      as (?&?&_); auto 6.
  - apply Forall_fmap. eapply Forall_impl; [exact Hgs|]. intros g0 H0. simpl.
    case_match; [|done]. intros l [= <-]. apply createDefaultLineup_ok.
Qed.

Lemma performAll_ok acts :
  ∀ gs, forallb suppliesPosition acts = true → Forall LineupOk gs →
        Forall LineupOk (performAll acts gs).
Proof.
  induction acts as [|a acts IH]; intros gs Ha Hgs; simpl in *; [done|].
  apply andb_prop in Ha as [Ha Hacts]. apply IH; [done|]. by apply perform_ok.
Qed.

Lemma loadEntry_fields stored e :
  loadEntry (Some stored) = Some e →
  position e = stored_position stored
  ∧ location e = loadLocation (stored_location stored).
Proof. unfold loadEntry. repeat case_match; try done. by intros [= <-]. Qed.

Example validLineup_example :
  validLineup (Some [Some storedOnField; None; Some storedBenchWithPosition])
  = Some [fieldEntry "x" (at_ 20 30) None;
          mkPlayerLineupState "a" Bench (Some (at_ 20 30)) 0 None (Some false) 0 0]
  ∧ positionOk (fieldEntry "x" (at_ 20 30) None) = true
  ∧ positionOk (mkPlayerLineupState "a" Bench (Some (at_ 20 30)) 0 None (Some false) 0 0)
    = false.
Proof. split_and!; reflexivity. Qed.

Lemma entryAt_elem gid pid gs e :
  entryAt gid pid gs = Some e →
  ∃ i g l j, gs !! i = Some g ∧ lineup g = Some l ∧ l !! j = Some e.
Proof.
  unfold entryAt, entryIn. intros H.
  destruct (findGame gid gs) as [[i g]|] eqn:Hg; [|done].
  destruct (lineup g) as [l|] eqn:Hl; [|done].
  destruct (findPlayer pid l) as [[j p]|] eqn:Hp; [|done].
  simpl in H. injection H as ->.
  apply findGame_lookup in Hg as [Hg _]. apply findPlayer_lookup in Hp as [Hp _].
  by exists i, g, l, j.
Qed.

(** ** Starting the clock *)

(** The part of C3 that holds: a finished game is left as it is. *)
Lemma startGameTimer_finished now d t gid gs :
  (∀ g, g ∈ gs → game_id g = gid → isExplicitlyFinished g = Some true) →
  startGameTimer now d t gid gs = gs.
Proof.
  intros H. unfold startGameTimer.
  rewrite <-(list_fmap_id gs) at 2. apply list_fmap_ext.
  intros i g Hg. simpl. case_bool_decide as Hid; simpl; [|done].
  by rewrite (H g (list_elem_of_lookup_2 _ _ _ Hg) Hid).
Qed.

(** The part of C4 that holds: a clock start gives no timer to an entry
    that is not on the field. *)
Lemma startEntry_off_field now fresh e :
  location e ≠ Field →
  playtimerStartTime (startEntry now fresh e) = playtimerStartTime e.
Proof. intros H. unfold startEntry. simpl. by rewrite bool_decide_eq_false_2. Qed.

(** The sibling [startPlayerTimerInGame] does keep a timer that is set. *)
Lemma startPlayerEntry_keeps_timer now p e t :
  truthy (playtimerStartTime e) = Some t → startPlayerEntry now p e = e.
Proof.
  intros H. unfold startPlayerEntry. rewrite H.
  by rewrite andb_false_r.
Qed.

(** ** The staged plan as a map *)

Section plan_map.

Implicit Types m : list (string * PlannedSwap).

Lemma mapDelete_sublist k m : mapDelete k m `sublist_of` m.
Proof. apply sublist_filter. Qed.

Lemma mapDelete_key k m : k ∉ planKeys (mapDelete k m).
Proof.
  unfold planKeys, mapDelete. intros ([k' v] & -> & Hin)%list_elem_of_fmap.
  apply list_elem_of_filter in Hin as [Hne _]. done.
Qed.

Lemma mapDelete_other k k' m v : k' ≠ k → (k', v) ∈ m → (k', v) ∈ mapDelete k m.
Proof. intros Hne Hin. apply list_elem_of_filter. done. Qed.

Lemma mapSet_fresh k (v : PlannedSwap) m :
  k ∉ planKeys m → mapSet k v m = m ++ [(k, v)].
Proof.
  unfold planKeys. induction m as [|[k' v'] m IH]; simpl; [done|].
  intros Hk. apply not_elem_of_cons in Hk as [Hne Hk].
  rewrite decide_False by done. by rewrite IH.
Qed.

Lemma mapGet_None k m : k ∉ planKeys m → mapGet k m = None.
Proof.
  unfold planKeys. induction m as [|[k' v'] m IH]; simpl; [done|].
  intros Hk. apply not_elem_of_cons in Hk as [Hne Hk].
  rewrite decide_False by done. auto.
Qed.

Lemma mapGet_last k v m : k ∉ planKeys m → mapGet k (m ++ [(k, v)]) = Some v.
Proof.
  unfold planKeys. induction m as [|[k' v'] m IH]; simpl.
  - intros _. by rewrite decide_True.
  - intros Hk. apply not_elem_of_cons in Hk as [Hne Hk].
    rewrite decide_False by done. auto.
Qed.

Lemma planDrop_eq d t p m :
  planDrop d t p m
  = mapDelete d (withoutTarget t m) ++ [(d, mkPlannedSwap t p)].
Proof. unfold planDrop. apply mapSet_fresh, mapDelete_key. Qed.

Lemma withoutTarget_sublist t m : withoutTarget t m `sublist_of` m.
Proof.
  unfold withoutTarget. destruct (list_find _ m) as [[i [k v]]|]; [|done].
  apply mapDelete_sublist.
Qed.

Lemma NoDup_fmap_eq {B} (f : string * PlannedSwap → B) m kv kv' :
  NoDup (f <$> m) → kv ∈ m → kv' ∈ m → f kv = f kv' → kv = kv'.
Proof.
  intros Hnd (i & Hi)%list_elem_of_lookup (j & Hj)%list_elem_of_lookup Heq.
  assert ((f <$> m) !! i = Some (f kv)) as Hi' by (by rewrite list_lookup_fmap, Hi).
  assert ((f <$> m) !! j = Some (f kv)) as Hj'
    by (by rewrite list_lookup_fmap, Hj, Heq).
  pose proof (NoDup_lookup _ _ _ _ Hnd Hi' Hj') as ->. congruence.
Qed.

Lemma planTargets_inj m kv kv' :
  NoDup (planTargets m) → kv ∈ m → kv' ∈ m →
  targetFieldPlayerId kv.2 = targetFieldPlayerId kv'.2 → kv = kv'.
Proof. apply (NoDup_fmap_eq (fun kv => targetFieldPlayerId kv.2)). Qed.

Lemma withoutTarget_target t m :
  NoDup (planTargets m) → t ∉ planTargets (withoutTarget t m).
Proof.
  intros Hnd. unfold withoutTarget.
  destruct (list_find _ m) as [[i [k v]]|] eqn:Hf.
  - apply list_find_Some in Hf as (Hi & Ht & _). simpl in Ht.
    intros ([k' v'] & Heq & Hin)%list_elem_of_fmap. simpl in Heq.
    apply list_elem_of_filter in Hin as [Hne Hin]. simpl in Hne.
    assert ((k, v) = (k', v')) as [= -> ->]; [|done].
    apply (planTargets_inj m); [done|by eapply list_elem_of_lookup_2|done|].
    simpl. congruence.
  - apply list_find_None in Hf.
    intros (kv & Heq & Hin)%list_elem_of_fmap.
    rewrite Forall_forall in Hf. by apply (Hf kv Hin).
Qed.

Lemma planDrop_NoDup d t p m :
  NoDup (planKeys m) ∧ NoDup (planTargets m) →
  NoDup (planKeys (planDrop d t p m)) ∧ NoDup (planTargets (planDrop d t p m)).
Proof.
  intros [Hk Ht]. rewrite planDrop_eq. unfold planKeys, planTargets in *.
  assert (Hsub : mapDelete d (withoutTarget t m) `sublist_of` m).
  { etrans; [apply mapDelete_sublist|apply withoutTarget_sublist]. }
  rewrite !fmap_app. simpl. split; apply NoDup_app.
  - split_and!; [|intros x Hx ->%list_elem_of_singleton|apply NoDup_singleton].
    + eapply sublist_NoDup; [exact Hk|]. by apply fmap_sublist.
    + by apply (mapDelete_key d (withoutTarget t m)).
  - split_and!; [|intros x Hx ->%list_elem_of_singleton|apply NoDup_singleton].
    + eapply sublist_NoDup; [exact Ht|]. by apply fmap_sublist.
    + apply (withoutTarget_target t m Ht).
      eapply elem_of_sublist; [exact Hx|].
      apply fmap_sublist, mapDelete_sublist.
Qed.

Lemma stageAll_NoDup drops :
  ∀ m, NoDup (planKeys m) ∧ NoDup (planTargets m) →
       NoDup (planKeys (stageAll drops m)) ∧ NoDup (planTargets (stageAll drops m)).
Proof.
  induction drops as [|[[d t] p] drops IH]; intros m Hm; [done|].
  simpl. apply IH. by apply planDrop_NoDup.
Qed.

Lemma planDrop_get d t p m : mapGet d (planDrop d t p m) = Some (mkPlannedSwap t p).
Proof. rewrite planDrop_eq. apply mapGet_last, mapDelete_key. Qed.

Lemma planDrop_last d t p m : (d, mkPlannedSwap t p) ∈ planDrop d t p m.
Proof. rewrite planDrop_eq. apply elem_of_app. right. by left. Qed.

Lemma withoutTarget_key k t p m :
  NoDup (planTargets m) → (k, mkPlannedSwap t p) ∈ m →
  k ∉ planKeys (withoutTarget t m).
Proof.
  intros Hnd Hin. unfold withoutTarget.
  destruct (list_find _ m) as [[i [k' v]]|] eqn:Hf.
  - apply list_find_Some in Hf as (Hi & Ht & _). simpl in Ht.
    assert ((k', v) = (k, mkPlannedSwap t p)) as [= -> ->].
    { apply (planTargets_inj m); [done|by eapply list_elem_of_lookup_2|done|done]. }
    apply mapDelete_key.
  - apply list_find_None in Hf. rewrite Forall_forall in Hf.
    by destruct (Hf _ Hin).
Qed.

End plan_map.

(** ** Planning mode *)

Lemma handleTogglePlanningMode_finished s :
  isFinished s = true → handleTogglePlanningMode s = s.
Proof. intros H. unfold handleTogglePlanningMode. by rewrite H. Qed.

Lemma handleTogglePlanningMode_clears s :
  isFinished s = false →
  plannedSwaps (handleTogglePlanningMode s) = []
  ∧ isPlanningSubs (handleTogglePlanningMode s) = negb (isPlanningSubs s)
  ∧ games (handleTogglePlanningMode s) = games s.
Proof. intros H. unfold handleTogglePlanningMode. by rewrite H. Qed.

(** ** Committing a plan *)

Lemma stage_two A B X Y pX pY :
  A ≠ B → X ≠ Y →
  planDrop B Y pY (planDrop A X pX []) = [(A, mkPlannedSwap X pX); (B, mkPlannedSwap Y pY)].
Proof.
  intros HAB HXY. unfold planDrop, withoutTarget, mapDelete. simpl.
  rewrite (decide_False (P := X = Y)) by done. simpl.
  rewrite filter_cons_True by done. simpl.
  rewrite decide_False by done. done.
Qed.

Lemma gameRunning_move now gid' pid s t pos gid gs :
  gameRunning gid (movePlayerInGame now gid' pid s t pos gs) = gameRunning gid gs.
Proof.
  unfold movePlayerInGame, gameRunning.
  destruct (findGame gid' gs) as [[gi g]|] eqn:Hg; [|done].
  destruct (lineup g) as [l|]; [|done].
  destruct (findPlayer pid l) as [[pi p]|]; [|done].
  destruct (findGame_lookup _ _ _ _ Hg) as [Hgl _].
  unfold findGame.
  rewrite (list_find_insert_equiv _ gs gi g) by (done || by simpl).
  destruct (list_find (fun g0 => game_id g0 = gid) gs) as [[j h]|] eqn:Hj; simpl; [|done].
  destruct (decide (j = gi)) as [->|]; [|done].
  apply list_find_Some in Hj as (Hjl & _).
  assert (h = g) as -> by congruence. done.
Qed.

Lemma entryAt_inj gid p q gs e e' :
  entryAt gid p gs = Some e → entryAt gid q gs = Some e' →
  location e ≠ location e' → p ≠ q.
Proof. intros Hp Hq Hne ->. congruence. Qed.

(** ** The timer is set only on the field while the clock runs

    This supports C8: the interval a call banks runs from the moment the
    entry's timer was set, and in every state in between the entry was on
    the field and the clock was running. *)

Lemma findGame_fmap (F : Game → Game) gid gs :
  (∀ g, game_id (F g) = game_id g) →
  findGame gid (F <$> gs) = prod_map (fun j => j) F <$> findGame gid gs.
Proof.
  intros HF. unfold findGame.
  by rewrite (list_find_fmap_equiv _ F) by (intros g; by rewrite HF).
Qed.

Lemma entryIn_mapLineup f pid g g' :
  lineup g' = mapLineup f (lineup g) → (∀ p, id (f p) = id p) →
  entryIn pid g' = f <$> entryIn pid g.
Proof.
  intros Hl Hf. unfold entryIn. rewrite Hl.
  destruct (lineup g) as [l|]; simpl; [|done]. unfold findPlayer.
  rewrite (list_find_fmap_equiv _ f) by (intros p; by rewrite Hf).
  by destruct (list_find _ l) as [[j p]|].
Qed.

Lemma findGame_move now gid' pid s t pos gid gs i g :
  findGame gid gs = Some (i, g) →
  ∃ g', findGame gid (movePlayerInGame now gid' pid s t pos gs) = Some (i, g')
        ∧ timerStatus g' = timerStatus g ∧ timerStartTime g' = timerStartTime g.
Proof.
  intros Hg. unfold movePlayerInGame.
  destruct (findGame gid' gs) as [[gi g0]|] eqn:Hg0; [|eauto].
  destruct (lineup g0) as [l|]; [|eauto].
  destruct (findPlayer pid l) as [[pi p]|]; [|eauto].
  destruct (findGame_lookup _ _ _ _ Hg0) as [Hgl _].
  unfold findGame in *.
  rewrite (list_find_insert_equiv _ gs gi g0) by (done || by simpl).
  rewrite Hg. simpl. destruct (decide (i = gi)) as [->|]; [|eauto].
  apply list_find_Some in Hg as (Hi & _).
  assert (g0 = g) as -> by congruence. eauto.
Qed.

Lemma movePlayerState_timerOk now r s t pos g e :
  now ≠ 0 → r = bool_decide (timerStatus g = Some Running) →
  timerOk g e → timerOk g (movePlayerState now r s t pos e).
Proof.
  intros Hnow -> [Hg He]. split; [done|]. intros t0. simpl.
  destruct (decide (t = Field)) as [->|Ht].
  - rewrite (bool_decide_eq_true_2 (Field = Field)) by done. simpl.
    destruct (decide (timerStatus g = Some Running)) as [Hr|Hr].
    + rewrite (bool_decide_eq_true_2 _ Hr).
      destruct (leavingWithTimer s e); [by intros [= <-]|].
      destruct (playtimerStartTime e) as [t1|] eqn:H1; intros [= <-]; [|done].
      by destruct (He t1 eq_refl) as (? & _).
    + rewrite (bool_decide_eq_false_2 _ Hr).
      destruct (leavingWithTimer s e); [done|].
      intros H1. by destruct (He t0 H1) as (_ & _ & ?).
  - rewrite (bool_decide_eq_false_2 _ Ht). simpl.
    by rewrite bool_decide_eq_true_2 by done.
Qed.

Lemma apply_timerOk now op gid pid gs i g e :
  0 < now →
  findGame gid gs = Some (i, g) → entryAt gid pid gs = Some e → timerOk g e →
  ∃ g' e', findGame gid (apply now op gs) = Some (i, g')
           ∧ entryAt gid pid (apply now op gs) = Some e'
           ∧ timerOk g' e'.
Proof.
  intros Hnow Hg He Hok.
  assert (Hin : entryIn pid g = Some e) by (unfold entryAt in He; by rewrite Hg in He).
  assert (Hnow0 : now ≠ 0) by lia.
  destruct op as [g0 p s t pos|d t g0|g0|g0|g0 p]; simpl.
  - destruct (findGame_move now g0 p s t pos gid gs i g Hg) as (g' & Hg' & Hs & Ht).
    exists g'. rewrite entryAt_move, He. simpl.
    assert (Hok' : timerOk g' e) by (unfold timerOk in *; by rewrite Hs, Ht).
    case_decide; eexists; split_and!; try done.
    apply movePlayerState_timerOk; [done| |done].
    unfold gameRunning. by rewrite Hg, Hs.
  - unfold startGameTimer, entryAt. rewrite findGame_fmap by (intros; by case_match).
    rewrite Hg. simpl. case_match; [|by eauto].
    eexists _, _. split; [done|].
    rewrite (entryIn_mapLineup (startEntry now _) pid g) by done.
    rewrite Hin. split; [done|]. destruct Hok as [_ He']. split.
    + intros _. simpl. by rewrite decide_False.
    + intros t0. simpl. destruct (decide (location e = Field)) as [Hl|Hl].
      * rewrite (bool_decide_eq_true_2 _ Hl). by intros [= <-].
      * rewrite (bool_decide_eq_false_2 _ Hl).
        intros Hset. by destruct (He' t0 Hset) as (_ & ? & _).
  - unfold stopGameTimer, entryAt. rewrite findGame_fmap by (intros; by repeat case_match).
    rewrite Hg. simpl. repeat case_match; try by eauto.
    eexists _, _. split; [done|].
    rewrite (entryIn_mapLineup (stopEntry now) pid g) by auto using stopEntry_id.
    rewrite Hin. split; [done|]. destruct Hok as [_ He']. split; [done|].
    intros t0 Hset. unfold stopEntry in Hset.
    destruct (playtimerStartTime e) as [t1|] eqn:Hcur.
    + destruct (He' t1 eq_refl) as (Ht1 & Hl & _). rewrite Hl in Hset. simpl in Hset.
      by rewrite decide_False in Hset.
    + simpl in Hset. destruct (location e); simpl in Hset; congruence.
  - unfold markGameAsFinished, entryAt.
    rewrite findGame_fmap by (intros; by repeat case_match).
    rewrite Hg. simpl. destruct (bool_decide (game_id g = g0)); [|by eauto].
    destruct Hok as [Hg' He'].
    destruct (bool_decide (timerStatus g = Some Running)) eqn:Hr;
      [apply bool_decide_eq_true in Hr; destruct (truthy (timerStartTime g)) eqn:Hts
      |apply bool_decide_eq_false in Hr].
    + eexists _, _. split; [done|].
      rewrite (entryIn_mapLineup (finishEntry now) pid g) by auto using finishEntry_id.
      rewrite Hin. split; [done|]. split; [done|].
      intros t0 Hset. unfold finishEntry in Hset.
      destruct (playtimerStartTime e) as [t1|] eqn:Hcur.
      * destruct (He' t1 eq_refl) as (Ht1 & Hl & _). rewrite Hl in Hset. simpl in Hset.
        by rewrite decide_False in Hset.
      * simpl in Hset. congruence.
    + by destruct (Hg' Hr).
    + eexists _, _. split; [done|]. split; [exact Hin|]. split; [done|].
      intros t0 Hset. by destruct (He' t0 Hset) as (_ & _ & ?).
  - unfold startPlayerTimerInGame, entryAt.
    rewrite findGame_fmap by (intros; by repeat case_match).
    rewrite Hg. simpl.
    destruct (lineup g) as [l|] eqn:Hl; [|by eauto].
    destruct (bool_decide (game_id g = g0)); [|by eauto].
    destruct (bool_decide (timerStatus g ≠ Some Running)) eqn:Hr; [by eauto|].
    apply bool_decide_eq_false in Hr. apply dec_stable in Hr.
    eexists _, _. split; [done|].
    rewrite (entryIn_mapLineup (startPlayerEntry now p) pid g)
      by (by simpl; rewrite ?Hl || auto using startPlayerEntry_id).
    rewrite Hin. split; [done|]. destruct Hok as [Hg' He']. split; [done|].
    intros t0. unfold startPlayerEntry.
    destruct (_ && _) eqn:Hc; [|apply He'].
    simpl. intros [= <-]. split; [done|].
    by apply andb_prop in Hc as [[_ ?%bool_decide_eq_true]%andb_prop _].
Qed.

Lemma run_timerOk gid pid ops :
  ∀ gs i g e,
    positiveTimes ops = true →
    findGame gid gs = Some (i, g) → entryAt gid pid gs = Some e → timerOk g e →
    ∃ g' e', findGame gid (run ops gs) = Some (i, g')
             ∧ entryAt gid pid (run ops gs) = Some e'
             ∧ timerOk g' e'.
Proof.
  induction ops as [|[now op] ops IH]; intros gs i g e Hpos Hg He Hok; simpl in *.
  - eauto.
  - apply andb_prop in Hpos as [Hnow Hpos]. apply bool_decide_eq_true in Hnow.
    destruct (apply_timerOk now op gid pid gs i g e Hnow Hg He Hok)
      as (g1 & e1 & Hg1 & He1 & Hok1).
    eauto.
Qed.

Lemma entryStep_banks_set_timer now gid pid gs op e e' :
  entryStep now gid pid gs op e e' →
  playtimeSeconds e' = playtimeSeconds e ∨ is_Some (playtimerStartTime e).
Proof.
  destruct 1; auto.
  - simpl. destruct (leavingWithTimer s e) as [start|] eqn:Hl; [right|by left].
    apply leavingWithTimer_Some in Hl. by eexists.
  - unfold stopEntry.
    destruct (truthy (playtimerStartTime e)) as [start|] eqn:Ht;
      [apply truthy_Some in Ht; right; by eexists|].
    left. by destruct (location e).
  - unfold finishEntry.
    destruct (truthy (playtimerStartTime e)) as [start|] eqn:Ht;
      [apply truthy_Some in Ht; right; by eexists|by left].
  - unfold startPlayerEntry. left. by case_match.
Qed.

(** From a state in which timers are set only on the field of a running
    game (a fresh game with a default lineup, say), along any sequence of
    calls at positive times, a call changes the playtime of an entry only
    if, when the call is made, that entry is on the field and the clock of
    the game runs. *)
Lemma banking_only_on_field_while_running gid pid ops gs i g e before now op after :
  positiveTimes ops = true →
  findGame gid gs = Some (i, g) → entryAt gid pid gs = Some e → timerOk g e →
  ops = before ++ (now, op) :: after →
  ∃ e1 e2,
    entryAt gid pid (run before gs) = Some e1
    ∧ entryAt gid pid (apply now op (run before gs)) = Some e2
    ∧ (playtimeSeconds e2 ≠ playtimeSeconds e1 →
       location e1 = Field ∧ gameRunning gid (run before gs) = true).
Proof.
  intros Hpos Hg He Hok ->. unfold positiveTimes in Hpos.
  rewrite forallb_app in Hpos. apply andb_prop in Hpos as [Hb _].
  destruct (run_timerOk gid pid before gs i g e Hb Hg He Hok)
    as (g1 & e1 & Hg1 & He1 & [_ Hok1]).
  destruct (entryAt_apply now op gid pid _ e1 He1) as (e2 & He2 & Hstep).
  exists e1, e2. split_and!; [done..|]. intros Hne.
  destruct (entryStep_banks_set_timer _ _ _ _ _ _ _ Hstep) as [?|[start Hs]]; [done|].
  destruct (Hok1 start Hs) as (_ & Hl & Hr). split; [done|].
  unfold gameRunning. rewrite Hg1. by apply bool_decide_eq_true.
Qed.

Example freshGame_timerOk : timerOk freshGame (benchEntry "a").
Proof. split; [done|]. intros t. simpl. done. Qed.

(** ** The moves the page issues come with a position

    This supports C1: the drop handler and the commit of a plan only issue
    moves to the field that carry a position, provided the page's copy of
    the lineup has one entry per player and satisfies the invariant, the
    dragged item shows the entry's location, and every staged swap has a
    target position (the planning drop passes the position of the field
    player it was dropped on). *)

Lemma movePlayerInGame_ok now gid pid s t pos gs :
  (t = Field → is_Some pos) →
  gamesOk gs = true → gamesOk (movePlayerInGame now gid pid s t pos gs) = true.
Proof.
  intros Hpos Hgs. apply gamesOk_Forall.
  apply (perform_ok (Call now (Move gid pid s t pos))); [|by apply gamesOk_Forall].
  destruct t, pos; simpl; try done. by destruct Hpos as [? [=]].
Qed.

Lemma findPlayer_NoDup l e pid i p :
  NoDup (id <$> l) → e ∈ l → id e = pid → findPlayer pid l = Some (i, p) → p = e.
Proof.
  intros Hnd (j & Hj)%list_elem_of_lookup Hid (Hi & Hp & _)%list_find_Some.
  assert ((id <$> l) !! i = Some pid) as Hi' by (by rewrite list_lookup_fmap, Hi; simpl; f_equal).
  assert ((id <$> l) !! j = Some pid) as Hj' by (by rewrite list_lookup_fmap, Hj; simpl; f_equal).
  pose proof (NoDup_lookup _ _ _ _ Hnd Hi' Hj') as ->. congruence.
Qed.

Lemma handleDropInGame_ok now1 now2 copy dims item tgt x y s :
  Forall (fun e => positionOk e = true) copy →
  NoDup (id <$> copy) →
  (∀ i e, findPlayer (item_id item) copy = Some (i, e) → location e = item_location item) →
  gamesOk (games s) = true →
  gamesOk (games (handleDropInGame now1 now2 copy dims item tgt x y s)) = true.
Proof.
  intros Hcopy Hnd Hitem Hgs. unfold handleDropInGame.
  destruct (pageGame s) as [game|]; [|done].
  destruct (isPlanningSubs s); [done|].
  destruct (findPlayer (item_id item) copy) as [[i moved]|] eqn:Hm; [|done].
  pose proof (Hitem i moved eq_refl) as Hloc.
  apply findPlayer_lookup in Hm as [Hm _].
  pose proof (Forall_lookup_1 _ _ _ _ Hcopy Hm) as Hmoved.
  apply bool_decide_eq_true in Hmoved.
  destruct tgt; [destruct x as [x|]; [destruct y as [y|]|]; try done| |].
  - destruct (List.find _ _) as [target|] eqn:Hf; simpl.
    + apply List.find_some in Hf as [Hin Hu].
      apply list_elem_of_In, list_elem_of_filter in Hin as [[Htl _] Hin].
      destruct (findPlayer (id target) copy) as [[j replaced]|] eqn:Hr; [simpl|done].
      assert (replaced = target) as -> by (by eapply findPlayer_NoDup).
      apply movePlayerInGame_ok.
      { intros _. unfold underDrop in Hu. by destruct (position target). }
      apply movePlayerInGame_ok; [|done].
      intros Hsrc. rewrite (bool_decide_eq_true_2 _ Hsrc). apply Hmoved. congruence.
    + by apply movePlayerInGame_ok.
  - case_bool_decide; [simpl|done]. by apply movePlayerInGame_ok.
  - case_bool_decide; [simpl|done]. by apply movePlayerInGame_ok.
Qed.

Lemma executeSwaps_ok now gid plan :
  ∀ k gs, Forall (fun kv => is_Some (targetPosition kv.2)) plan →
          gamesOk gs = true → gamesOk (executeSwaps now k gid plan gs) = true.
Proof.
  induction plan as [|[b sw] plan IH]; intros k gs Hplan Hgs; simpl; [done|].
  apply Forall_cons in Hplan as [Hsw Hplan].
  apply IH; [done|]. apply movePlayerInGame_ok; [done|].
  by apply movePlayerInGame_ok.
Qed.

Lemma handleConfirmPlan_ok now s :
  Forall (fun kv => is_Some (targetPosition kv.2)) (plannedSwaps s) →
  gamesOk (games s) = true → gamesOk (games (handleConfirmPlan now s)) = true.
Proof.
  intros Hplan Hgs. unfold handleConfirmPlan.
  destruct (pageGame s); [simpl|done]. by apply executeSwaps_ok.
Qed.

(** ** The page's game and the calls of the clock button *)

Lemma pageGame_fmap (F : Game → Game) s g :
  (∀ g, game_id (F g) = game_id g) →
  pageGame s = Some g → pageGame (pageWithGames s (F <$> games s)) = Some (F g).
Proof.
  intros HF. unfold pageGame. simpl. destruct (gameId s) as [gid|]; [|done].
  rewrite findGame_fmap by done.
  destruct (findGame gid (games s)) as [[i g0]|]; [|done]. by intros [= ->].
Qed.

Lemma pageGame_id s g : pageGame s = Some g → gameId s = Some (game_id g).
Proof.
  unfold pageGame. destruct (gameId s) as [gid|]; [|done].
  destruct (findGame gid (games s)) as [[i g0]|] eqn:Hg; [|done].
  intros [= ->]. apply findGame_lookup in Hg as [_ ->]. done.
Qed.


Lemma pageGame_findGame s g :
  pageGame s = Some g → ∃ i, findGame (game_id g) (games s) = Some (i, g).
Proof.
  unfold pageGame. destruct (gameId s) as [gid|]; [|done].
  destruct (findGame gid (games s)) as [[i g0]|] eqn:Hg; [|done].
  intros [= ->]. exists i. by destruct (findGame_lookup _ _ _ _ Hg) as [_ ->].
Qed.


(** ** What a call credits

    In a state where timers are set only on the field of a running game, a
    call adds to the playtime of an entry exactly what [credited] says. *)

Lemma apply_credited now op gid pid gs i g e :
  findGame gid gs = Some (i, g) → entryAt gid pid gs = Some e → timerOk g e →
  ∃ e', entryAt gid pid (apply now op gs) = Some e'
        ∧ playtimeSeconds e' = playtimeSeconds e + credited now gid pid op e.
Proof.
  intros Hg He [Hrun Hset].
  assert (Hin : entryIn pid g = Some e) by (unfold entryAt in He; by rewrite Hg in He).
  destruct (findGame_lookup _ _ _ _ Hg) as [_ Hid].
  assert (Htruthy : ∀ t, playtimerStartTime e = Some t →
            truthy (playtimerStartTime e) = Some t ∧ location e = Field
            ∧ timerStatus g = Some Running).
  { intros t Ht. destruct (Hset t Ht) as (Ht0 & Hl & Hr).
    rewrite Ht. simpl. by rewrite decide_False. }
  unfold credited.
  destruct op as [g0 p s t pos|d t g0|g0|g0|g0 p]; simpl.
  - rewrite entryAt_move, He. simpl.
    destruct (decide (g0 = gid ∧ p = pid)) as [[-> ->]|Hne]; simpl.
    + eexists. split; [done|]. simpl. unfold leavingWithTimer.
      destruct (playtimerStartTime e) as [start|] eqn:Hst.
      * destruct (Htruthy start eq_refl) as (-> & _ & _).
        destruct (decide (s = Bench)) as [->|Hs].
        -- rewrite (bool_decide_eq_false_2 (_ ∧ _ ∧ Bench ≠ Bench))
             by (intros (_ & _ & Hb); done).
           simpl. lia.
        -- rewrite (bool_decide_eq_true_2 (_ ∧ _ ∧ s ≠ Bench)) by done.
           replace (bool_decide (s = Field) || bool_decide (s = Inactive)) with true
             by (by destruct s).
           by rewrite bank_roundedInterval.
      * simpl. destruct (_ || _); lia.
    + eexists. split; [done|].
      rewrite (bool_decide_eq_false_2 (_ ∧ _ ∧ _)) by tauto.
      destruct (playtimerStartTime e); lia.
  - destruct (entryAt_apply now (StartClock d t g0) gid pid gs e He) as (e' & He' & Hstep).
    simpl in He'. exists e'. split; [done|].
    assert (playtimeSeconds e' = playtimeSeconds e); [|destruct (playtimerStartTime e); lia].
    by inversion Hstep; subst.
  - unfold stopGameTimer, entryAt. rewrite findGame_fmap by (intros; by repeat case_match).
    rewrite Hg. simpl.
    destruct (decide (g0 = gid)) as [->|Hne].
    + rewrite (bool_decide_eq_true_2 _ Hid), (bool_decide_eq_true_2 (gid = gid)) by done.
      destruct (playtimerStartTime e) as [start|] eqn:Hst.
      * destruct (Htruthy start eq_refl) as (Ht & Hl & Hr).
        rewrite (bool_decide_eq_true_2 _ Hr). simpl.
        destruct (truthy (timerStartTime g)) as [gstart|] eqn:Hgs;
          [|by destruct (Hrun Hr)].
        rewrite (entryIn_mapLineup (stopEntry now) pid g) by auto using stopEntry_id.
        rewrite Hin. simpl. eexists. split; [done|].
        unfold stopEntry. rewrite Hl, Hst, Ht. simpl.
        by rewrite bank_roundedInterval.
      * destruct (bool_decide (timerStatus g = Some Running)); simpl;
          [destruct (truthy (timerStartTime g))|]; try (exists e; split; [done|lia]).
        rewrite (entryIn_mapLineup (stopEntry now) pid g) by auto using stopEntry_id.
        rewrite Hin. simpl. eexists. split; [done|].
        unfold stopEntry. rewrite Hst. simpl. destruct (location e); simpl; lia.
    + rewrite (bool_decide_eq_false_2 (game_id g = g0)) by congruence. simpl.
      rewrite (bool_decide_eq_false_2 (g0 = gid)) by done.
      exists e. split; [done|]. destruct (playtimerStartTime e); lia.
  - unfold markGameAsFinished, entryAt.
    rewrite findGame_fmap by (intros; by repeat case_match).
    rewrite Hg. simpl.
    destruct (decide (g0 = gid)) as [->|Hne].
    + rewrite (bool_decide_eq_true_2 _ Hid), (bool_decide_eq_true_2 (gid = gid)) by done.
      destruct (playtimerStartTime e) as [start|] eqn:Hst.
      * destruct (Htruthy start eq_refl) as (Ht & Hl & Hr).
        rewrite (bool_decide_eq_true_2 _ Hr).
        destruct (truthy (timerStartTime g)) as [gstart|] eqn:Hgs;
          [|by destruct (Hrun Hr)].
        rewrite (entryIn_mapLineup (finishEntry now) pid g) by auto using finishEntry_id.
        rewrite Hin. simpl. eexists. split; [done|].
        unfold finishEntry. rewrite Hst, Ht, Hl. simpl.
        by rewrite bank_roundedInterval.
      * destruct (bool_decide (timerStatus g = Some Running)); simpl;
          [destruct (truthy (timerStartTime g))|]; try (exists e; split; [done|lia]).
        rewrite (entryIn_mapLineup (finishEntry now) pid g) by auto using finishEntry_id.
        rewrite Hin. simpl. eexists. split; [done|].
        unfold finishEntry. rewrite Hst. simpl. lia.
    + rewrite (bool_decide_eq_false_2 (game_id g = g0)) by congruence.
      rewrite (bool_decide_eq_false_2 (g0 = gid)) by done.
      exists e. split; [done|]. destruct (playtimerStartTime e); lia.
  - destruct (entryAt_apply now (StartPlayer g0 p) gid pid gs e He) as (e' & He' & Hstep).
    simpl in He'. exists e'. split; [done|].
    assert (playtimeSeconds e' = playtimeSeconds e); [|destruct (playtimerStartTime e); lia].
    inversion Hstep; subst; [|done]. unfold startPlayerEntry. by case_match.
Qed.
(** * Properties of the specification *)

(** ** C1: position is defined exactly on the field *)

(** C1, counterexample. Three states the claim covers in which an entry
    breaks the invariant: a persisted lineup whose bench entry carries a
    position is loaded as it is; a move to the field without a position
    leaves the entry on the field with no position; and so does committing
    a planned swap whose target position is absent. *)
Lemma position_iff_field_fails :
  (∃ e, validLineup (Some [Some storedBenchWithPosition]) = Some [e]
        ∧ location e = Bench ∧ is_Some (position e))
  ∧ (∃ e, entryAt "g1" "a" (movePlayerInGame 1000 "g1" "a" Bench Field None freshGames)
          = Some e
          ∧ location e = Field ∧ position e = None)
  ∧ (∃ e, entryAt "g1" "a"
            (games (handleConfirmPlan (fun _ => 1000)
                      (planningPage [("a", mkPlannedSwap "x" None)]))) = Some e
          ∧ location e = Field ∧ position e = None).
Proof.
  split_and!; eexists; (split; [reflexivity|]); split; try reflexivity.
  by eexists.
Qed.

(** C1, amended. Every move with a target other than the field clears
    [position], and a move to the field sets [position] to the supplied
    [newPosition], defined or not. Hence: from a state in which every entry
    has a position exactly when it is on the field (such as a default
    lineup), every sequence of moves, clock starts and stops and lineup
    resets in which each move to the field supplies a position leads to a
    state with the same property. Loading a persisted lineup keeps each
    record's position and (known) location as stored, so the loaded entry
    has the property exactly when the stored record has it. *)
Theorem position_iff_field_preserved acts gs :
  gamesOk gs = true →
  forallb suppliesPosition acts = true →
  gamesOk (performAll acts gs) = true
  ∧ (∀ gid pid e, entryAt gid pid (performAll acts gs) = Some e →
       (is_Some (position e) ↔ location e = Field))
  ∧ (∀ now r s t pos e,
       location (movePlayerState now r s t pos e) = t
       ∧ position (movePlayerState now r s t pos e)
         = if decide (t = Field) then pos else None)
  ∧ (∀ stored e, loadEntry (Some stored) = Some e →
       position e = stored_position stored
       ∧ location e = loadLocation (stored_location stored)).
Proof.
  intros Hgs Hacts.
  assert (Hok : Forall LineupOk (performAll acts gs)).
  { apply performAll_ok; [done|]. by apply gamesOk_Forall. }
  split_and!.
  - by apply gamesOk_Forall.
  - intros gid pid e He.
    destruct (entryAt_elem _ _ _ _ He) as (i & g & l & j & Hg & Hl & Hj).
    pose proof (Forall_lookup_1 _ _ _ _ Hok Hg l Hl) as Hl'.
    pose proof (Forall_lookup_1 _ _ _ _ Hl' Hj) as He'.
    by apply bool_decide_eq_true in He'.
  - intros now r s t pos e. split; [done|]. by destruct t.
  - apply loadEntry_fields.
Qed.

Example sampleActions_reset :
  entryAt "g1" "a" (performAll sampleActions freshGames) = Some (benchEntry "a")
  ∧ entryAt "g1" "y" (performAll sampleActions freshGames) = None.
Proof. split; reflexivity. Qed.

Lemma position_iff_field_preserved_witness :
  gamesOk (performAll sampleActions freshGames) = true
  ∧ (∀ gid pid e, entryAt gid pid (performAll sampleActions freshGames) = Some e →
       (is_Some (position e) ↔ location e = Field))
  ∧ (∀ now r s t pos e,
       location (movePlayerState now r s t pos e) = t
       ∧ position (movePlayerState now r s t pos e)
         = if decide (t = Field) then pos else None)
  ∧ (∀ stored e, loadEntry (Some stored) = Some e →
       position e = stored_position stored
       ∧ location e = loadLocation (stored_location stored)).
Proof.
  apply (position_iff_field_preserved sampleActions freshGames); reflexivity.
Defined.

(** ** C2: the substitution counters count the transitions *)

(** C2. Along every sequence of calls (moves of any players, clock starts
    and stops) in which each move passes the stored location of the entry
    it addresses as its source, the [subbedOnCount] of an entry grows by
    exactly the number of its bench-to-field transitions and its
    [subbedOffCount] by the number of its field-to-bench transitions; an
    entry of a default lineup starts at zero, so the counters equal these
    numbers. A single move whose source or target is ['inactive'], or whose
    source and target are equal, changes neither counter. *)
Theorem substitution_counters_count_transitions gid pid ops gs e :
  entryAt gid pid gs = Some e →
  truthful ops gs = true →
  (∃ e', entryAt gid pid (run ops gs) = Some e'
     ∧ subbedOnCount e'
       = subbedOnCount e + transitions Bench Field gid pid ops gs
     ∧ subbedOffCount e'
       = subbedOffCount e + transitions Field Bench gid pid ops gs)
  ∧ (∀ now s t pos, s = Inactive ∨ t = Inactive ∨ s = t →
       ∃ e', entryAt gid pid (movePlayerInGame now gid pid s t pos gs) = Some e'
         ∧ subbedOnCount e' = subbedOnCount e
         ∧ subbedOffCount e' = subbedOffCount e).
Proof.
  intros He Ht. split.
  - revert gs e He Ht. induction ops as [|[now op] ops IH]; intros gs e He Ht.
    + exists e. simpl. split; [done|]. split; lia.
    + simpl in Ht. apply andb_prop in Ht as [Hop Hrest].
      destruct (entryAt_apply now op gid pid gs e He) as (e1 & He1 & Hstep).
      destruct (IH _ _ He1 Hrest) as (e' & He' & Hon & Hoff).
      destruct (entryStep_counters _ _ _ _ _ _ _ Hstep He Hop) as [Hon1 Hoff1].
      exists e'. simpl. rewrite He, He1. simpl.
      split; [done|].
      rewrite Hon, Hoff, Hon1, Hoff1.
      destruct (location e), (location e1); simpl; lia.
  - intros now s t pos Hst.
    rewrite entryAt_move, decide_True, He by done. simpl.
    eexists. split; [done|].
    destruct s, t; simpl; (by destruct Hst as [?|[?|?]]) || done.
Qed.

Example sampleOps_a :
  entryAt "g1" "a" (run sampleOps freshGames)
  = Some (mkPlayerLineupState "a" Bench None 20 None (Some false) 1 1)
  ∧ transitions Bench Field "g1" "a" sampleOps freshGames = 1
  ∧ transitions Field Bench "g1" "a" sampleOps freshGames = 1.
Proof. split_and!; reflexivity. Qed.

Lemma substitution_counters_count_transitions_witness :
  (∃ e', entryAt "g1" "a" (run sampleOps freshGames) = Some e'
     ∧ subbedOnCount e'
       = subbedOnCount (benchEntry "a")
         + transitions Bench Field "g1" "a" sampleOps freshGames
     ∧ subbedOffCount e'
       = subbedOffCount (benchEntry "a")
         + transitions Field Bench "g1" "a" sampleOps freshGames)
  ∧ (∀ now s t pos, s = Inactive ∨ t = Inactive ∨ s = t →
       ∃ e', entryAt "g1" "a" (movePlayerInGame now "g1" "a" s t pos freshGames)
             = Some e'
         ∧ subbedOnCount e' = subbedOnCount (benchEntry "a")
         ∧ subbedOffCount e' = subbedOffCount (benchEntry "a")).
Proof.
  apply (substitution_counters_count_transitions "g1" "a" sampleOps freshGames
           (benchEntry "a")); reflexivity.
Defined.

(** ** C3: starting a clock that runs, or the clock of a finished game *)



(** [startGameTimer] has no test of its own for a clock that runs; the test
    is the button's. Called directly on the running sample game, which the
    page never does, it would set the start time and the timers of the
    field players anew. *)
Example startGameTimer_restarts_running_clock :
  ∃ g g',
    findGame "g1" runningGames = Some (0%nat, g)
    ∧ findGame "g1" (startGameTimer 61000 "2025-03-01" "10:00" "g1" runningGames)
      = Some (0%nat, g')
    ∧ timerStatus g = Some Running
    ∧ isExplicitlyFinished g = Some false
    ∧ timerStartTime g = Some 1000 ∧ timerStartTime g' = Some 61000
    ∧ timerElapsedSeconds g = Some 0 ∧ timerElapsedSeconds g' = Some 0
    ∧ lineup g' ≠ lineup g.
Proof. eexists _, _. split_and!; try reflexivity. vm_compute. discriminate. Qed.

(** ** C4: clock start and the timers of the players on the field *)



(** [startGameTimer] writes the timer of every field entry without testing
    it. Called directly on the running sample game, which the page never
    does, it would replace the timer of ["x"]. *)
Example startGameTimer_overwrites_player_timer :
  ∃ e e',
    entryAt "g1" "x" runningGames = Some e
    ∧ entryAt "g1" "x" (startGameTimer 61000 "2025-03-01" "10:00" "g1" runningGames)
      = Some e'
    ∧ location e = Field
    ∧ playtimerStartTime e = Some 1000
    ∧ playtimerStartTime e' = Some 61000
    ∧ playtimeSeconds e' = playtimeSeconds e
    ∧ startPlayerEntry 61000 "x" e = e.
Proof. eexists _, _. split_and!; reflexivity. Qed.

(** ** C5: committing and cancelling a staged plan *)

(** C5. Stage [A -> X] and then [B -> Y] from an empty plan, for bench
    players [A ≠ B] and field players [X ≠ Y], each drop carrying the
    position of its target. [handleConfirmPlan] then moves, for each pair
    in staging order, the field player to the bench and the bench player to
    the field at the staged position: afterwards [A] and [B] are on the
    field at the former positions of [X] and [Y], [X] and [Y] are on the
    bench without position, [A] and [B] have one more [subbedOnCount], [X]
    and [Y] one more [subbedOffCount] and no other counter moved (2 and 2
    in total), planning mode is off and the plan is empty.
    [handleCancelPlan] turns planning mode off and empties the plan too, and
    leaves the games, hence every lineup entry, as they are. *)
Theorem planner_commit_and_cancel now s0 g A B X Y eA eB eX eY :
  pageGame s0 = Some g →
  plannedSwaps s0 = [] →
  entryAt (game_id g) A (games s0) = Some eA →
  entryAt (game_id g) B (games s0) = Some eB →
  entryAt (game_id g) X (games s0) = Some eX →
  entryAt (game_id g) Y (games s0) = Some eY →
  location eA = Bench → location eB = Bench →
  location eX = Field → location eY = Field →
  A ≠ B → X ≠ Y →
  let s := handlePlanDrop B Y (position eY) (handlePlanDrop A X (position eX) s0) in
  (∃ eA' eB' eX' eY',
      entryAt (game_id g) A (games (handleConfirmPlan now s)) = Some eA'
      ∧ entryAt (game_id g) B (games (handleConfirmPlan now s)) = Some eB'
      ∧ entryAt (game_id g) X (games (handleConfirmPlan now s)) = Some eX'
      ∧ entryAt (game_id g) Y (games (handleConfirmPlan now s)) = Some eY'
      ∧ (location eA' = Field ∧ position eA' = position eX)
      ∧ (location eB' = Field ∧ position eB' = position eY)
      ∧ (location eX' = Bench ∧ position eX' = None)
      ∧ (location eY' = Bench ∧ position eY' = None)
      ∧ (subbedOnCount eA' = subbedOnCount eA + 1 ∧ subbedOffCount eA' = subbedOffCount eA)
      ∧ (subbedOnCount eB' = subbedOnCount eB + 1 ∧ subbedOffCount eB' = subbedOffCount eB)
      ∧ (subbedOnCount eX' = subbedOnCount eX ∧ subbedOffCount eX' = subbedOffCount eX + 1)
      ∧ (subbedOnCount eY' = subbedOnCount eY ∧ subbedOffCount eY' = subbedOffCount eY + 1)
      ∧ subbedOnCount eA' + subbedOnCount eB' + subbedOnCount eX' + subbedOnCount eY'
        = subbedOnCount eA + subbedOnCount eB + subbedOnCount eX + subbedOnCount eY + 2
      ∧ subbedOffCount eA' + subbedOffCount eB' + subbedOffCount eX' + subbedOffCount eY'
        = subbedOffCount eA + subbedOffCount eB + subbedOffCount eX + subbedOffCount eY + 2)
  ∧ isPlanningSubs (handleConfirmPlan now s) = false
  ∧ plannedSwaps (handleConfirmPlan now s) = []
  ∧ games (handleCancelPlan s) = games s
  ∧ isPlanningSubs (handleCancelPlan s) = false
  ∧ plannedSwaps (handleCancelPlan s) = [].
Proof.
  intros Hg Hplan HA HB HX HY HlA HlB HlX HlY HAB HXY s.
  assert (HAX : A ≠ X) by (eapply entryAt_inj; [exact HA|exact HX|congruence]).
  assert (HAY : A ≠ Y) by (eapply entryAt_inj; [exact HA|exact HY|congruence]).
  assert (HBX : B ≠ X) by (eapply entryAt_inj; [exact HB|exact HX|congruence]).
  assert (HBY : B ≠ Y) by (eapply entryAt_inj; [exact HB|exact HY|congruence]).
  assert (Hs : pageGame s = Some g) by done.
  assert (Hp : plannedSwaps s
               = [(A, mkPlannedSwap X (position eX)); (B, mkPlannedSwap Y (position eY))]).
  { subst s. simpl. rewrite Hplan. by apply stage_two. }
  unfold handleConfirmPlan, handleCancelPlan. rewrite Hs, Hp. simpl.
  split_and!; try done.
  exists (movePlayerState (now 1%nat) (gameRunning (game_id g) (games s0)) Bench Field
            (position eX) eA),
         (movePlayerState (now 3%nat) (gameRunning (game_id g) (games s0)) Bench Field
            (position eY) eB),
         (movePlayerState (now 0%nat) (gameRunning (game_id g) (games s0)) Field Bench
            None eX),
         (movePlayerState (now 2%nat) (gameRunning (game_id g) (games s0)) Field Bench
            None eY).
  rewrite !entryAt_move, !gameRunning_move.
  repeat match goal with
         | |- context [decide (?a = ?a ∧ ?p = ?q)] =>
             destruct (decide (a = a ∧ p = q)) as [[_ ?]|?];
             [try congruence|try tauto]
         end.
  rewrite HA, HB, HX, HY. simpl.
  split_and!; try done; lia.
Qed.

(** Clock stopped, ["a"] and ["b"] on the bench, ["x"] and ["y"] on the
    field. *)
Lemma planner_commit_and_cancel_witness :
  (∃ eA' eB' eX' eY',
      entryAt "g1" "a" (games (handleConfirmPlan sampleClock stagedPage)) = Some eA'
      ∧ entryAt "g1" "b" (games (handleConfirmPlan sampleClock stagedPage)) = Some eB'
      ∧ entryAt "g1" "x" (games (handleConfirmPlan sampleClock stagedPage)) = Some eX'
      ∧ entryAt "g1" "y" (games (handleConfirmPlan sampleClock stagedPage)) = Some eY'
      ∧ (location eA' = Field ∧ position eA' = Some (at_ 20 30))
      ∧ (location eB' = Field ∧ position eB' = Some (at_ 60 70))
      ∧ (location eX' = Bench ∧ position eX' = None)
      ∧ (location eY' = Bench ∧ position eY' = None)
      ∧ (subbedOnCount eA' = 0 + 1 ∧ subbedOffCount eA' = 0)
      ∧ (subbedOnCount eB' = 0 + 1 ∧ subbedOffCount eB' = 0)
      ∧ (subbedOnCount eX' = 0 ∧ subbedOffCount eX' = 0 + 1)
      ∧ (subbedOnCount eY' = 0 ∧ subbedOffCount eY' = 0 + 1)
      ∧ subbedOnCount eA' + subbedOnCount eB' + subbedOnCount eX' + subbedOnCount eY'
        = 0 + 0 + 0 + 0 + 2
      ∧ subbedOffCount eA' + subbedOffCount eB' + subbedOffCount eX' + subbedOffCount eY'
        = 0 + 0 + 0 + 0 + 2)
  ∧ isPlanningSubs (handleConfirmPlan sampleClock stagedPage) = false
  ∧ plannedSwaps (handleConfirmPlan sampleClock stagedPage) = []
  ∧ games (handleCancelPlan stagedPage) = games stagedPage
  ∧ isPlanningSubs (handleCancelPlan stagedPage) = false
  ∧ plannedSwaps (handleCancelPlan stagedPage) = [].
Proof.
  apply (planner_commit_and_cancel sampleClock (planningPage [])
           freshGame "a" "b" "x" "y"
           (benchEntry "a") (benchEntry "b")
           (fieldEntry "x" (at_ 20 30) None) (fieldEntry "y" (at_ 60 70) None));
    (reflexivity || discriminate).
Defined.

Example commit_example :
  plannedSwaps stagedPage
  = [("a", mkPlannedSwap "x" (Some (at_ 20 30)));
     ("b", mkPlannedSwap "y" (Some (at_ 60 70)))]
  ∧ entryAt "g1" "a" (games (handleConfirmPlan sampleClock stagedPage))
    = Some (mkPlayerLineupState "a" Field (Some (at_ 20 30)) 0 None (Some false) 1 0)
  ∧ entryAt "g1" "x" (games (handleConfirmPlan sampleClock stagedPage))
    = Some (mkPlayerLineupState "x" Bench None 0 None (Some false) 0 1).
Proof. split_and!; reflexivity. Qed.

(** ** C6: the staged plan is a partial injection *)

(** C6. In every plan the page can hold (any series of planning drops from
    the empty plan), each bench player is a key at most once and each field
    player is a target at most once. Staging [A -> X] and then [B -> X]
    with [A ≠ B] leaves no plan for [A]; [B -> X] is then the only plan
    that targets [X] (and the whole plan, when staging began from the empty
    one). Staging [A] again replaces its plan: only the new one is left for
    [A]. *)
Theorem planned_swaps_partial_injection drops A B X Y pA pB pY :
  A ≠ B →
  let m := stageAll drops [] in
  (NoDup (planKeys m) ∧ NoDup (planTargets m))
  ∧ (let m' := planDrop B X pB (planDrop A X pA m) in
     mapGet A m' = None
     ∧ mapGet B m' = Some (mkPlannedSwap X pB)
     ∧ ∀ k sw, (k, sw) ∈ m' → targetFieldPlayerId sw = X →
               k = B ∧ sw = mkPlannedSwap X pB)
  ∧ planDrop B X pB (planDrop A X pA []) = [(B, mkPlannedSwap X pB)]
  ∧ (let m' := planDrop A Y pY (planDrop A X pA m) in
     mapGet A m' = Some (mkPlannedSwap Y pY)
     ∧ ∀ sw, (A, sw) ∈ m' → sw = mkPlannedSwap Y pY).
Proof.
  intros Hne m.
  assert (Hm : NoDup (planKeys m) ∧ NoDup (planTargets m)).
  { apply stageAll_NoDup. split; constructor. }
  pose proof (planDrop_NoDup A X pA m Hm) as Hm1.
  split; [done|]. cbv zeta. split_and!.
  - apply mapGet_None. rewrite planDrop_eq. unfold planKeys.
    rewrite fmap_app. apply not_elem_of_app. split.
    + intros Hin. apply (withoutTarget_key A X pA (planDrop A X pA m));
        [apply Hm1|apply planDrop_last|].
      eapply elem_of_sublist; [exact Hin|]. apply fmap_sublist, mapDelete_sublist.
    + simpl. by intros ->%list_elem_of_singleton.
  - apply planDrop_get.
  - intros k sw Hin Ht.
    pose proof (planDrop_NoDup B X pB _ Hm1) as [_ Hnd].
    assert ((k, sw) = (B, mkPlannedSwap X pB)) as [= -> ->]; [|done].
    apply (planTargets_inj _ _ _ Hnd Hin (planDrop_last _ _ _ _)). done.
  - unfold planDrop, withoutTarget, mapDelete. simpl.
    destruct (decide (X = X)); [simpl|done].
    rewrite filter_cons_False by (simpl; by intros H). done.
  - apply planDrop_get.
  - intros sw Hin.
    pose proof (planDrop_NoDup A Y pY _ Hm1) as [Hnd _].
    assert ((A, sw) = (A, mkPlannedSwap Y pY)) as [= ->]; [|done].
    apply (NoDup_fmap_eq fst _ _ _ Hnd Hin (planDrop_last _ _ _ _)). done.
Qed.

Lemma planned_swaps_partial_injection_witness :
  let m := stageAll [("a", "x", Some (at_ 20 30)); ("b", "y", Some (at_ 60 70));
                     ("a", "y", Some (at_ 60 70))] [] in
  (NoDup (planKeys m) ∧ NoDup (planTargets m))
  ∧ (let m' := planDrop "b" "x" None (planDrop "a" "x" None m) in
     mapGet "a" m' = None
     ∧ mapGet "b" m' = Some (mkPlannedSwap "x" None)
     ∧ ∀ k sw, (k, sw) ∈ m' → targetFieldPlayerId sw = "x" →
               k = "b" ∧ sw = mkPlannedSwap "x" None)
  ∧ planDrop "b" "x" None (planDrop "a" "x" None []) = [("b", mkPlannedSwap "x" None)]
  ∧ (let m' := planDrop "a" "y" None (planDrop "a" "x" None m) in
     mapGet "a" m' = Some (mkPlannedSwap "y" None)
     ∧ ∀ sw, ("a", sw) ∈ m' → sw = mkPlannedSwap "y" None).
Proof.
  apply (planned_swaps_partial_injection
           [("a", "x", Some (at_ 20 30)); ("b", "y", Some (at_ 60 70));
            ("a", "y", Some (at_ 60 70))] "a" "b" "x" "y" None None None).
  discriminate.
Defined.

Example stageAll_example :
  stageAll [("a", "x", None); ("b", "y", None); ("a", "y", None)] []
  = [("a", mkPlannedSwap "y" None)].
Proof. reflexivity. Qed.

(** ** C7: who is a starter *)

(** C7, counterexample. The clock is started with ["x"] on the field and
    stopped 300 ms later, which banks [Math.round(0.3) = 0] seconds; ["x"]
    is then moved to the bench. The next start is again a cold start, and
    it turns the starter flag of ["x"], an entry that is not on the field,
    from true to false. *)
Lemma cold_start_resets_other_starters :
  let gs := run [(1000, StartClock "2025-03-01" "10:00" "g1");
                 (1300, StopClock "g1");
                 (2000, Move "g1" "x" Field Bench None)] freshGames in
  ∃ g e e',
    findGame "g1" gs = Some (0%nat, g)
    ∧ timerElapsedSeconds g = Some 0
    ∧ entryAt "g1" "x" gs = Some e
    ∧ location e = Bench ∧ isStarter e = Some true
    ∧ entryAt "g1" "x" (startGameTimer 5000 "2025-03-01" "10:00" "g1" gs) = Some e'
    ∧ isStarter e' = Some false.
Proof. eexists _, _, _. split_and!; reflexivity. Qed.

(** C7, amended. On a cold start (banked elapsed [= 0]) of a game that is
    not finished, the starter flag of every entry is set to whether the entry
    is on the field: true on the field, false everywhere else, whatever it
    was. A start with banked elapsed other than [0] (so any elapsed [> 0])
    leaves the starter flag of every entry as it was. *)
Theorem startGameTimer_starters now d t gid gs i g pid e :
  findGame gid gs = Some (i, g) →
  entryAt gid pid gs = Some e →
  ∃ e', entryAt gid pid (startGameTimer now d t gid gs) = Some e'
    ∧ (default 0 (timerElapsedSeconds g) = 0 → flag (isExplicitlyFinished g) = false →
       isStarter e' = Some (bool_decide (location e = Field)))
    ∧ (default 0 (timerElapsedSeconds g) ≠ 0 →
       flag (isStarter e') = flag (isStarter e)).
Proof.
  intros Hg He. unfold startGameTimer.
  rewrite (entryAt_fmap _
    (fun g0 => if bool_decide (game_id g0 = gid) && negb (flag (isExplicitlyFinished g0))
               then startEntry now (bool_decide (default 0 (timerElapsedSeconds g0) = 0))
               else fun p => p)).
  - rewrite Hg, He. simpl. eexists. split; [done|].
    apply findGame_lookup in Hg as [_ Hid].
    rewrite (bool_decide_eq_true_2 _ Hid). simpl.
    destruct (flag (isExplicitlyFinished g)); simpl.
    + split; [done|done].
    + split.
      * intros H0 _. by rewrite (bool_decide_eq_true_2 _ H0).
      * intros H0. by rewrite (bool_decide_eq_false_2 _ H0).
  - intros g0. by case_match.
  - intros g0 p. by case_match.
  - intros g0. case_match; simpl; [done|]. by rewrite mapLineup_id.
Qed.

Lemma startGameTimer_starters_witness :
  ∃ e', entryAt "g1" "a" (startGameTimer 1000 "2025-03-01" "10:00" "g1" freshGames)
        = Some e'
    ∧ (default 0 (timerElapsedSeconds
                    freshGame) = 0 →
       flag (isExplicitlyFinished
               freshGame) = false →
       isStarter e' = Some (bool_decide (location (benchEntry "a") = Field)))
    ∧ (default 0 (timerElapsedSeconds
                    freshGame) ≠ 0 →
       flag (isStarter e') = flag (isStarter (benchEntry "a"))).
Proof.
  apply (startGameTimer_starters 1000 "2025-03-01" "10:00" "g1" freshGames 0%nat
           freshGame "a" (benchEntry "a")); reflexivity.
Defined.

(** ** C8: playtime is only ever banked, never taken away *)

(** C8. Start from a state in which timers are set only on the field of a
    running game (a fresh game, say) and take any sequence of calls (moves of
    any players, clock starts and stops, the end of the game) at positive
    times that never go back and start at or after the time the entry's timer
    was set. At every call of the sequence the [playtimeSeconds] of the entry
    grows by exactly what the call credits: the rounded interval between the
    entry's [playtimerStartTime] and the time of the call when the timer is
    set and the call banks it (a move of the entry from the field or from
    inactive, a stop of the clock of its game, the end of its game), and
    nothing otherwise. That amount is never negative, and whenever the timer
    is set the entry is on the field and the clock of its game is running,
    so what is credited was accrued on the field while the clock ran.
    Playtime never decreases: initial value, value before the call, value
    after it and final value are in that order. *)
Theorem playtime_never_decreases gid pid ops gs i g e t0 :
  findGame gid gs = Some (i, g) →
  entryAt gid pid gs = Some e →
  timerOk g e →
  startedBy t0 e = true →
  timesFrom t0 ops = true →
  positiveTimes ops = true →
  ∀ before now op after, ops = before ++ (now, op) :: after →
    ∃ e1 e2 e3,
      entryAt gid pid (run before gs) = Some e1
      ∧ entryAt gid pid (apply now op (run before gs)) = Some e2
      ∧ entryAt gid pid (run ops gs) = Some e3
      ∧ playtimeSeconds e2 = playtimeSeconds e1 + credited now gid pid op e1
      ∧ 0 ≤ credited now gid pid op e1
      ∧ (∀ start, playtimerStartTime e1 = Some start →
           start ≤ now ∧ location e1 = Field
           ∧ gameRunning gid (run before gs) = true)
      ∧ playtimeSeconds e ≤ playtimeSeconds e1
      ∧ playtimeSeconds e1 ≤ playtimeSeconds e2
      ∧ playtimeSeconds e2 ≤ playtimeSeconds e3.
Proof.
  intros Hg He Hok Hs Ht Hpos before now op after ->.
  rewrite timesFrom_app in Ht. apply andb_prop in Ht as [Hb Ha].
  simpl in Ha. apply andb_prop in Ha as [Hnow Ha]. apply bool_decide_eq_true in Hnow.
  unfold positiveTimes in Hpos. rewrite forallb_app in Hpos.
  apply andb_prop in Hpos as [Hposb _].
  destruct (run_playtime gid pid before gs e t0 He Hs Hb) as (e1 & He1 & Hle1 & Hs1).
  destruct (run_timerOk gid pid before gs i g e Hposb Hg He Hok)
    as (g1 & e1' & Hg1 & He1' & Hok1).
  assert (e1' = e1) as -> by congruence.
  destruct (entryAt_apply now op gid pid _ e1 He1) as (e2 & He2 & Hstep).
  destruct (apply_credited now op gid pid _ i g1 e1 Hg1 He1 Hok1)
    as (e2' & He2' & Hexact).
  assert (e2' = e2) as -> by congruence.
  destruct (entryStep_playtime _ _ _ _ _ _ _ _ Hstep Hnow Hs1) as [Hs2 _].
  destruct (run_playtime gid pid after _ e2 now He2 Hs2 Ha) as (e3 & He3 & Hle3 & _).
  assert (Hset : ∀ start, playtimerStartTime e1 = Some start →
            start ≤ now ∧ location e1 = Field
            ∧ gameRunning gid (run before gs) = true).
  { intros start Hstart. destruct Hok1 as [_ Hok1].
    destruct (Hok1 start Hstart) as (_ & Hl & Hr). split_and!; [|done|].
    - unfold startedBy in Hs1. rewrite Hstart in Hs1.
      apply bool_decide_eq_true in Hs1. lia.
    - unfold gameRunning. rewrite Hg1. by apply bool_decide_eq_true. }
  assert (Hnn : 0 ≤ credited now gid pid op e1).
  { unfold credited. destruct (playtimerStartTime e1) as [start|] eqn:Hstart; [|done].
    destruct (banksTimer gid pid op); [|done].
    apply roundedInterval_nonneg. by destruct (Hset start eq_refl). }
  exists e1, e2, e3. rewrite run_app. simpl.
  split_and!; try done. lia.
Qed.

Example sampleOps_x :
  entryAt "g1" "x" (run sampleOps freshGames)
  = Some (mkPlayerLineupState "x" Bench None 30 None (Some true) 0 1).
Proof. reflexivity. Qed.

(** The sample sequence, split at the move that takes ["x"] off after 30
    seconds of play: the move credits those 30 seconds. *)
Lemma playtime_never_decreases_witness :
  ∃ e1 e2 e3,
    entryAt "g1" "x" (run [(1000, StartClock "2025-03-01" "10:00" "g1")] freshGames)
    = Some e1
    ∧ entryAt "g1" "x"
        (apply 31000 (Move "g1" "x" Field Bench None)
           (run [(1000, StartClock "2025-03-01" "10:00" "g1")] freshGames))
      = Some e2
    ∧ entryAt "g1" "x" (run sampleOps freshGames) = Some e3
    ∧ playtimeSeconds e2
      = playtimeSeconds e1 + credited 31000 "g1" "x" (Move "g1" "x" Field Bench None) e1
    ∧ 0 ≤ credited 31000 "g1" "x" (Move "g1" "x" Field Bench None) e1
    ∧ (∀ start, playtimerStartTime e1 = Some start →
         start ≤ 31000 ∧ location e1 = Field
         ∧ gameRunning "g1"
             (run [(1000, StartClock "2025-03-01" "10:00" "g1")] freshGames) = true)
    ∧ playtimeSeconds (fieldEntry "x" (at_ 20 30) None) ≤ playtimeSeconds e1
    ∧ playtimeSeconds e1 ≤ playtimeSeconds e2
    ∧ playtimeSeconds e2 ≤ playtimeSeconds e3.
Proof.
  assert (Hok : timerOk freshGame (fieldEntry "x" (at_ 20 30) None)).
  { split; [done|]. intros t. simpl. done. }
  apply (playtime_never_decreases "g1" "x" sampleOps freshGames 0%nat freshGame
           (fieldEntry "x" (at_ 20 30) None) 0
           eq_refl eq_refl Hok eq_refl eq_refl eq_refl
           [(1000, StartClock "2025-03-01" "10:00" "g1")]
           31000 (Move "g1" "x" Field Bench None)
           (tail (tail sampleOps)) eq_refl).
Defined.

(** In that split the timer of ["x"] runs since [t = 1000], and the move
    takes the playtime from 0 to 30. *)
Example playtime_credited_sample :
  let e1 := fieldEntry "x" (at_ 20 30) (Some 1000) in
  entryAt "g1" "x" (run [(1000, StartClock "2025-03-01" "10:00" "g1")] freshGames)
  = Some (mkPlayerLineupState "x" Field (Some (at_ 20 30)) 0 (Some 1000) (Some true) 0 0)
  ∧ credited 31000 "g1" "x" (Move "g1" "x" Field Bench None) e1 = 30
  ∧ credited 31000 "g1" "x" (Move "g1" "a" Bench Field (Some (at_ 20 30))) e1 = 0
  ∧ credited 31000 "g1" "x" (Move "g1" "x" Bench Field None) e1 = 0
  ∧ credited 61000 "g1" "x" (StopClock "g1") e1 = 60.
Proof. simpl. split_and!; reflexivity. Qed.

(** ** C9: a move to the location the entry is already in *)

(** C9, counterexample. An entry on the field at (20, 30) with a timer
    running since [t = 1000] is moved field to field at [t = 61000] to
    (50, 50): position, playtime and timer start all change. *)
Lemma same_location_move_is_not_a_noop :
  let e := fieldEntry "x" (at_ 20 30) (Some 1000) in
  entryAt "g1" "x" runningGames = Some e
  ∧ location e = Field
  ∧ ∃ e', entryAt "g1" "x"
            (movePlayerInGame 61000 "g1" "x" Field Field (Some (at_ 50 50)) runningGames)
          = Some e'
          ∧ position e' ≠ position e
          ∧ playtimeSeconds e' ≠ playtimeSeconds e
          ∧ playtimerStartTime e' ≠ playtimerStartTime e.
Proof.
  simpl. split; [reflexivity|]. split; [reflexivity|].
  eexists. split; [reflexivity|]. split_and!; vm_compute; discriminate.
Qed.

(** C9, amended. A move whose source and target are both the entry's stored
    location never fails and leaves the location, both substitution
    counters, the id and the starter flag as they are. It is not a no-op:
    the position becomes the supplied one on the field and is cleared
    elsewhere, and the timer is cleared off the field. A set timer of an
    entry on the field or inactive is banked: playtime grows by the rounded
    interval since the timer was set; on the field the timer is then set
    anew at the time of the call when the clock runs, and left cleared when
    it does not. Playtime is unchanged when the entry is on the bench or has
    no timer set; a field entry without a timer gets one at the time of the
    call when the clock runs and keeps what it has when it does not. The
    drop handler itself issues no move for a drop on the bench or inactive
    zone the dragged player already is in. *)
Theorem same_location_move now gid pid loc pos gs e :
  entryAt gid pid gs = Some e → location e = loc →
  (∃ e', entryAt gid pid (movePlayerInGame now gid pid loc loc pos gs) = Some e'
     ∧ location e' = location e
     ∧ subbedOnCount e' = subbedOnCount e
     ∧ subbedOffCount e' = subbedOffCount e
     ∧ id e' = id e ∧ isStarter e' = isStarter e
     ∧ position e' = (if decide (loc = Field) then pos else None)
     ∧ (loc ≠ Field → playtimerStartTime e' = None)
     ∧ (loc = Bench ∨ truthy (playtimerStartTime e) = None →
        playtimeSeconds e' = playtimeSeconds e)
     ∧ (loc = Field → playtimerStartTime e = None → gameRunning gid gs = false →
        playtimerStartTime e' = None)
     ∧ (loc ≠ Bench → ∀ start, truthy (playtimerStartTime e) = Some start →
        playtimeSeconds e' = playtimeSeconds e + roundedInterval now start)
     ∧ (loc = Field → ∀ start, truthy (playtimerStartTime e) = Some start →
        playtimerStartTime e' = if gameRunning gid gs then Some now else None)
     ∧ (loc = Field → truthy (playtimerStartTime e) = None →
        playtimerStartTime e'
        = if gameRunning gid gs then Some (default now (playtimerStartTime e))
          else playtimerStartTime e))
  ∧ (∀ now1 now2 lineupCopy dims item x y s,
       loc ≠ Field → item_location item = loc →
       handleDropInGame now1 now2 lineupCopy dims item loc x y s = s).
Proof.
  intros He Hloc. split.
  - rewrite entryAt_move, decide_True, He by done. simpl. eexists. split; [done|].
    unfold movePlayerState, leavingWithTimer. subst loc.
    destruct (location e), (truthy (playtimerStartTime e)) eqn:Ht,
      (gameRunning gid gs), (playtimerStartTime e) eqn:Hs;
      simpl in *; split_and!; try done; try (intros [?|?]; done);
      try (intros _ start [= <-]; by rewrite ?bank_roundedInterval);
      congruence.
  - intros now1 now2 lineupCopy dims item x y s Hf Hi.
    unfold handleDropInGame.
    destruct (pageGame s); [|done]. destruct (isPlanningSubs s); [done|].
    destruct (findPlayer _ _) as [[? ?]|]; [|done].
    rewrite Hi. by destruct loc.
Qed.

(** The entry ["x"] of the running sample game, on the field with its timer
    running since [t = 1000], is moved field to field at [t = 61000]: it
    stays on the field with its counters, takes the new position, is
    credited the 60 seconds and has its timer set anew. *)
Lemma same_location_move_witness :
  ∃ e', entryAt "g1" "x"
          (movePlayerInGame 61000 "g1" "x" Field Field (Some (at_ 50 50)) runningGames)
        = Some e'
    ∧ location e' = Field
    ∧ subbedOnCount e' = 0 ∧ subbedOffCount e' = 0
    ∧ position e' = Some (at_ 50 50)
    ∧ playtimeSeconds e' = 60
    ∧ playtimerStartTime e' = Some 61000.
Proof.
  destruct (same_location_move 61000 "g1" "x" Field (Some (at_ 50 50)) runningGames
              (fieldEntry "x" (at_ 20 30) (Some 1000)) eq_refl eq_refl)
    as [(e' & He' & Hl & Hon & Hoff & _ & _ & Hpos & _ & _ & _ & Hplay & Htimer & _) _].
  exists e'. split; [exact He'|]. split_and!.
  - exact Hl.
  - exact Hon.
  - exact Hoff.
  - exact Hpos.
  - rewrite (Hplay ltac:(discriminate) 1000 eq_refl). reflexivity.
  - rewrite (Htimer eq_refl 1000 eq_refl). reflexivity.
Defined.

(** ** C10: [movePlayerInGame] trusts the caller's [sourceLocation] *)

(** C10. The timer banking and the substitution counters of
    [movePlayerInGame] follow the [sourceLocation] argument, not the stored
    location of the entry: for every entry [e] found in the lineup, whatever
    its stored location and timer, a call with source ['bench'] and target
    ['field'] adds one to [subbedOnCount], and a call with source ['bench']
    leaves [playtimeSeconds] as it is (nothing is banked). *)
Theorem movePlayerInGame_follows_sourceLocation now gid pid gs e :
  entryAt gid pid gs = Some e →
  (∀ pos, ∃ e',
      entryAt gid pid (movePlayerInGame now gid pid Bench Field pos gs) = Some e'
      ∧ subbedOnCount e' = subbedOnCount e + 1)
  ∧ (∀ t pos, ∃ e',
      entryAt gid pid (movePlayerInGame now gid pid Bench t pos gs) = Some e'
      ∧ playtimeSeconds e' = playtimeSeconds e).
Proof.
  intros He. split; intros; rewrite entryAt_move, decide_True, He by done;
    simpl; eexists; (split; [done|]).
  - apply movePlayerState_bench_field.
  - apply movePlayerState_from_bench_playtime.
Qed.

(** The entry ["x"] is stored on the field with a timer running since
    [t = 1000]; at [t = 61000] a truthful move would bank 60 seconds. *)
Lemma movePlayerInGame_follows_sourceLocation_witness :
  (∀ pos, ∃ e',
      entryAt "g1" "x" (movePlayerInGame 61000 "g1" "x" Bench Field pos runningGames)
      = Some e'
      ∧ subbedOnCount e' = subbedOnCount (fieldEntry "x" (at_ 20 30) (Some 1000)) + 1)
  ∧ (∀ t pos, ∃ e',
      entryAt "g1" "x" (movePlayerInGame 61000 "g1" "x" Bench t pos runningGames)
      = Some e'
      ∧ playtimeSeconds e' = playtimeSeconds (fieldEntry "x" (at_ 20 30) (Some 1000))).
Proof.
  apply (movePlayerInGame_follows_sourceLocation 61000 "g1" "x" runningGames
           (fieldEntry "x" (at_ 20 30) (Some 1000))).
  reflexivity.
Defined.

(** * Further properties of the code *)

(** ** The clock: start, stop and finish compose *)

Lemma truthy_nonzero t : t ≠ 0 → truthy (Some t) = Some t.
Proof. intros H. simpl. by rewrite decide_False. Qed.

(** X1 ([startGameTimer], [stopGameTimer]).  Starting the clock of a game
    that is not finished at [t1] and stopping it at [t2] banks the same
    rounded interval for the game and for every entry that is on the field:
    a player who stays on the field is credited exactly the game time. An
    entry off the field without a timer gets nothing. *)
Theorem start_stop_cycle t1 t2 d tm gid gs i g pid e :
  findGame gid gs = Some (i, g) →
  flag (isExplicitlyFinished g) = false →
  entryAt gid pid gs = Some e →
  t1 ≠ 0 →
  ∃ g' e',
    findGame gid (stopGameTimer t2 gid (startGameTimer t1 d tm gid gs)) = Some (i, g')
    ∧ entryAt gid pid (stopGameTimer t2 gid (startGameTimer t1 d tm gid gs)) = Some e'
    ∧ timerStatus g' = Some Stopped
    ∧ timerStartTime g' = None
    ∧ timerElapsedSeconds g'
      = Some (default 0 (timerElapsedSeconds g) + roundedInterval t2 t1)
    ∧ (location e = Field →
       playtimeSeconds e' = playtimeSeconds e + roundedInterval t2 t1
       ∧ playtimerStartTime e' = None)
    ∧ (location e ≠ Field → truthy (playtimerStartTime e) = None →
       playtimeSeconds e' = playtimeSeconds e).
Proof.
  intros Hg Hfin He Ht1.
  assert (Hin : entryIn pid g = Some e) by (unfold entryAt in He; by rewrite Hg in He).
  destruct (findGame_lookup _ _ _ _ Hg) as [_ Hid].
  unfold stopGameTimer, startGameTimer, entryAt.
  rewrite !findGame_fmap by (intros; by repeat case_match).
  rewrite Hg. simpl.
  rewrite (bool_decide_eq_true_2 _ Hid), Hfin. simpl.
  rewrite (bool_decide_eq_true_2 _ Hid). simpl.
  destruct (decide (t1 = 0)) as [?|_]; [done|].
  eexists _, _. split; [done|].
  rewrite (entryIn_mapLineup (stopEntry t2) pid (startGame t1 d tm g))
    by auto using stopEntry_id.
  rewrite (entryIn_mapLineup (startEntry t1 _) pid g) by done.
  rewrite Hin. simpl. split; [done|].
  split_and!; try done.
  - by rewrite bank_roundedInterval.
  - intros Hl. unfold stopEntry, startEntry. simpl. rewrite Hl. simpl.
    rewrite decide_False by done. simpl. by rewrite bank_roundedInterval.
  - intros Hl Hno. unfold stopEntry, startEntry. simpl.
    rewrite (bool_decide_eq_false_2 _ Hl), Hno. by destruct (location e).
Qed.

Lemma start_stop_cycle_witness :
  ∃ g' e',
    findGame "g1" (stopGameTimer 61000 "g1"
                     (startGameTimer 1000 "2025-03-01" "10:00" "g1" freshGames))
    = Some (0%nat, g')
    ∧ entryAt "g1" "x" (stopGameTimer 61000 "g1"
                          (startGameTimer 1000 "2025-03-01" "10:00" "g1" freshGames))
      = Some e'
    ∧ timerStatus g' = Some Stopped
    ∧ timerStartTime g' = None
    ∧ timerElapsedSeconds g'
      = Some (default 0 (timerElapsedSeconds freshGame) + roundedInterval 61000 1000)
    ∧ (location (fieldEntry "x" (at_ 20 30) None) = Field →
       playtimeSeconds e'
       = playtimeSeconds (fieldEntry "x" (at_ 20 30) None) + roundedInterval 61000 1000
       ∧ playtimerStartTime e' = None)
    ∧ (location (fieldEntry "x" (at_ 20 30) None) ≠ Field →
       truthy (playtimerStartTime (fieldEntry "x" (at_ 20 30) None)) = None →
       playtimeSeconds e' = playtimeSeconds (fieldEntry "x" (at_ 20 30) None)).
Proof.
  apply (start_stop_cycle 1000 61000 "2025-03-01" "10:00" "g1" freshGames 0%nat
           freshGame "x" (fieldEntry "x" (at_ 20 30) None));
    (reflexivity || discriminate).
Defined.

(** X2 ([stopGameTimer]).  Stopping a clock a second time, at any later
    time, changes nothing: only the first stop banks. *)
Theorem stopGameTimer_idempotent t1 t2 gid gs :
  stopGameTimer t2 gid (stopGameTimer t1 gid gs) = stopGameTimer t1 gid gs.
Proof.
  unfold stopGameTimer. rewrite <-list_fmap_compose. apply list_fmap_ext.
  intros i g _. simpl.
  destruct (bool_decide (game_id g = gid)) eqn:Hid; simpl; [|by rewrite Hid].
  destruct (bool_decide (timerStatus g = Some Running)) eqn:Hr; simpl;
    [|by rewrite Hid, Hr].
  destruct (truthy (timerStartTime g)) eqn:Hs; simpl; [|by rewrite Hid, Hr, Hs].
  by rewrite Hid.
Qed.

(** X3 ([markGameAsFinished]).  Once a game is marked as finished,
    starting the clock, stopping it and marking the game as finished again
    all leave every game as it is. *)
Theorem finished_is_final now t d tm gid gs :
  startGameTimer t d tm gid (markGameAsFinished now gid gs)
  = markGameAsFinished now gid gs
  ∧ stopGameTimer t gid (markGameAsFinished now gid gs)
    = markGameAsFinished now gid gs
  ∧ markGameAsFinished t gid (markGameAsFinished now gid gs)
    = markGameAsFinished now gid gs.
Proof.
  unfold startGameTimer, stopGameTimer, markGameAsFinished.
  split_and!; rewrite <-list_fmap_compose; apply list_fmap_ext; intros i g _; simpl;
    destruct (bool_decide (game_id g = gid)) eqn:Hid; simpl; rewrite ?Hid; try done;
    repeat (case_match; simpl in * ); rewrite ?Hid, ?andb_false_r in *; done.
Qed.

Lemma stopEntry_no_timer now e :
  location e ≠ Bench → truthy (playtimerStartTime (stopEntry now e)) = None.
Proof.
  intros Hl. unfold stopEntry.
  destruct (truthy (playtimerStartTime e)) as [start|] eqn:Ht;
    destruct (location e); done.
Qed.

Lemma finishEntry_no_timer now e :
  location e ≠ Bench → truthy (playtimerStartTime (finishEntry now e)) = None.
Proof.
  intros Hl. unfold finishEntry.
  destruct (truthy (playtimerStartTime e)) as [start|] eqn:Ht;
    destruct (location e); done.
Qed.

(** X4 ([stopGameTimer], [markGameAsFinished]).  After the running clock
    of a game is stopped, or the running game is marked as finished, the
    clock no longer runs and no entry of the game that is on the field or
    inactive has a timer left: nobody keeps accruing time. (An entry on the
    bench is not looked at.) *)
Theorem stopping_leaves_no_timer now gid gs i g :
  findGame gid gs = Some (i, g) →
  timerStatus g = Some Running →
  truthy (timerStartTime g) ≠ None →
  (gameRunning gid (stopGameTimer now gid gs) = false
   ∧ ∀ pid e', entryAt gid pid (stopGameTimer now gid gs) = Some e' →
               location e' ≠ Bench → truthy (playtimerStartTime e') = None)
  ∧ (gameRunning gid (markGameAsFinished now gid gs) = false
     ∧ ∀ pid e', entryAt gid pid (markGameAsFinished now gid gs) = Some e' →
                 location e' ≠ Bench → truthy (playtimerStartTime e') = None).
Proof.
  intros Hg Hr Hs.
  destruct (findGame_lookup _ _ _ _ Hg) as [_ Hid].
  destruct (truthy (timerStartTime g)) as [start|] eqn:Hst; [clear Hs|done].
  unfold stopGameTimer, markGameAsFinished, gameRunning, entryAt.
  rewrite !findGame_fmap by (intros; by repeat case_match).
  rewrite Hg. simpl.
  rewrite (bool_decide_eq_true_2 _ Hid), (bool_decide_eq_true_2 _ Hr), Hst. simpl.
  split; (split; [done|]); intros pid e'.
  - rewrite (entryIn_mapLineup (stopEntry now) pid g) by auto using stopEntry_id.
    destruct (entryIn pid g) as [e|]; [simpl|done]. intros [= <-] Hl.
    apply stopEntry_no_timer.
    by destruct (clock_entry_functions_keep now true "" e (stopEntry now e)) as (<- & _);
      auto.
  - rewrite (entryIn_mapLineup (finishEntry now) pid g) by auto using finishEntry_id.
    destruct (entryIn pid g) as [e|]; [simpl|done]. intros [= <-] Hl.
    apply finishEntry_no_timer.
    by destruct (clock_entry_functions_keep now true "" e (finishEntry now e)) as (<- & _);
      auto.
Qed.

Lemma stopping_leaves_no_timer_witness :
  (gameRunning "g1" (stopGameTimer 61000 "g1" runningGames) = false
   ∧ ∀ pid e', entryAt "g1" pid (stopGameTimer 61000 "g1" runningGames) = Some e' →
               location e' ≠ Bench → truthy (playtimerStartTime e') = None)
  ∧ (gameRunning "g1" (markGameAsFinished 61000 "g1" runningGames) = false
     ∧ ∀ pid e', entryAt "g1" pid (markGameAsFinished 61000 "g1" runningGames) = Some e' →
                 location e' ≠ Bench → truthy (playtimerStartTime e') = None).
Proof.
  apply (stopping_leaves_no_timer 61000 "g1" runningGames 0%nat
           (sampleGame Running (Some 1000) 0
              [fieldEntry "x" (at_ 20 30) (Some 1000);
               fieldEntry "y" (at_ 60 70) (Some 1000);
               benchEntry "a"; benchEntry "b"]));
    (reflexivity || discriminate).
Defined.

(** ** Stopping the timer of one player *)

Lemma stopPlayerEntry_id now pid p : id (stopPlayerEntry now pid p) = id p.
Proof. unfold stopPlayerEntry. by repeat case_match. Qed.

Lemma stopPlayerEntry_other now pid p : id p ≠ pid → stopPlayerEntry now pid p = p.
Proof. intros H. unfold stopPlayerEntry. by rewrite bool_decide_eq_false_2. Qed.

Lemma entryIn_elem pid g e :
  entryIn pid g = Some e → ∃ l, lineup g = Some l ∧ e ∈ l ∧ id e = pid.
Proof.
  unfold entryIn. destruct (lineup g) as [l|]; [|done].
  destruct (findPlayer pid l) as [[j p]|] eqn:Hp; [|done]. intros [= <-].
  apply findPlayer_lookup in Hp as [Hp Hid].
  exists l. split_and!; [done| |done]. by eapply list_elem_of_lookup_2.
Qed.

(** X5 ([stopPlayerTimerInGame]).  The call acts on one entry only: in the
    game addressed, the entry of the named player has its timer banked if it
    is set (and is left alone otherwise); every other entry of every game is
    as before. *)
Theorem stopPlayerTimerInGame_effect now gid pid gid' q gs :
  entryAt gid' q (stopPlayerTimerInGame now gid pid gs)
  = if decide (gid' = gid ∧ q = pid)
    then stopPlayerEntry now pid <$> entryAt gid' q gs
    else entryAt gid' q gs.
Proof.
  assert (Hsame : ∀ g, lineup g = None ∨
            (∃ l, lineup g = Some l ∧
               existsb (fun p => bool_decide (id p = pid)
                                 && bool_decide (truthy (playtimerStartTime p) ≠ None)) l
               = false) →
            stopPlayerEntry now pid <$> entryIn q g = entryIn q g).
  { intros g Hg. destruct (entryIn q g) as [e|] eqn:He; [simpl|done]. f_equal.
    destruct (entryIn_elem _ _ _ He) as (l & Hl & Hin & Hid).
    destruct Hg as [?|(l' & Hl' & Hex)]; [congruence|].
    assert (l' = l) as -> by congruence.
    unfold stopPlayerEntry. case_bool_decide as Hp; [|done].
    destruct (truthy (playtimerStartTime e)) eqn:Ht; [|done].
    apply not_true_iff_false in Hex. destruct Hex.
    apply existsb_exists. exists e. split; [by apply list_elem_of_In|].
    rewrite (bool_decide_eq_true_2 _ Hp). simpl. apply bool_decide_eq_true. congruence. }
  unfold stopPlayerTimerInGame, entryAt.
  destruct (findGame gid gs) as [[gi g]|] eqn:Hg.
  2:{ case_decide as Hd; [|done]. destruct Hd as [-> ->]. by rewrite Hg. }
  destruct (findGame_lookup _ _ _ _ Hg) as [Hgl Hgid].
  destruct (lineup g) as [l|] eqn:Hl.
  2:{ case_decide as Hd; [|done]. destruct Hd as [-> ->]. rewrite Hg.
      symmetry. apply Hsame. by left. }
  destruct (existsb _ l) eqn:Hex.
  2:{ case_decide as Hd; [|done]. destruct Hd as [-> ->]. rewrite Hg.
      symmetry. apply Hsame. right. eauto. }
  unfold findGame in *.
  rewrite (list_find_insert_equiv _ gs gi g) by (done || by simpl).
  destruct (list_find (fun g0 => game_id g0 = gid') gs) as [[j h]|] eqn:Hj; simpl.
  2:{ case_decide as Hd; [|done]. by destruct Hd as [-> ->]. }
  apply list_find_Some in Hj as Hj'. destruct Hj' as (Hjl & Hh & _).
  destruct (decide (j = gi)) as [->|Hne]; simpl.
  - assert (h = g) as -> by congruence.
    rewrite (entryIn_mapLineup (stopPlayerEntry now pid) q g)
      by (by simpl; rewrite ?Hl || auto using stopPlayerEntry_id).
    destruct (decide (q = pid)) as [->|Hq].
    + by rewrite decide_True by (split; congruence).
    + rewrite decide_False by tauto.
      destruct (entryIn q g) as [e|] eqn:He; [simpl|done]. f_equal.
      destruct (entryIn_elem _ _ _ He) as (_ & _ & _ & Hid).
      apply stopPlayerEntry_other. congruence.
  - rewrite decide_False; [done|]. intros [-> _]. congruence.
Qed.

(** ** The roster: adding and deleting players *)

Section find_more.
Context {A : Type} (P : A → Prop) `{!∀ x, Decision (P x)}.

Lemma list_find_filter_snd (Q : A → Prop) `{!∀ x, Decision (Q x)} (l : list A) :
  (∀ x, P x → Q x) →
  snd <$> list_find P (filter Q l) = snd <$> list_find P l.
Proof.
  intros HPQ. induction l as [|x l IH]; [done|].
  destruct (decide (Q x)) as [HQ|HQ].
  - rewrite filter_cons_True by done. simpl.
    destruct (decide (P x)); [done|].
    rewrite <-!option_fmap_compose.
    etrans; [|etrans; [exact IH|]]; by destruct (list_find P _) as [[??]|].
  - rewrite filter_cons_False by done. simpl.
    rewrite decide_False by (intros ?; apply HQ; auto).
    rewrite IH. by destruct (list_find P l) as [[??]|].
Qed.

Lemma list_find_snoc_snd (l : list A) (x : A) :
  snd <$> list_find P (l ++ [x])
  = match list_find P l with
    | Some jy => Some jy.2
    | None => if decide (P x) then Some x else None
    end.
Proof.
  induction l as [|y l IH]; simpl.
  - by destruct (decide (P x)).
  - destruct (decide (P y)); [done|].
    rewrite <-option_fmap_compose.
    etrans; [|etrans; [exact IH|]]; [by destruct (list_find P _) as [[??]|]|].
    by destruct (list_find P l) as [[??]|].
Qed.

Lemma list_find_filter_out (Q : A → Prop) `{!∀ x, Decision (Q x)} (l : list A) :
  (∀ x, P x → ¬ Q x) → list_find P (filter Q l) = None.
Proof.
  intros HPQ. apply list_find_None, Forall_forall.
  intros x [HQ _]%list_elem_of_filter HP. by apply (HPQ x).
Qed.
End find_more.

(** X6 ([deletePlayer]).  Deleting a player cascades: the player is gone
    from the roster, from the lineup of every game and from every saved
    lineup, and the entry of every other player in every game is as
    before. *)
Theorem deletePlayer_cascade pid s :
  (pid ∉ player_id <$> roster (deletePlayer pid s))
  ∧ (∀ gid, entryAt gid pid (teamGames (deletePlayer pid s)) = None)
  ∧ (∀ sl, sl ∈ savedLineups (deletePlayer pid s) →
           pid ∉ structure_id <$> saved_players sl)
  ∧ (∀ gid q, q ≠ pid →
       entryAt gid q (teamGames (deletePlayer pid s)) = entryAt gid q (teamGames s)).
Proof.
  split_and!.
  - simpl. intros (p & Hp & Hin)%list_elem_of_fmap.
    by apply list_elem_of_filter in Hin as [Hne _].
  - intros gid. simpl. unfold entryAt.
    rewrite findGame_fmap by done.
    destruct (findGame gid (teamGames s)) as [[i g]|]; [simpl|done].
    unfold entryIn. simpl. destruct (lineup g) as [l|]; [|done].
    unfold findPlayer. by rewrite list_find_filter_out by (intros x -> H; by apply H).
  - simpl. intros sl (sl0 & -> & _)%list_elem_of_fmap. simpl.
    intros (p & Hp & Hin)%list_elem_of_fmap.
    by apply list_elem_of_filter in Hin as [Hne _].
  - intros gid q Hq. simpl. unfold entryAt.
    rewrite findGame_fmap by done.
    destruct (findGame gid (teamGames s)) as [[i g]|]; [simpl|done].
    unfold entryIn. simpl. destruct (lineup g) as [l|]; [|done].
    unfold findPlayer. apply list_find_filter_snd. by intros x ->.
Qed.

Lemma newLineupEntry_ok i : positionOk (newLineupEntry i) = true.
Proof. done. Qed.

(** X7 ([addPlayer]).  Adding a player leaves every existing lineup entry
    as it is and, in each game that has a lineup without that id, adds one
    entry for the new player: on the bench, no position, no playtime, no
    timer, not a starter, counters at zero. The position invariant of the
    lineups is kept. *)
Theorem addPlayer_appends newId f l n currentPlayers s gid i g :
  findGame gid (teamGames s) = Some (i, g) →
  is_Some (lineup g) →
  (∀ q e, entryAt gid q (teamGames s) = Some e →
          entryAt gid q (teamGames (addPlayer newId f l n currentPlayers s)) = Some e)
  ∧ (entryAt gid newId (teamGames s) = None →
     entryAt gid newId (teamGames (addPlayer newId f l n currentPlayers s))
     = Some (newLineupEntry newId))
  ∧ (gamesOk (teamGames s) = true →
     gamesOk (teamGames (addPlayer newId f l n currentPlayers s)) = true).
Proof.
  intros Hg [l0 Hl]. simpl. unfold entryAt.
  rewrite findGame_fmap by done. rewrite Hg. simpl.
  unfold entryIn. simpl. rewrite Hl. unfold findPlayer.
  split_and!.
  - intros q e He. rewrite list_find_snoc_snd.
    destruct (list_find _ l0) as [[j y]|]; [done|done].
  - intros He. rewrite list_find_snoc_snd.
    destruct (list_find _ l0) as [[j y]|]; [done|]. simpl. by rewrite decide_True.
  - intros Hok. apply gamesOk_Forall. apply gamesOk_Forall in Hok.
    apply Forall_fmap. eapply Forall_impl; [exact Hok|].
    intros g0 H0 l1. simpl. destruct (lineup g0) as [l2|] eqn:Hl2.
    + intros [= <-]. apply Forall_app. split; [by apply H0|].
      by apply Forall_singleton.
    + intros [= <-]. apply createDefaultLineup_ok.
Qed.

Lemma addPlayer_appends_witness :
  (∀ q e, entryAt "g1" q (teamGames sampleTeam) = Some e →
          entryAt "g1" q (teamGames (addPlayer "c" "Cleo" "C" "7" sampleRoster sampleTeam))
          = Some e)
  ∧ (entryAt "g1" "c" (teamGames sampleTeam) = None →
     entryAt "g1" "c" (teamGames (addPlayer "c" "Cleo" "C" "7" sampleRoster sampleTeam))
     = Some (newLineupEntry "c"))
  ∧ (gamesOk (teamGames sampleTeam) = true →
     gamesOk (teamGames (addPlayer "c" "Cleo" "C" "7" sampleRoster sampleTeam)) = true).
Proof.
  apply (addPlayer_appends "c" "Cleo" "C" "7" sampleRoster sampleTeam "g1" 0%nat freshGame).
  - reflexivity.
  - by eexists.
Defined.

Lemma filter_all {A} (P : A → Prop) `{!∀ x, Decision (P x)} (l : list A) :
  Forall P l → filter P l = l.
Proof.
  induction 1 as [|x l Hx Hl IH]; [done|]. by rewrite filter_cons_True, IH.
Qed.

(** X8 ([addPlayer], [deletePlayer]).  [addPlayer] takes the roster it
    reads back from storage, not the roster of the state. So when the new id
    is in use nowhere (stored roster, lineups, saved lineups) and every game
    has a lineup, adding a player and deleting that id again leaves the games
    and the saved lineups as they were and the stored roster as roster: the
    state is given back exactly when the stored roster was the current
    one. *)
Theorem deletePlayer_addPlayer newId f l n currentPlayers s :
  Forall (fun g => ∃ l0, lineup g = Some l0 ∧ newId ∉ id <$> l0) (teamGames s) →
  newId ∉ player_id <$> currentPlayers →
  Forall (fun sl => newId ∉ structure_id <$> saved_players sl) (savedLineups s) →
  deletePlayer newId (addPlayer newId f l n currentPlayers s)
  = mkTeam currentPlayers (teamGames s) (savedLineups s)
  ∧ (deletePlayer newId (addPlayer newId f l n currentPlayers s) = s
     ↔ currentPlayers = roster s).
Proof.
  intros Hgs Hnew Hsaved.
  assert (Heq : deletePlayer newId (addPlayer newId f l n currentPlayers s)
                = mkTeam currentPlayers (teamGames s) (savedLineups s)).
  { unfold deletePlayer, addPlayer. simpl. f_equal.
    - rewrite filter_app, filter_cons_False, filter_nil, app_nil_r
        by (simpl; by intros H).
      apply filter_all, Forall_forall. intros p Hp Heq. apply Hnew. rewrite <-Heq.
      by apply list_elem_of_fmap_2.
    - rewrite <-list_fmap_compose. rewrite <-(list_fmap_id (teamGames s)) at 2.
      apply list_fmap_ext. intros i g Hg. simpl.
      destruct (Forall_lookup_1 _ _ _ _ Hgs Hg) as (l0 & Hl & Hfresh).
      rewrite Hl. rewrite filter_app, filter_cons_False, filter_nil, app_nil_r
        by (simpl; by intros H).
      rewrite filter_all.
      + destruct g. simpl in *. by subst.
      + apply Forall_forall. intros p Hp Heq. apply Hfresh. rewrite <-Heq.
        by apply list_elem_of_fmap_2.
    - rewrite <-(list_fmap_id (savedLineups s)) at 2.
      apply list_fmap_ext. intros i sl Hsl. simpl.
      pose proof (Forall_lookup_1 _ _ _ _ Hsaved Hsl) as Hfresh.
      rewrite filter_all; [by destruct sl|].
      apply Forall_forall. intros p Hp Heq. apply Hfresh. rewrite <-Heq.
      by apply list_elem_of_fmap_2. }
  split; [exact Heq|]. rewrite Heq. split.
  - intros <-. done.
  - intros ->. by destruct s.
Qed.

(** With the stored roster the current one, the sample team is given
    back. *)
Lemma deletePlayer_addPlayer_witness :
  deletePlayer "c" (addPlayer "c" "Cleo" "C" "7" sampleRoster sampleTeam) = sampleTeam.
Proof.
  destruct (deletePlayer_addPlayer "c" "Cleo" "C" "7" sampleRoster sampleTeam)
    as [_ [_ Hback]].
  - constructor; [|constructor]. eexists. split; [reflexivity|].
    intros H%list_elem_of_In. simpl in H. intuition discriminate.
  - intros H%list_elem_of_In. simpl in H. intuition discriminate.
  - constructor; [|constructor].
    intros H%list_elem_of_In. simpl in H. intuition discriminate.
  - apply Hback. reflexivity.
Defined.

(** With a stored roster that lags behind (here it is still empty), the
    same two calls leave the team without players. *)
Example deletePlayer_addPlayer_stale :
  roster (deletePlayer "c" (addPlayer "c" "Cleo" "C" "7" [] sampleTeam)) = []
  ∧ teamGames (deletePlayer "c" (addPlayer "c" "Cleo" "C" "7" [] sampleTeam))
    = teamGames sampleTeam.
Proof. split; reflexivity. Qed.

(** ** The global lineup *)

Lemma placed_id p l pos : player_id (placed p l pos) = player_id p.
Proof. done. Qed.

Lemma placed_same p : placed p (player_location p) (player_position p) = p.
Proof. by destruct p. Qed.

Lemma placed_placed p l pos l' pos' : placed (placed p l pos) l' pos' = placed p l' pos'.
Proof. done. Qed.

Lemma findInRoster_Some i ps p :
  findInRoster i ps = Some p → p ∈ ps ∧ player_id p = i.
Proof.
  unfold findInRoster. destruct (list_find _ ps) as [[k q]|] eqn:E; [|done].
  intros [= <-]. apply list_find_Some in E as (Hk & Hq & _).
  split; [by eapply list_elem_of_lookup_2|done].
Qed.

Lemma findInRoster_fmap (f : Player → Player) i ps :
  (∀ p, player_id (f p) = player_id p) →
  findInRoster i (f <$> ps) = f <$> findInRoster i ps.
Proof.
  intros Hf. unfold findInRoster. rewrite list_find_fmap.
  rewrite (list_find_ext _ (fun p => player_id p = i)).
  - by destruct (list_find _ ps) as [[??]|].
  - intros p. simpl. by rewrite Hf.
Qed.

Lemma roster_id_inj ps p q :
  NoDup (player_id <$> ps) → p ∈ ps → q ∈ ps → player_id p = player_id q → p = q.
Proof.
  intros Hnd (k & Hk)%list_elem_of_lookup_1 (j & Hj)%list_elem_of_lookup_1 Heq.
  assert (k = j) as ->; [|congruence].
  eapply NoDup_lookup; [done| |]; rewrite list_lookup_fmap; [by rewrite Hk|by rewrite Hj, Heq].
Qed.

(** X9 ([swapPlayers], global lineup).  Swapping is symmetric in its two
    arguments: [swapPlayers a b] and [swapPlayers b a] give the same
    roster. *)
Theorem swapPlayers_sym a b ps : swapPlayers a b ps = swapPlayers b a ps.
Proof.
  unfold swapPlayers.
  destruct (findInRoster a ps) as [p1|] eqn:E1,
           (findInRoster b ps) as [p2|] eqn:E2; try done.
  destruct (decide (a = b)) as [->|Hab].
  { rewrite E1 in E2. by injection E2 as ->. }
  rewrite (andb_comm (bool_decide (player_location p2 = Field))).
  destruct (bool_decide (player_location p1 = Field)
            && bool_decide (player_location p2 = Field)) eqn:Hff; cbv zeta.
  - apply list_fmap_ext. intros _ p _.
    repeat case_bool_decide; try done; congruence.
  - destruct (decide (player_location p1 = player_location p2)) as [Heq|Hne].
    + rewrite !bool_decide_eq_false_2; [done| |]; intros ?; congruence.
    + rewrite !bool_decide_eq_true_2 by congruence.
      apply list_fmap_ext. intros _ p _.
      repeat case_bool_decide; try done; congruence.
Qed.

(** X10 ([swapPlayers], global lineup).  On a roster whose ids are pairwise
    distinct, swapping the same two players twice gives the roster back. *)
Theorem swapPlayers_involutive a b ps :
  NoDup (player_id <$> ps) → swapPlayers a b (swapPlayers a b ps) = ps.
Proof.
  intros Hnd. unfold swapPlayers.
  destruct (findInRoster a ps) as [p1|] eqn:E1; [|by rewrite E1].
  destruct (findInRoster b ps) as [p2|] eqn:E2; [|by rewrite E1, E2].
  pose proof (findInRoster_Some _ _ _ E1) as [Hin1 Hid1].
  pose proof (findInRoster_Some _ _ _ E2) as [Hin2 Hid2].
  assert (Hsame : ∀ p, p ∈ ps → player_id p = a → p = p1).
  { intros p Hp Hp'. eapply roster_id_inj; eauto. congruence. }
  assert (Hsame' : ∀ p, p ∈ ps → player_id p = b → p = p2).
  { intros p Hp Hp'. eapply roster_id_inj; eauto. congruence. }
  cbv zeta.
  destruct (bool_decide (player_location p1 = Field)
            && bool_decide (player_location p2 = Field)) eqn:Hff.
  - apply andb_prop in Hff as [Hf1%bool_decide_eq_true_1 Hf2%bool_decide_eq_true_1].
    rewrite !findInRoster_fmap, E1, E2 by (intros; by repeat case_bool_decide).
    simpl. rewrite (bool_decide_eq_true_2 (player_id p1 = a)) by done.
    assert (Hloc2 : player_location
              (if bool_decide (player_id p2 = a)
               then placed p2 (player_location p2) (player_position p2)
               else if bool_decide (player_id p2 = b)
                    then placed p2 (player_location p2) (player_position p1)
                    else p2) = Field) by (by repeat case_bool_decide).
    simpl. rewrite Hf1, Hloc2. simpl.
    rewrite <-list_fmap_compose. rewrite <-(list_fmap_id ps) at 2.
    apply list_fmap_ext. intros k p Hp%list_elem_of_lookup_2. simpl.
    destruct (decide (player_id p = a)) as [Ha|Ha].
    + rewrite (bool_decide_eq_true_2 _ Ha). simpl.
      rewrite (bool_decide_eq_true_2 _ Ha). simpl.
      rewrite (Hsame p Hp Ha) in *.
      destruct (decide (player_id p2 = a)) as [Hba|Hba].
      * rewrite (bool_decide_eq_true_2 _ Hba). simpl.
        rewrite (Hsame p2 Hin2 Hba). simpl. rewrite ?placed_placed. apply placed_same.
      * rewrite (bool_decide_eq_false_2 _ Hba), (bool_decide_eq_true_2 _ Hid2).
        simpl. rewrite ?placed_placed. apply placed_same.
    + rewrite (bool_decide_eq_false_2 _ Ha).
      destruct (decide (player_id p = b)) as [Hb|Hb].
      * rewrite (bool_decide_eq_true_2 _ Hb). simpl.
        rewrite (bool_decide_eq_false_2 _ Ha), (bool_decide_eq_true_2 _ Hb).
        simpl. rewrite (Hsame' p Hp Hb). simpl. rewrite ?placed_placed. apply placed_same.
      * rewrite (bool_decide_eq_false_2 _ Hb).
        by rewrite bool_decide_eq_false_2, bool_decide_eq_false_2.
  - destruct (decide (player_location p1 = player_location p2)) as [Heq|Hne].
    + rewrite (bool_decide_eq_false_2 (player_location p1 ≠ player_location p2))
        by (intros ?; done).
      by rewrite E1, E2, Hff, bool_decide_eq_false_2 by (intros ?; done).
    + rewrite (bool_decide_eq_true_2 _ Hne).
      assert (Hab : a ≠ b).
      { intros ->. rewrite E1 in E2. by injection E2 as ->. }
      rewrite !findInRoster_fmap, E1, E2 by (intros; by repeat case_bool_decide).
      simpl. rewrite (bool_decide_eq_true_2 (player_id p1 = a)) by done.
      rewrite (bool_decide_eq_false_2 (player_id p2 = a)) by congruence.
      rewrite (bool_decide_eq_true_2 (player_id p2 = b)) by done.
      simpl. rewrite (andb_comm (bool_decide (player_location p2 = Field))), Hff.
      rewrite (bool_decide_eq_true_2 (player_location p2 ≠ player_location p1))
        by congruence.
      rewrite <-list_fmap_compose. rewrite <-(list_fmap_id ps) at 2.
      apply list_fmap_ext. intros k p Hp%list_elem_of_lookup_2. simpl.
      destruct (decide (player_id p = a)) as [Ha|Ha].
      * rewrite (bool_decide_eq_true_2 _ Ha). simpl.
        rewrite (bool_decide_eq_true_2 _ Ha).
        rewrite (Hsame p Hp Ha). simpl. rewrite ?placed_placed. apply placed_same.
      * rewrite (bool_decide_eq_false_2 _ Ha).
        destruct (decide (player_id p = b)) as [Hb|Hb].
        -- rewrite (bool_decide_eq_true_2 _ Hb). simpl.
           rewrite (bool_decide_eq_false_2 _ Ha), (bool_decide_eq_true_2 _ Hb).
           rewrite (Hsame' p Hp Hb). simpl. rewrite ?placed_placed. apply placed_same.
        -- rewrite (bool_decide_eq_false_2 _ Hb).
           by rewrite bool_decide_eq_false_2, bool_decide_eq_false_2.
Qed.

Lemma swapPlayers_involutive_witness :
  NoDup (player_id <$> sampleRoster)
  ∧ swapPlayers "x" "a" (swapPlayers "x" "a" sampleRoster) = sampleRoster.
Proof.
  assert (Hnd : NoDup (player_id <$> sampleRoster)).
  { simpl. repeat (apply NoDup_cons_2;
      [intros Hin%list_elem_of_In; simpl in Hin; intuition discriminate|]).
    apply NoDup_nil_2. }
  split; [exact Hnd|]. exact (swapPlayers_involutive "x" "a" sampleRoster Hnd).
Defined.

Example swapPlayers_sample :
  (fun p => (player_id p, player_location p)) <$> swapPlayers "x" "a" sampleRoster
  = [("x", Bench); ("y", Field); ("a", Field); ("b", Bench)]%string.
Proof. reflexivity. Qed.

(** ** Saved lineups *)

Lemma mapGet_mapSet {V} k k' (v : V) m :
  mapGet k' (mapSet k v m) = if decide (k = k') then Some v else mapGet k' m.
Proof.
  induction m as [|[k0 v0] m IH]; simpl.
  - by destruct (decide (k = k')).
  - destruct (decide (k0 = k)) as [->|Hne]; simpl.
    + by destruct (decide (k = k')).
    + rewrite IH. destruct (decide (k0 = k')) as [->|]; [|done].
      by rewrite decide_False.
Qed.

Lemma newMap_snoc {V} (l : list (string * V)) kv :
  newMap (l ++ [kv]) = mapSet kv.1 kv.2 (newMap l).
Proof. unfold newMap. by rewrite fold_left_app. Qed.

Lemma mapGet_newMap {V} (l : list (string * V)) k v :
  NoDup (fst <$> l) → (k, v) ∈ l → mapGet k (newMap l) = Some v.
Proof.
  induction l as [|[k0 v0] l IH] using rev_ind; [by intros _ ?%elem_of_nil|].
  rewrite fmap_app, NoDup_app, newMap_snoc, mapGet_mapSet. simpl.
  intros (Hnd & Hfresh & _) [Hin|Hin%list_elem_of_singleton]%elem_of_app.
  - rewrite decide_False; [by apply IH|].
    intros ->. apply (Hfresh k); [|by left].
    by apply (list_elem_of_fmap_2 fst _ (k, v)).
  - injection Hin as -> ->. by rewrite decide_True.
Qed.

Lemma mapGet_newMap_None {V} (l : list (string * V)) k :
  k ∉ fst <$> l → mapGet k (newMap l) = None.
Proof.
  induction l as [|[k0 v0] l IH] using rev_ind; [done|].
  rewrite fmap_app, not_elem_of_app, newMap_snoc, mapGet_mapSet. simpl.
  intros [Hl Hk]. apply not_elem_of_cons in Hk as [Hk _].
  rewrite decide_False by done. auto.
Qed.

Section saved_lineups_facts.
Variable trim : string → string.

Lemma saveLineup_find name ps prev :
  trim name ≠ ""%string →
  snd <$> list_find (fun l => saved_name l = trim name) (saveLineup trim name ps prev)
  = Some (mkSavedLineup (trim name) (structureOf <$> ps)).
Proof.
  intros Hne. unfold saveLineup. rewrite decide_False by done. cbv zeta. simpl.
  rewrite list_find_snoc_snd, list_find_filter_out by (intros x HP HQ; exact (HQ HP)).
  by rewrite decide_True.
Qed.

(** X11 ([saveLineup], [loadLineup]).  Saving the lineup under a name that
    is not blank and loading it again by its trimmed name, after the same
    players have been placed in any other way, succeeds and gives back the
    saved roster, provided the ids of the roster are pairwise distinct. *)
Theorem saveLineup_loadLineup name ps prev cur :
  trim name ≠ ""%string →
  NoDup (player_id <$> ps) →
  samePlayers cur ps →
  loadLineup (trim name) (saveLineup trim name ps prev) cur = (true, ps).
Proof.
  intros Hne Hnd Hcur. unfold loadLineup.
  rewrite saveLineup_find by done. cbv zeta. simpl. f_equal.
  rewrite <-list_fmap_compose.
  assert (HM : ∀ q, q ∈ ps →
    mapGet (player_id q)
      (newMap ((fun p => (structure_id p, (structure_location p, structure_position p)))
                 ∘ structureOf <$> ps))
    = Some (player_location q, player_position q)).
  { intros q Hq. apply mapGet_newMap.
    - rewrite <-list_fmap_compose.
      by rewrite (list_fmap_ext _ player_id ps) by done.
    - by apply (list_elem_of_fmap_2
        ((fun p => (structure_id p, (structure_location p, structure_position p)))
           ∘ structureOf)). }
  revert HM. generalize (newMap
    ((fun p => (structure_id p, (structure_location p, structure_position p)))
       ∘ structureOf <$> ps)). intros M.
  clear Hnd. induction Hcur as [|c q cur ps Hcq Hcur IH]; intros HM; [done|].
  rewrite fmap_cons, IH by (intros ??; apply HM; by right). f_equal.
  assert (player_id c = player_id q) as -> by (by rewrite <-Hcq).
  by rewrite HM by left.
Qed.

Lemma loadLineup_find n l l' cur :
  snd <$> list_find (fun s => saved_name s = n) l
  = snd <$> list_find (fun s => saved_name s = n) l' →
  loadLineup n l cur = loadLineup n l' cur.
Proof. unfold loadLineup. by intros ->. Qed.

(** X12 ([saveLineup]).  Saving keeps the store of saved lineups well
    formed (names pairwise distinct, none empty) and leaves the lineup saved
    under any other name as it was. *)
Theorem saveLineup_store name ps prev :
  savedOk prev →
  savedOk (saveLineup trim name ps prev)
  ∧ ∀ n cur, n ≠ trim name →
      loadLineup n (saveLineup trim name ps prev) cur = loadLineup n prev cur.
Proof.
  intros [Hnd Hne]. unfold saveLineup.
  destruct (decide (trim name = ""%string)) as [Hblank|Hblank]; [done|].
  cbv zeta. simpl. split; [split|].
  - rewrite fmap_app. apply NoDup_app. split_and!.
    + eapply sublist_NoDup; first [exact Hnd | apply fmap_sublist, sublist_filter].
    + intros n (s & -> & [Hs _]%list_elem_of_filter)%list_elem_of_fmap.
      simpl. intros Heq%list_elem_of_singleton. done.
    + simpl. apply NoDup_singleton.
  - apply Forall_app. split.
    { rewrite Forall_forall in Hne |- *.
      intros s [_ Hs]%list_elem_of_filter. by apply Hne. }
    by apply Forall_singleton.
  - intros n cur Hn. apply loadLineup_find.
    rewrite list_find_snoc_snd.
    rewrite <-(list_find_filter_snd (fun s => saved_name s = n)
                 (fun l => saved_name l ≠ trim name) prev) by (by intros x ->).
    simpl. rewrite decide_False by done.
    by destruct (list_find _ (filter _ prev)) as [[??]|].
Qed.
End saved_lineups_facts.

(** X13 ([deleteLineup], [loadLineup]).  After a saved lineup is deleted,
    loading it by that name fails and leaves the roster alone; the lineup
    saved under any other name loads as before. *)
Theorem deleteLineup_loadLineup name l cur :
  loadLineup name (deleteLineup name l) cur = (false, cur)
  ∧ ∀ n, n ≠ name → loadLineup n (deleteLineup name l) cur = loadLineup n l cur.
Proof.
  split.
  - unfold loadLineup, deleteLineup.
    by rewrite list_find_filter_out by (intros x HP HQ; exact (HQ HP)).
  - intros n Hn. apply loadLineup_find. unfold deleteLineup.
    apply list_find_filter_snd. by intros x ->.
Qed.

Lemma saveLineup_store_witness :
  savedOk (savedLineups sampleTeam)
  ∧ savedOk (saveLineup (fun s => s) "cd" sampleRoster (savedLineups sampleTeam))
  ∧ ∀ n cur, n ≠ (fun s : string => s) "cd"%string →
      loadLineup n (saveLineup (fun s => s) "cd" sampleRoster (savedLineups sampleTeam)) cur
      = loadLineup n (savedLineups sampleTeam) cur.
Proof.
  assert (Hok : savedOk (savedLineups sampleTeam)).
  { split; simpl.
    - apply NoDup_singleton.
    - by apply Forall_singleton. }
  split; [exact Hok|].
  exact (saveLineup_store (fun s => s) "cd" sampleRoster (savedLineups sampleTeam) Hok).
Defined.

Lemma saveLineup_loadLineup_witness :
  (fun s : string => s) "ab"%string ≠ ""%string
  ∧ NoDup (player_id <$> sampleRoster)
  ∧ samePlayers (resetLineup sampleRoster) sampleRoster
  ∧ loadLineup "ab"
      (saveLineup (fun s => s) "ab" sampleRoster (savedLineups sampleTeam))
      (resetLineup sampleRoster)
    = (true, sampleRoster).
Proof.
  assert (Hne : (fun s : string => s) "ab"%string ≠ ""%string) by done.
  assert (Hnd : NoDup (player_id <$> sampleRoster)).
  { simpl. repeat (apply NoDup_cons_2;
      [intros Hin%list_elem_of_In; simpl in Hin; intuition discriminate|]).
    apply NoDup_nil_2. }
  assert (Hsame : samePlayers (resetLineup sampleRoster) sampleRoster).
  { unfold samePlayers. simpl. repeat constructor. }
  split_and!; [done..|].
  exact (saveLineup_loadLineup (fun s => s) "ab" sampleRoster
           (savedLineups sampleTeam) (resetLineup sampleRoster) Hne Hnd Hsame).
Defined.

(** ** Drops on the field stay on the field *)

Lemma dropPercent_range rel size : (0 <= dropPercent rel size <= 100)%Q.
Proof.
  unfold dropPercent, Math_max, Math_min.
  destruct (Qle_bool (rel / size * 100) 100) eqn:E1;
    destruct (Qle_bool 0 _) eqn:E2;
    rewrite ?Qle_bool_iff in *; split; try done; try apply Qle_refl.
  all: apply Qlt_le_weak, Qnot_le_lt; intros H%Qle_bool_iff; congruence.
Qed.

Lemma movePlayerInGame_range now gid pid s t pos gs :
  inRange pos → RangeOk gs → RangeOk (movePlayerInGame now gid pid s t pos gs).
Proof.
  intros Hpos Hgs. unfold movePlayerInGame.
  destruct (findGame gid gs) as [[gi game]|] eqn:Hg; [|done].
  destruct (lineup game) as [l|] eqn:Hl; [|done].
  destruct (findPlayer pid l) as [[pi e]|]; [|done].
  apply Forall_insert; [done|]. intros l' [= <-].
  apply findGame_lookup in Hg as [Hg _].
  apply Forall_insert; [exact (Forall_lookup_1 _ _ _ _ Hgs Hg l Hl)|].
  simpl. by case_bool_decide.
Qed.

(** X14 ([DropZone], [handleDropInGame]).  Field positions are percentages:
    when every position stored in the games and in the page's copy of the
    lineup lies in [0, 100] on both axes, it still does after a drop on any
    of the page's zones, wherever the pointer was released. *)
Theorem dropOnZone_range now1 now2 copy dims zone rect drop item s :
  Forall (fun e => inRange (position e)) copy →
  RangeOk (games s) →
  RangeOk (games (dropOnZone now1 now2 copy dims zone rect drop item s)).
Proof.
  intros Hcopy Hgs. unfold dropOnZone.
  destruct (dropZoneDrop zone rect drop item) as [[[item' x] y]|] eqn:Hd; [|done].
  assert (Hxy : zone = Field →
            ∃ x' y', x = Some x' ∧ y = Some y'
                     ∧ inRange (Some (Position.mk x' y'))).
  { intros ->. unfold dropZoneDrop in Hd.
    destruct rect as [r|]; [|done]. destruct drop as [d|]; [|done].
    destruct (_ && _); [|done]. cbv zeta in Hd. injection Hd as _ <- <-.
    eexists _, _. split_and!; [done..|]. split; apply dropPercent_range. }
  unfold handleDropInGame.
  destruct (pageGame s) as [game|]; [|done].
  destruct (isPlanningSubs s); [done|].
  destruct (findPlayer (item_id item') copy) as [[i moved]|] eqn:Hm; [|done].
  apply findPlayer_lookup in Hm as [Hm _].
  pose proof (Forall_lookup_1 _ _ _ _ Hcopy Hm) as Hmoved.
  destruct zone.
  - destruct (Hxy eq_refl) as (x' & y' & -> & -> & Hin).
    destruct (List.find _ _) as [target|]; simpl.
    + destruct (findPlayer (id target) copy) as [[j replaced]|] eqn:Hr; [simpl|done].
      apply findPlayer_lookup in Hr as [Hr _].
      pose proof (Forall_lookup_1 _ _ _ _ Hcopy Hr) as Hreplaced.
      apply movePlayerInGame_range; [done|].
      apply movePlayerInGame_range; [|done]. by case_bool_decide.
    + by apply movePlayerInGame_range.
  - case_bool_decide; [simpl|done]. by apply movePlayerInGame_range.
  - case_bool_decide; [simpl|done]. by apply movePlayerInGame_range.
Qed.

Lemma dropOnZone_range_witness :
  Forall (fun e => inRange (position e)) sampleCopy
  ∧ RangeOk (games samplePage)
  ∧ RangeOk (games (dropOnZone 5000 5001 sampleCopy (200, 400)%Q Field
               (Some (mkRect 0 0 200 400)) (Some (at_ (-50) 1000))
               (mkDragItem "a" Bench None) samplePage)).
Proof.
  assert (Hcopy : Forall (fun e => inRange (position e)) sampleCopy).
  { repeat apply Forall_cons_2; try apply Forall_nil_2; simpl; try done;
      repeat split; vm_compute; discriminate. }
  assert (Hgs : RangeOk (games samplePage)).
  { apply Forall_cons_2; [|apply Forall_nil_2]. by intros l [= <-]. }
  split_and!; [done..|].
  exact (dropOnZone_range 5000 5001 sampleCopy (200, 400)%Q Field
           (Some (mkRect 0 0 200 400)) (Some (at_ (-50) 1000))
           (mkDragItem "a" Bench None) samplePage Hcopy Hgs).
Defined.

(** A release far outside the field is stored at the nearest edge. *)
Example dropOnZone_outside :
  (fun e => (location e, position e)) <$>
    entryAt "g1" "a"
      (games (dropOnZone 5000 5001 sampleCopy (200, 400)%Q Field
                (Some (mkRect 0 0 200 400)) (Some (at_ (-50) 1000))
                (mkDragItem "a" Bench None) samplePage))
  = Some (Field, Some (at_ 0 100)).
Proof. reflexivity. Qed.

(** ** Lineups follow the roster *)

Lemma fmap_filter_comm {A B} (f : A → B) (P : B → Prop) `{!∀ y, Decision (P y)}
    (l : list A) :
  f <$> filter (fun x => P (f x)) l = filter P (f <$> l).
Proof.
  induction l as [|x l IH]; [done|]. rewrite fmap_cons.
  destruct (decide (P (f x))) as [HP|HP].
  - rewrite (filter_cons_True P), (filter_cons_True (fun x => P (f x))) by done.
    by rewrite fmap_cons, IH.
  - by rewrite (filter_cons_False P), (filter_cons_False (fun x => P (f x))) by done.
Qed.

Lemma lineupIds_withLineup g l (f : PlayerLineupState → PlayerLineupState) :
  lineup g = Some l → (∀ p, id (f p) = id p) →
  lineupIds (withLineup g (Some (f <$> l))) = lineupIds g.
Proof.
  intros Hl Hf. unfold lineupIds. simpl. rewrite Hl. f_equal.
  rewrite <-list_fmap_compose. apply list_fmap_ext. intros _ p _. apply Hf.
Qed.

Lemma lineupIds_mapLineup (F : Game → Game) f g :
  lineup (F g) = mapLineup f (lineup g) → (∀ p, id (f p) = id p) →
  lineupIds (F g) = lineupIds g.
Proof.
  intros HF Hf. unfold lineupIds. rewrite HF.
  destruct (lineup g) as [l|]; simpl; [|done]. f_equal.
  rewrite <-list_fmap_compose. apply list_fmap_ext. intros _ p _. apply Hf.
Qed.

Lemma lineupIds_apply now op gs :
  lineupIds <$> apply now op gs = lineupIds <$> gs.
Proof.
  destruct op as [g p s t pos|d t g|g|g|g p]; simpl.
  - unfold movePlayerInGame.
    destruct (findGame g gs) as [[gi game]|] eqn:Hg; [|done].
    destruct (lineup game) as [l|] eqn:Hl; [|done].
    destruct (findPlayer p l) as [[pi e]|] eqn:Hp; [|done].
    apply findGame_lookup in Hg as [Hg _]. apply findPlayer_lookup in Hp as [Hp _].
    rewrite list_fmap_insert. apply list_insert_id.
    rewrite list_lookup_fmap, Hg. simpl. f_equal.
    unfold lineupIds. simpl. rewrite Hl. f_equal.
    rewrite list_fmap_insert. symmetry. apply list_insert_id.
    by rewrite list_lookup_fmap, Hp.
  - unfold startGameTimer. rewrite <-list_fmap_compose. apply list_fmap_ext.
    intros _ g0 _. simpl. case_match; [|done].
    eapply (lineupIds_mapLineup (startGame now d t)); [reflexivity|done].
  - unfold stopGameTimer. rewrite <-list_fmap_compose. apply list_fmap_ext.
    intros _ g0 _. simpl. repeat case_match; try done.
    apply (lineupIds_mapLineup (fun g1 => withTimer g1 _ _ _ _) (stopEntry now));
      [done|]. apply stopEntry_id.
  - unfold markGameAsFinished. rewrite <-list_fmap_compose. apply list_fmap_ext.
    intros _ g0 _. simpl. repeat case_match; try done.
    apply (lineupIds_mapLineup (fun g1 => withTimer g1 _ _ _ _) (finishEntry now));
      [done|]. apply finishEntry_id.
  - unfold startPlayerTimerInGame. rewrite <-list_fmap_compose. apply list_fmap_ext.
    intros _ g0 _. simpl. destruct (lineup g0) as [l|] eqn:Hl; [|done].
    repeat case_match; try done.
    apply lineupIds_withLineup; [done|]. apply startPlayerEntry_id.
Qed.

Lemma lineupIds_stopPlayerTimerInGame now g p gs :
  lineupIds <$> stopPlayerTimerInGame now g p gs = lineupIds <$> gs.
Proof.
  unfold stopPlayerTimerInGame.
  destruct (findGame g gs) as [[gi game]|] eqn:Hg; [|done].
  destruct (lineup game) as [l|] eqn:Hl; [|done].
  cbv zeta. case_match; [|done].
  apply findGame_lookup in Hg as [Hg _].
  rewrite list_fmap_insert. apply list_insert_id.
  rewrite list_lookup_fmap, Hg. simpl. f_equal. symmetry.
  apply lineupIds_withLineup; [done|]. apply stopPlayerEntry_id.
Qed.

Lemma FollowsRoster_ext s s' :
  lineupIds <$> teamGames s' = lineupIds <$> teamGames s →
  player_id <$> roster s' = player_id <$> roster s →
  FollowsRoster s → FollowsRoster s'.
Proof.
  unfold FollowsRoster. intros Hg -> Hs.
  change (Forall ((fun o => ∀ ids, o = Some ids → ids = player_id <$> roster s)
                    ∘ lineupIds) (teamGames s')).
  apply Forall_fmap. rewrite Hg. apply Forall_fmap. exact Hs.
Qed.

Lemma swapPlayers_ids a b ps : player_id <$> swapPlayers a b ps = player_id <$> ps.
Proof.
  unfold swapPlayers. repeat case_match; try done;
    rewrite <-list_fmap_compose; apply list_fmap_ext;
    intros _ ? _; simpl; by repeat case_bool_decide.
Qed.

Lemma loadLineup_ids name saved ps :
  player_id <$> (loadLineup name saved ps).2 = player_id <$> ps.
Proof.
  unfold loadLineup. case_match; [|done]. simpl.
  rewrite <-list_fmap_compose. apply list_fmap_ext.
  intros _ p _. simpl. by case_match.
Qed.

Lemma act_follows a s : readsRoster a s → FollowsRoster s → FollowsRoster (act a s).
Proof.
  intros Hread Hs.
  destruct a as [newId f l n cp|i|i u|p t pos|a b| |name|now g p|g|g h aw|a]; simpl.
  - simpl in Hread. unfold FollowsRoster, addPlayer. simpl.
    apply Forall_fmap. eapply Forall_impl; [exact Hs|].
    intros g Hg ids. unfold lineupIds. simpl.
    rewrite fmap_app. simpl. rewrite Hread.
    destruct (lineup g) as [l0|] eqn:Hl.
    + intros [= <-]. rewrite fmap_app. simpl. f_equal.
      apply Hg. unfold lineupIds. by rewrite Hl.
    + intros [= <-]. unfold createDefaultLineup.
      rewrite <-list_fmap_compose, fmap_app. simpl. by rewrite <-Hread.
  - unfold FollowsRoster, deletePlayer. simpl.
    apply Forall_fmap. eapply Forall_impl; [exact Hs|].
    intros g Hg ids. unfold lineupIds. simpl.
    destruct (lineup g) as [l0|] eqn:Hl; [|done].
    intros [= <-].
    etrans; [exact (fmap_filter_comm id (fun j => j ≠ i) l0)|].
    etrans; [|symmetry; exact (fmap_filter_comm player_id (fun j => j ≠ i) (roster s))].
    f_equal. apply Hg. unfold lineupIds. by rewrite Hl.
  - apply (FollowsRoster_ext s); [done| |done]. simpl. unfold updatePlayer.
    rewrite <-list_fmap_compose. apply list_fmap_ext.
    intros _ q _. simpl. by case_bool_decide.
  - apply (FollowsRoster_ext s); [done| |done]. simpl. unfold movePlayer.
    rewrite <-list_fmap_compose. apply list_fmap_ext.
    intros _ q _. simpl. by case_bool_decide.
  - apply (FollowsRoster_ext s); [done| |done]. apply swapPlayers_ids.
  - apply (FollowsRoster_ext s); [done| |done]. simpl. unfold resetLineup.
    by rewrite <-list_fmap_compose.
  - apply (FollowsRoster_ext s); [done| |done]. apply loadLineup_ids.
  - apply (FollowsRoster_ext s); [|done..]. apply lineupIds_stopPlayerTimerInGame.
  - unfold FollowsRoster, deleteGame in *. simpl.
    rewrite Forall_forall in Hs |- *.
    intros g0 [_ Hin]%list_elem_of_filter. by apply Hs.
  - apply (FollowsRoster_ext s); [|done..]. simpl. unfold updateGameScore.
    rewrite <-list_fmap_compose. apply list_fmap_ext.
    intros _ g0 _. simpl. by case_bool_decide.
  - destruct a as [now op|cp g].
    + apply (FollowsRoster_ext s); [|done..]. apply lineupIds_apply.
    + simpl in Hread. unfold FollowsRoster. simpl.
      apply Forall_fmap. eapply Forall_impl; [exact Hs|].
      intros g0 Hg ids. simpl. case_bool_decide; [|apply Hg].
      unfold lineupIds. simpl. intros [= <-]. unfold createDefaultLineup.
      by rewrite <-list_fmap_compose.
Qed.

(** X15 (the provider's calls).  When every lineup lists the players of the
    roster in the roster's order, it still does after any sequence of the
    provider's calls that add, edit, delete, place or swap players, drive the
    clock, move players in a game, reset a game's lineup, change a score or
    delete a game, as long as the roster read back from storage is the
    current one. *)
Theorem lineups_follow_roster acts :
  ∀ s, readAll acts s → FollowsRoster s → FollowsRoster (actAll acts s).
Proof.
  induction acts as [|a acts IH]; intros s Hread Hs; simpl in *; [done|].
  destruct Hread as [Ha Hrest]. apply IH; [done|]. by apply act_follows.
Qed.

Lemma lineups_follow_roster_witness :
  readAll sampleTeamActions sampleTeam
  ∧ FollowsRoster sampleTeam
  ∧ FollowsRoster (actAll sampleTeamActions sampleTeam).
Proof.
  assert (Hread : readAll sampleTeamActions sampleTeam).
  { simpl. repeat split; reflexivity. }
  assert (Hs : FollowsRoster sampleTeam).
  { apply Forall_cons_2; [|apply Forall_nil_2]. by intros ids [= <-]. }
  split_and!; [done..|].
  exact (lineups_follow_roster sampleTeamActions sampleTeam Hread Hs).
Defined.

Example sampleTeamActions_ids :
  (player_id <$> roster (actAll sampleTeamActions sampleTeam),
   lineupIds <$> teamGames (actAll sampleTeamActions sampleTeam))
  = (["x"; "a"; "b"; "c"], [Some ["x"; "a"; "b"; "c"]])%string.
Proof. reflexivity. Qed.

(** ** The page's copy of the lineup *)

Lemma filter_none {A} (P : A → Prop) `{!∀ x, Decision (P x)} (l : list A) :
  Forall (fun x => ¬ P x) l → filter P l = [].
Proof.
  induction 1 as [|x l Hx Hl IH]; [done|]. by rewrite filter_cons_False, IH.
Qed.

Lemma syncLineup_ids players gameLineup :
  id <$> syncLineup players gameLineup
  = filter (fun i => i ∈ player_id <$> players)
      (id <$> default (createDefaultLineup players) gameLineup)
    ++ filter (fun i => i ∉ id <$> default (createDefaultLineup players) gameLineup)
         (player_id <$> players).
Proof.
  unfold syncLineup. cbv zeta.
  replace (match gameLineup with
           | Some l => l
           | None => createDefaultLineup players
           end) with (default (createDefaultLineup players) gameLineup)
    by (by destruct gameLineup).
  generalize (default (createDefaultLineup players) gameLineup). intros init.
  rewrite <-list_fmap_compose, fmap_app. f_equal.
  - exact (fmap_filter_comm id (fun i => i ∈ player_id <$> players) init).
  - rewrite <-list_fmap_compose.
    exact (fmap_filter_comm player_id (fun i => i ∉ id <$> init) players).
Qed.

(** X16 (init/sync effect of the game page).  When the ids of the roster
    are pairwise distinct, and so are those of the game's lineup, the synced
    copy holds exactly the players of the roster, each once; so it is as long
    as the roster, which is what the effect tests before syncing again. *)
Theorem syncLineup_covers players gameLineup :
  NoDup (player_id <$> players) →
  (∀ l, gameLineup = Some l → NoDup (id <$> l)) →
  id <$> syncLineup players gameLineup ≡ₚ player_id <$> players
  ∧ length (syncLineup players gameLineup) = length players.
Proof.
  intros Hroster Hlineup.
  assert (Hinit : NoDup (id <$> default (createDefaultLineup players) gameLineup)).
  { destruct gameLineup as [l|]; simpl; [by apply Hlineup|].
    unfold createDefaultLineup. by rewrite <-list_fmap_compose. }
  assert (Hperm : id <$> syncLineup players gameLineup ≡ₚ player_id <$> players).
  { rewrite syncLineup_ids. revert Hinit.
    generalize (id <$> default (createDefaultLineup players) gameLineup).
    intros ids Hids. apply NoDup_Permutation; [|done|].
    - apply NoDup_app. split_and!; [by apply NoDup_filter| |by apply NoDup_filter].
      intros i [_ Hi]%list_elem_of_filter [Hi' _]%list_elem_of_filter. done.
    - intros i. rewrite elem_of_app, !list_elem_of_filter.
      destruct (decide (i ∈ ids)); tauto. }
  split; [done|].
  apply Permutation_length in Hperm. by rewrite !length_fmap in Hperm.
Qed.

Lemma syncLineup_covers_witness :
  NoDup (player_id <$> sampleRoster)
  ∧ (∀ l, Some [benchEntry "a"; fieldEntry "q" (at_ 1 2) None] = Some l → NoDup (id <$> l))
  ∧ id <$> syncLineup sampleRoster (Some [benchEntry "a"; fieldEntry "q" (at_ 1 2) None])
      ≡ₚ player_id <$> sampleRoster
  ∧ length (syncLineup sampleRoster (Some [benchEntry "a"; fieldEntry "q" (at_ 1 2) None]))
    = length sampleRoster.
Proof.
  assert (Hnd : NoDup (player_id <$> sampleRoster)).
  { simpl. repeat (apply NoDup_cons_2;
      [intros Hin%list_elem_of_In; simpl in Hin; intuition discriminate|]).
    apply NoDup_nil_2. }
  assert (Hl : ∀ l, Some [benchEntry "a"; fieldEntry "q" (at_ 1 2) None] = Some l
                    → NoDup (id <$> l)).
  { intros l [= <-]. simpl. repeat (apply NoDup_cons_2;
      [intros Hin%list_elem_of_In; simpl in Hin; intuition discriminate|]).
    apply NoDup_nil_2. }
  split; [exact Hnd|]. split; [exact Hl|].
  exact (syncLineup_covers sampleRoster _ Hnd Hl).
Defined.

Example syncLineup_sample :
  id <$> syncLineup sampleRoster (Some [benchEntry "a"; fieldEntry "q" (at_ 1 2) None])
  = ["a"; "x"; "y"; "b"]%string.
Proof. reflexivity. Qed.

(** X17 (init/sync effect of the game page).  For a lineup that lists the
    players of the roster in the roster's order, syncing drops and adds no
    entry: the copy is the game's lineup with every starter flag defined. *)
Theorem syncLineup_follows players l :
  id <$> l = player_id <$> players →
  syncLineup players (Some l) = validated <$> l.
Proof.
  intros Hids. unfold syncLineup. cbv zeta.
  rewrite filter_all, filter_none, app_nil_r; [done| |].
  - apply Forall_forall. intros p Hp Hnot. apply Hnot. rewrite Hids.
    by apply list_elem_of_fmap_2.
  - apply Forall_forall. intros e He. rewrite <-Hids.
    by apply list_elem_of_fmap_2.
Qed.

Lemma syncLineup_follows_witness :
  id <$> sampleCopy = player_id <$> sampleRoster
  ∧ syncLineup sampleRoster (Some sampleCopy) = validated <$> sampleCopy.
Proof.
  assert (Hids : id <$> sampleCopy = player_id <$> sampleRoster) by reflexivity.
  split; [exact Hids|]. exact (syncLineup_follows sampleRoster sampleCopy Hids).
Defined.

(** ** The markers of planning mode *)

Lemma mapGet_elem {V} k (v : V) m : mapGet k m = Some v → (k, v) ∈ m.
Proof.
  induction m as [|[k0 v0] m IH]; simpl; [done|].
  destruct (decide (k0 = k)) as [->|Hne].
  - intros [= ->]. by left.
  - intros Hm. right. auto.
Qed.

Lemma mapGet_NoDup {V} k (v : V) m :
  NoDup (fst <$> m) → (k, v) ∈ m → mapGet k m = Some v.
Proof.
  induction m as [|[k0 v0] m IH]; simpl; [by intros _ ?%elem_of_nil|].
  intros [Hk0 Hnd]%NoDup_cons [Heq|Hin]%elem_of_cons.
  - injection Heq as -> ->. by rewrite decide_True.
  - rewrite decide_False; [by apply IH|].
    intros ->. apply Hk0. by apply (list_elem_of_fmap_2 fst _ (k, v)).
Qed.

Lemma mapGet_newMap_elem {V} (l : list (string * V)) k v :
  mapGet k (newMap l) = Some v → (k, v) ∈ l.
Proof.
  induction l as [|[k0 v0] l IH] using rev_ind; [done|].
  rewrite newMap_snoc, mapGet_mapSet, elem_of_app. simpl.
  destruct (decide (k0 = k)) as [->|Hne].
  - intros [= ->]. right. by left.
  - intros Hm. left. auto.
Qed.

Lemma incoming_newMap m :
  fieldPlayerIdToIncomingBenchPlayerId m
  = newMap ((fun kv => (targetFieldPlayerId kv.2, kv.1)) <$> m).
Proof.
  unfold fieldPlayerIdToIncomingBenchPlayerId, newMap.
  generalize (@nil (string * string)).
  induction m as [|kv m IH]; intros acc; simpl; [done|]. apply IH.
Qed.

(** X18 ([fieldPlayerIdToIncomingBenchPlayerId], [handlePlanDrop]).  For
    every plan staged by drops from the empty one, the marker map is the
    inverse of the plan: it shows bench player [b] at field player [t]
    exactly when the plan sends [b] to the spot of [t]. *)
Theorem incoming_markers_inverse drops t b :
  let m := stageAll drops [] in
  mapGet t (fieldPlayerIdToIncomingBenchPlayerId m) = Some b
  ↔ ∃ pos, mapGet b m = Some (mkPlannedSwap t pos).
Proof.
  intros m.
  assert (Hm : NoDup (planKeys m) ∧ NoDup (planTargets m)).
  { apply stageAll_NoDup. split; constructor. }
  destruct Hm as [Hkeys Htargets]. unfold planKeys, planTargets in *.
  rewrite incoming_newMap. split.
  - intros ([k sw] & Heq & Hin)%mapGet_newMap_elem%list_elem_of_fmap.
    simpl in Heq. injection Heq as -> ->.
    exists (targetPosition sw). rewrite (mapGet_NoDup k sw m Hkeys Hin).
    by destruct sw.
  - intros [pos Hget%mapGet_elem]. apply mapGet_newMap.
    + by rewrite <-list_fmap_compose.
    + by apply (list_elem_of_fmap_2
                  (fun kv => (targetFieldPlayerId kv.2, kv.1)) _ (b, mkPlannedSwap t pos)).
Qed.

Example incoming_markers_sample :
  fieldPlayerIdToIncomingBenchPlayerId (plannedSwaps stagedPage)
  = [("x", "a"); ("y", "b")]%string.
Proof. reflexivity. Qed.

(** ** The clock button *)

(** X19 ([handleTimerClick]).  On a game that is not finished the clock
    button toggles the clock: a running clock (which has a start time) is
    stopped, never started again, and a stopped one is started, unless the
    user declines to start a future game. *)
Theorem handleTimerClick_toggles now d tm isFut confirmed s g :
  pageGame s = Some g →
  isFinished s = false →
  (timerStatus g = Some Running → truthy (timerStartTime g) ≠ None) →
  isFut = false ∨ confirmed = true →
  isRunning (handleTimerClick now d tm isFut confirmed s) = negb (isRunning s).
Proof.
  intros Hg Hfin Hstart Hgo. unfold handleTimerClick. rewrite Hg, Hfin.
  assert (Hflag : flag (isExplicitlyFinished g) = false).
  { unfold isFinished in Hfin. rewrite Hg in Hfin.
    apply bool_decide_eq_false in Hfin. by destruct (isExplicitlyFinished g) as [[]|]. }
  destruct (isRunning s) eqn:Hrun; simpl.
  - unfold isRunning in *. rewrite Hg in Hrun. apply bool_decide_eq_true in Hrun.
    unfold stopGameTimer. erewrite pageGame_fmap; [| |exact Hg].
    + simpl. rewrite (bool_decide_eq_true_2 (game_id g = game_id g)) by done.
      rewrite (bool_decide_eq_true_2 (timerStatus g = Some Running)) by done. simpl.
      destruct (truthy (timerStartTime g)) eqn:Ht; [done|]. by destruct Hstart.
    + intros g0. by repeat case_match.
  - replace (negb isFut || _ || confirmed) with true
      by (destruct Hgo as [-> | ->]; [done|]; by rewrite orb_true_r).
    unfold isRunning. unfold startGameTimer. erewrite pageGame_fmap; [| |exact Hg].
    + simpl. rewrite (bool_decide_eq_true_2 (game_id g = game_id g)), Hflag by done.
      done.
    + intros g0. by case_match.
Qed.

Lemma handleTimerClick_toggles_witness :
  pageGame samplePage = Some freshGame
  ∧ isFinished samplePage = false
  ∧ (timerStatus freshGame = Some Running → truthy (timerStartTime freshGame) ≠ None)
  ∧ (false = false ∨ false = true)
  ∧ isRunning (handleTimerClick 1000 "2025-03-01" "10:00" false false samplePage)
    = negb (isRunning samplePage).
Proof.
  assert (Hg : pageGame samplePage = Some freshGame) by reflexivity.
  assert (Hfin : isFinished samplePage = false) by reflexivity.
  assert (Hstart : timerStatus freshGame = Some Running
                   → truthy (timerStartTime freshGame) ≠ None) by (simpl; done).
  assert (Hgo : false = false ∨ false = true) by (left; reflexivity).
  split_and!; [done..|].
  exact (handleTimerClick_toggles 1000 "2025-03-01" "10:00" false false
           samplePage freshGame Hg Hfin Hstart Hgo).
Defined.

(** ** The timer display *)

Lemma timerMinutes_eq a b : timerMinutes (a # b) = a / (Z.pos b * 60).
Proof.
  unfold timerMinutes, Qfloor, Qdiv, Qmult, Qinv. simpl. f_equal; lia.
Qed.

Lemma timerSeconds_eq a b :
  0 ≤ a →
  timerSeconds (a # b)
  = (2 * (a - 60 * Z.pos b * (a / (Z.pos b * 60))) + Z.pos b) / (2 * Z.pos b).
Proof.
  intros Ha. unfold timerSeconds, JS_rem, Math_trunc, Math_round.
  assert (Hpos : Qle_bool 0 ((a # b) / 60) = true).
  { apply Qle_bool_iff. unfold Qle, Qdiv, Qmult, Qinv. simpl. lia. }
  rewrite Hpos. fold (timerMinutes (a # b)). rewrite timerMinutes_eq.
  set (m := a / (Z.pos b * 60)).
  assert (H : ((a # b) - 60 * inject_Z m + (1 # 2)
               == (2 * (a - 60 * Z.pos b * m) + Z.pos b) # (2 * b))%Q).
  { unfold Qeq, Qminus, Qplus, Qopp, Qmult, inject_Z. simpl. lia. }
  by rewrite (Qfloor_comp _ _ H).
Qed.

Lemma Math_round_eq a b : Math_round (a # b) = (2 * a + Z.pos b) / (2 * Z.pos b).
Proof.
  unfold Math_round.
  assert (H : ((a # b) + (1 # 2) == (2 * a + Z.pos b) # (2 * b))%Q).
  { unfold Qeq, Qplus. simpl. lia. }
  by rewrite (Qfloor_comp _ _ H).
Qed.

Lemma timerParts_Z a b :
  0 ≤ a →
  let B := Z.pos b in
  let r := a - 60 * B * (a / (B * 60)) in
  timerMinutes (a # b) = a / (B * 60)
  ∧ timerSeconds (a # b) = (2 * r + B) / (2 * B)
  ∧ 0 ≤ r < 60 * B.
Proof.
  intros Ha B r. rewrite timerSeconds_eq, timerMinutes_eq by done.
  split_and!; try done; unfold r.
  - pose proof (Z.mul_div_le a (B * 60)). lia.
  - pose proof (Z.mul_succ_div_gt a (B * 60)). lia.
Qed.

Lemma timerParts_sum q :
  (0 <= q)%Q → 60 * timerMinutes q + timerSeconds q = Math_round q.
Proof.
  destruct q as [a b]. intros Hq.
  assert (Ha : 0 ≤ a) by (unfold Qle in Hq; simpl in Hq; lia).
  destruct (timerParts_Z a b Ha) as (-> & -> & Hr). rewrite Math_round_eq.
  set (B := Z.pos b) in *. set (m := a / (B * 60)) in *.
  replace (2 * a + B) with (2 * (a - 60 * B * m) + B + 60 * m * (2 * B)) by lia.
  rewrite Z.div_add by lia. lia.
Qed.

(** X20 ([formatTimer]).  For a time that is not negative, the minutes and
    seconds printed add up to the time rounded to whole seconds, and the
    seconds part lies between 0 and 60; 60 itself is printed when the time
    is within half a second below a full minute. *)
Theorem formatTimer_parts q :
  (0 <= q)%Q →
  60 * timerMinutes q + timerSeconds q = Math_round q
  ∧ 0 ≤ timerSeconds q ≤ 60
  ∧ (timerSeconds q = 60 ↔ (inject_Z (60 * timerMinutes q) + (119 # 2) <= q)%Q).
Proof.
  intros Hq. split; [by apply timerParts_sum|].
  destruct q as [a b].
  assert (Ha : 0 ≤ a) by (unfold Qle in Hq; simpl in Hq; lia).
  destruct (timerParts_Z a b Ha) as (-> & -> & Hr).
  set (B := Z.pos b) in *. assert (HB : 0 < B) by (unfold B; lia).
  set (m := a / (B * 60)) in *. set (r := a - 60 * B * m) in *.
  assert (Hs : 0 ≤ (2 * r + B) / (2 * B) ≤ 60).
  { split; [apply Z.div_pos; lia|].
    apply Z.lt_succ_r, Z.div_lt_upper_bound; lia. }
  split; [exact Hs|].
  unfold Qle, Qplus, inject_Z. simpl. fold B. split.
  - intros H60.
    assert (60 * (2 * B) ≤ 2 * r + B); [|unfold r in *; lia].
    rewrite <-H60. rewrite Z.mul_comm. apply Z.mul_div_le. lia.
  - intros Hle.
    assert (60 ≤ (2 * r + B) / (2 * B)); [|lia].
    apply Z.div_le_lower_bound; [lia|]. unfold r. lia.
Qed.

Lemma formatTimer_parts_witness :
  (0 <= 596 # 10)%Q
  ∧ 60 * timerMinutes (596 # 10) + timerSeconds (596 # 10) = Math_round (596 # 10)
  ∧ 0 ≤ timerSeconds (596 # 10) ≤ 60
  ∧ (timerSeconds (596 # 10) = 60
     ↔ (inject_Z (60 * timerMinutes (596 # 10)) + (119 # 2) <= 596 # 10)%Q).
Proof.
  assert (Hq : (0 <= 596 # 10)%Q) by (vm_compute; discriminate).
  split; [exact Hq|]. exact (formatTimer_parts (596 # 10) Hq).
Defined.

(** 59.6 seconds are shown as a sixtieth second, 125 seconds as 02:05. *)
Example formatTimer_sample :
  formatTimer (596 # 10) = "00:60"%string ∧ formatTimer 125 = "02:05"%string.
Proof. split; reflexivity. Qed.

(** ** Editing the score *)

Lemma pageScore_updateGameScore p g home away :
  pageGame p = Some g →
  pageScore (pageWithGames p (updateGameScore (game_id g) home away (games p)))
  = Some (home, away)
  ∧ isFinished (pageWithGames p (updateGameScore (game_id g) home away (games p)))
    = isFinished p.
Proof.
  intros Hg. unfold pageScore, isFinished, updateGameScore.
  erewrite pageGame_fmap; [| |exact Hg].
  - rewrite Hg. simpl. by rewrite bool_decide_eq_true_2.
  - intros g0. by case_bool_decide.
Qed.

(** X21 ([handleIncrementScore], [confirmAction], [handleConfirmEditFinished],
    [handleCancelEditFinished]).  A click on a score adds one goal to that
    side at once while the game is not finished.  On a finished game the
    click changes no game and opens the dialog; cancelling leaves the page as
    it was, and confirming adds the goal and leaves the game finished. *)
Theorem score_edit_is_guarded team s g :
  pageGame (guarded_page s) = Some g →
  let s1 := handleIncrementScore team s in
  (isFinished (guarded_page s) = false →
     pageScore (guarded_page s1) = bump team <$> pageScore (guarded_page s)
     ∧ pendingAction s1 = pendingAction s)
  ∧ (isFinished (guarded_page s) = true →
       guarded_page s1 = guarded_page s
       ∧ isConfirmEditFinishedOpen s1 = true
       ∧ handleCancelEditFinished s1 = mkGuardedPage (guarded_page s) None false
       ∧ pageScore (guarded_page (handleConfirmEditFinished s1))
         = bump team <$> pageScore (guarded_page s)
       ∧ isFinished (guarded_page (handleConfirmEditFinished s1)) = true
       ∧ pendingAction (handleConfirmEditFinished s1) = None).
Proof.
  intros Hg s1. unfold s1, handleIncrementScore, confirmAction. rewrite Hg.
  assert (Hscore : pageScore (guarded_page s)
                   = Some (default 0 (homeScore g), default 0 (awayScore g))).
  { unfold pageScore. by rewrite Hg. }
  split; intros Hfin; rewrite Hfin.
  - simpl. split; [|done]. rewrite Hscore.
    destruct team; by erewrite (proj1 (pageScore_updateGameScore _ _ _ _ Hg)).
  - simpl. split_and!; try done.
    + rewrite Hscore.
      destruct team; by erewrite (proj1 (pageScore_updateGameScore _ _ _ _ Hg)).
    + rewrite <-Hfin.
      destruct team; by erewrite (proj2 (pageScore_updateGameScore _ _ _ _ Hg)).
Qed.

Lemma score_edit_is_guarded_witness :
  pageGame (guarded_page finishedPage)
  = Some (withTimer (sampleGame Running (Some 1000) 0
                       [fieldEntry "x" (at_ 20 30) (Some 1000);
                        fieldEntry "y" (at_ 60 70) (Some 1000);
                        benchEntry "a"; benchEntry "b"])
            Stopped 5399 (Some true)
            (Some [banked (fieldEntry "x" (at_ 20 30) (Some 1000)) 5399;
                   banked (fieldEntry "y" (at_ 60 70) (Some 1000)) 5399;
                   benchEntry "a"; benchEntry "b"]))
  ∧ isFinished (guarded_page finishedPage) = true
  ∧ pageScore (guarded_page (handleIncrementScore HomeSide finishedPage)) = Some (0, 0)
  ∧ pageScore (guarded_page
                 (handleConfirmEditFinished (handleIncrementScore HomeSide finishedPage)))
    = Some (1, 0).
Proof.
  assert (Hg : pageGame (guarded_page finishedPage)
    = Some (withTimer (sampleGame Running (Some 1000) 0
                       [fieldEntry "x" (at_ 20 30) (Some 1000);
                        fieldEntry "y" (at_ 60 70) (Some 1000);
                        benchEntry "a"; benchEntry "b"])
            Stopped 5399 (Some true)
            (Some [banked (fieldEntry "x" (at_ 20 30) (Some 1000)) 5399;
                   banked (fieldEntry "y" (at_ 60 70) (Some 1000)) 5399;
                   benchEntry "a"; benchEntry "b"]))) by reflexivity.
  assert (Hfin : isFinished (guarded_page finishedPage) = true) by reflexivity.
  destruct (score_edit_is_guarded HomeSide finishedPage _ Hg) as [_ Hguard].
  destruct (Hguard Hfin) as (Hsame & _ & _ & Hconfirm & _).
  split; [exact Hg|]. split; [exact Hfin|]. split.
  - by rewrite Hsame.
  - by rewrite Hconfirm.
Defined.

(** ** Editing a player *)

(** X22 ([EditPlayerModal.handleSubmit], [updatePlayer]).  An edit never
    touches ids or placements, nor any other player.  When it is accepted,
    the edited player carries the trimmed values and has a name; it is
    refused, and changes nothing, exactly when both names are blank. *)
Theorem editPlayer_effect (trim : string → string) player f l n prev :
  let result := EditPlayerModal.handleSubmit trim (Some player) f l n prev in
  structureOf <$> result.1 = structureOf <$> prev
  ∧ (∀ k q, prev !! k = Some q → player_id q ≠ player_id player →
            result.1 !! k = Some q)
  ∧ (result.2 = true →
       ∀ q, q ∈ result.1 → player_id q = player_id player →
            firstName q = trim f ∧ lastName q = trim l ∧ number q = trim n
            ∧ (firstName q ≠ ""%string ∨ lastName q ≠ ""%string))
  ∧ (result.2 = false ↔ trim f = ""%string ∧ trim l = ""%string)
  ∧ (result.2 = false → result.1 = prev).
Proof.
  intros result. unfold result, EditPlayerModal.handleSubmit.
  destruct (bool_decide (trim f ≠ ""%string) || bool_decide (trim l ≠ ""%string))
    eqn:Hname; simpl.
  - split_and!; try done.
    + unfold updatePlayer. rewrite <-list_fmap_compose. apply list_fmap_ext.
      intros _ q _. simpl. by destruct (bool_decide (player_id q = player_id player)).
    + intros k q Hk Hne. unfold updatePlayer. rewrite list_lookup_fmap, Hk. simpl.
      by rewrite bool_decide_eq_false_2.
    + intros _ q (q0 & -> & Hq0)%list_elem_of_fmap Hid.
      destruct (bool_decide (player_id q0 = player_id player)) eqn:Hq;
        [|by apply bool_decide_eq_false in Hq].
      simpl. split_and!; try done.
      apply orb_prop in Hname as [Hn%bool_decide_eq_true|Hn%bool_decide_eq_true];
        [by left|by right].
    + split; [done|]. intros [Hf Hl].
      by rewrite !bool_decide_eq_false_2 in Hname by (intros ?; done).
  - apply orb_false_elim in Hname as [Hf%bool_decide_eq_false Hl%bool_decide_eq_false].
    split_and!; try done. split; [intros _|done].
    split; [by destruct (decide (trim f = ""%string))
           |by destruct (decide (trim l = ""%string))].
Qed.

(** ** What the page shows is what a stop would store *)

Lemma display_nonneg (stored d : Z) :
  0 ≤ stored → 0 ≤ d → (0 <= inject_Z stored + inject_Z d / 1000)%Q.
Proof.
  intros Hs Hd. unfold Qle, Qplus, Qdiv, Qmult, Qinv, inject_Z. simpl. lia.
Qed.

Lemma Math_round_Z z : Math_round (inject_Z z) = z.
Proof.
  unfold inject_Z. rewrite Math_round_eq.
  replace (2 * z + 1) with (1 + z * (2 * 1)) by lia.
  rewrite Z.div_add by lia. done.
Qed.

(** X23 (player-timer effect, [formatTimer], [stopGameTimer]).  While the
    clock runs, the minutes and seconds shown for an entry that is not
    inactive are the playtime that stopping the clock at that instant would
    store for it. *)
Theorem shown_playtime_is_stored_playtime now e :
  0 ≤ playtimeSeconds e →
  (∀ t, truthy (playtimerStartTime e) = Some t → t ≤ now) →
  location e ≠ Inactive →
  let shown := playerDisplayTime now true e in
  60 * timerMinutes shown + timerSeconds shown = playtimeSeconds (stopEntry now e).
Proof.
  intros Hpt Hnow Hloc shown.
  assert (Hshown : (0 <= shown)%Q).
  { unfold shown, playerDisplayTime. cbv zeta.
    destruct (if _ && true then _ else _) as [t|] eqn:Ht.
    - apply display_nonneg; [done|].
      destruct (bool_decide _ && true); [|done]. specialize (Hnow t Ht). lia.
    - unfold Qle, inject_Z. simpl. lia. }
  rewrite (timerParts_sum shown Hshown).
  unfold shown, playerDisplayTime, stopEntry. cbv zeta.
  destruct (location e) eqn:Hl; try done; simpl.
  - destruct (truthy (playtimerStartTime e)) as [t|]; simpl; [done|].
    apply Math_round_Z.
  - destruct (truthy (playtimerStartTime e)) as [t|]; simpl; apply Math_round_Z.
Qed.

Lemma shown_playtime_is_stored_playtime_witness :
  0 ≤ playtimeSeconds (fieldEntry "x" (at_ 20 30) (Some 1000))
  ∧ (∀ t, truthy (playtimerStartTime (fieldEntry "x" (at_ 20 30) (Some 1000))) = Some t
          → t ≤ 60600)
  ∧ location (fieldEntry "x" (at_ 20 30) (Some 1000)) ≠ Inactive
  ∧ 60 * timerMinutes (playerDisplayTime 60600 true (fieldEntry "x" (at_ 20 30) (Some 1000)))
    + timerSeconds (playerDisplayTime 60600 true (fieldEntry "x" (at_ 20 30) (Some 1000)))
    = playtimeSeconds (stopEntry 60600 (fieldEntry "x" (at_ 20 30) (Some 1000))).
Proof.
  assert (Hpt : 0 ≤ playtimeSeconds (fieldEntry "x" (at_ 20 30) (Some 1000)))
    by (simpl; lia).
  assert (Hnow : ∀ t,
    truthy (playtimerStartTime (fieldEntry "x" (at_ 20 30) (Some 1000))) = Some t
    → t ≤ 60600) by (intros t [= <-]; lia).
  assert (Hloc : location (fieldEntry "x" (at_ 20 30) (Some 1000)) ≠ Inactive)
    by (simpl; discriminate).
  split_and!; [done..|].
  exact (shown_playtime_is_stored_playtime 60600 _ Hpt Hnow Hloc).
Defined.

(** X24 (main clock effect, [formatTimer], [stopGameTimer]).  The minutes
    and seconds the main clock shows are the elapsed time that stopping the
    clock at that instant stores for the game. *)
Theorem shown_clock_is_stored_clock now gid gs i g :
  findGame gid gs = Some (i, g) →
  0 ≤ default 0 (timerElapsedSeconds g) →
  (∀ t, truthy (timerStartTime g) = Some t → t ≤ now) →
  let shown := gameDisplaySeconds now g in
  ∃ g', findGame gid (stopGameTimer now gid gs) = Some (i, g')
        ∧ default 0 (timerElapsedSeconds g')
          = 60 * timerMinutes shown + timerSeconds shown.
Proof.
  intros Hg Hel Hnow shown.
  assert (Hshown : (0 <= shown)%Q).
  { unfold shown, gameDisplaySeconds. cbv zeta.
    destruct (if bool_decide _ then _ else _) as [t|] eqn:Ht.
    - apply display_nonneg; [done|].
      destruct (bool_decide _); [|done]. specialize (Hnow t Ht). lia.
    - unfold Qle, inject_Z. simpl. lia. }
  rewrite (timerParts_sum shown Hshown).
  pose proof (findGame_lookup _ _ _ _ Hg) as [_ Hid].
  unfold stopGameTimer. rewrite findGame_fmap, Hg by (intros g0; by repeat case_match).
  simpl. eexists. split; [reflexivity|].
  unfold shown, gameDisplaySeconds. cbv zeta.
  rewrite (bool_decide_eq_true_2 _ Hid). simpl.
  destruct (bool_decide (timerStatus g = Some Running)); simpl;
    [|by rewrite Math_round_Z].
  destruct (truthy (timerStartTime g)) as [t|]; simpl; [done|].
  by rewrite Math_round_Z.
Qed.

Lemma shown_clock_is_stored_clock_witness :
  findGame "g1" runningGames
  = Some (0%nat, sampleGame Running (Some 1000) 0
                   [fieldEntry "x" (at_ 20 30) (Some 1000);
                    fieldEntry "y" (at_ 60 70) (Some 1000);
                    benchEntry "a"; benchEntry "b"])
  ∧ ∃ g', findGame "g1" (stopGameTimer 60600 "g1" runningGames) = Some (0%nat, g')
          ∧ default 0 (timerElapsedSeconds g') = 60.
Proof.
  assert (Hg : findGame "g1" runningGames
    = Some (0%nat, sampleGame Running (Some 1000) 0
                   [fieldEntry "x" (at_ 20 30) (Some 1000);
                    fieldEntry "y" (at_ 60 70) (Some 1000);
                    benchEntry "a"; benchEntry "b"])) by reflexivity.
  split; [exact Hg|].
  destruct (shown_clock_is_stored_clock 60600 "g1" runningGames 0%nat _ Hg)
    as (g' & Hg' & Hel).
  - simpl. lia.
  - intros t [= <-]. lia.
  - exists g'. split; [exact Hg'|]. rewrite Hel. reflexivity.
Defined.

(** ** Drops are not guarded by the state of the game *)

(** X25 ([DropZone], [handleDropInGame]).  Outside planning mode, dropping a
    player of the lineup on the bench or on the inactive zone, from another
    zone, moves the entry there and clears its position, whatever the state
    of the game: a finished game is edited this way without confirmation. *)
Theorem drop_moves_whatever_the_game_state now1 now2 copy dims zone rect drop item s g e :
  pageGame s = Some g →
  isPlanningSubs s = false →
  zone ≠ Field →
  item_location item ≠ zone →
  is_Some (findPlayer (item_id item) copy) →
  entryAt (game_id g) (item_id item) (games s) = Some e →
  ∃ e', entryAt (game_id g) (item_id item)
          (games (dropOnZone now1 now2 copy dims zone rect drop item s)) = Some e'
        ∧ location e' = zone ∧ position e' = None.
Proof.
  intros Hg Hplan Hzone Hsrc [[k moved] Hcopy] He.
  exists (movePlayerState now1 (gameRunning (game_id g) (games s))
            (item_location item) zone None e).
  assert (Hdrop : dropZoneDrop zone rect drop item = Some (item, None, None)).
  { unfold dropZoneDrop. by destruct zone, rect. }
  unfold dropOnZone. rewrite Hdrop. unfold handleDropInGame.
  rewrite Hg, Hplan, Hcopy.
  destruct zone; [done| |]; rewrite bool_decide_eq_true_2 by done; simpl;
    (split_and!; [|done..]);
    rewrite entryAt_move, decide_True by done; by rewrite He.
Qed.

Lemma drop_moves_whatever_the_game_state_witness :
  isFinished (guarded_page finishedPage) = true
  ∧ ∃ e', entryAt "g1" "x"
            (games (dropOnZone 6000000 6000001 sampleCopy (200, 400)%Q Inactive None None
                      (mkDragItem "x" Field (Some (at_ 20 30)))
                      (guarded_page finishedPage))) = Some e'
          ∧ location e' = Inactive ∧ position e' = None.
Proof.
  split; [reflexivity|].
  refine (drop_moves_whatever_the_game_state 6000000 6000001 sampleCopy (200, 400)%Q
            Inactive None None (mkDragItem "x" Field (Some (at_ 20 30)))
            (guarded_page finishedPage) _ _ eq_refl eq_refl _ _ _ eq_refl).
  - discriminate.
  - simpl. discriminate.
  - eexists. reflexivity.
Defined.
